(** * BeyondMokshaBlogs: key codec, blob adapter, replacement coordinator

    A shallow embedding of the storage coordination code of the blog API:
    - [src/services/s3Service.js]   (blob adapter and key codec),
    - [src/utils/presignedUrl.js]   (temporary-access URL issuer),
    - [src/controllers/blogController.js] in its two variants: the one keyed
      by the numeric blog id and the one keyed by the slug.

    Conventions.  A JavaScript string is a sequence of code units; the
    embedding uses [string], i.e. code units below 256, among which the
    regular-expression line terminators are LF and CR.  [null] and
    [undefined] are both [None].  An [async] function is a computation over
    the world (bucket, table, log) that either throws or returns. *)

From stdpp Require Import gmap strings list sorting pretty.
From Stdlib Require Import ZArith Ascii.

Open Scope Z_scope.

(** ** JavaScript string primitives *)

Module Js.

(** [stripPrefix p s] is [Some r] exactly when [s] is [p] followed by [r]. *)
Fixpoint stripPrefix (p s : string) : option string :=
  match p with
  | EmptyString => Some s
  | String a p' =>
      match s with
      | EmptyString => None
      | String b s' => if Ascii.eqb a b then stripPrefix p' s' else None
      end
  end.

(** [String.prototype.startsWith]. *)
Definition startsWith (s p : string) : bool :=
  match stripPrefix p s with Some _ => true | None => false end.

(** [String.prototype.replace] with a string pattern and a replacement
    free of [$]: only the first occurrence of [pat] is replaced. *)
Fixpoint replaceFirst (pat rep s : string) : string :=
  match stripPrefix pat s with
  | Some rest => rep +:+ rest
  | None =>
      match s with
      | EmptyString => EmptyString
      | String c s' => String c (replaceFirst pat rep s')
      end
  end.

(** Truthiness of a string value: the empty string is falsy. *)
Definition truthy (s : string) : bool :=
  match s with EmptyString => false | String _ _ => true end.

(** Truthiness of a possibly null string. *)
Definition truthy_opt (o : option string) : bool :=
  match o with Some s => truthy s | None => false end.

(** [a || b] on possibly null strings where [b] is a string. *)
Definition or_else (a : option string) (b : string) : string :=
  match a with
  | Some s => if truthy s then s else b
  | None => b
  end.

Definition is_slash (c : ascii) : bool := Ascii.eqb c "/"%char.

(** [String.prototype.includes]. *)
Fixpoint includes (s pat : string) : bool :=
  match stripPrefix pat s with
  | Some _ => true
  | None =>
      match s with
      | EmptyString => false
      | String _ s' => includes s' pat
      end
  end.

(** Characters that [.] does not match in a regular expression. *)
Definition is_line_terminator (c : ascii) : bool :=
  Ascii.eqb c "010"%char || Ascii.eqb c "013"%char.

Fixpoint forallb_string (f : ascii → bool) (s : string) : bool :=
  match s with
  | EmptyString => true
  | String c s' => f c && forallb_string f s'
  end.

(** The longest prefix matched by [[^/]*] and what follows it. *)
Fixpoint span_non_slash (s : string) : string * string :=
  match s with
  | EmptyString => (EmptyString, EmptyString)
  | String c s' =>
      if is_slash c then (EmptyString, s)
      else let '(h, t) := span_non_slash s' in (String c h, t)
  end.

(** [s.replace(/^s3:\/\/[^/]+\//, '')]: the pattern is anchored at the
    start, [[^/]+] takes every character up to the first slash (at least
    one), and a slash must follow; when the pattern does not match the
    string is returned unchanged. *)
Definition replace_s3_authority (s : string) : string :=
  match stripPrefix "s3://" s with
  | None => s
  | Some rest =>
      match span_non_slash rest with
      | (String _ _, String _ key) => key
      | _ => s
      end
  end.

(** Capture group 1 of [s.match(/\.amazonaws\.com\/(.+)$/)]: the leftmost
    position where the literal [.amazonaws.com/] starts and is followed,
    up to the end of the input, by one or more characters none of which is
    a line terminator. *)
Fixpoint match_amazonaws (s : string) : option string :=
  let next :=
    match s with
    | EmptyString => None
    | String _ s' => match_amazonaws s'
    end in
  match stripPrefix ".amazonaws.com/" s with
  | Some rest =>
      if truthy rest && forallb_string (λ c, negb (is_line_terminator c)) rest
      then Some rest else next
  | None => next
  end.

End Js.

(** No character of [s] is a slash. *)
Definition slash_free (s : string) : bool :=
  Js.forallb_string (λ c, negb (Js.is_slash c)) s.

(** No character of [s] is a line terminator. *)
Definition single_line (s : string) : bool :=
  Js.forallb_string (λ c, negb (Js.is_line_terminator c)) s.

(** ** Key codec *)

Section KeyCodec.

(** [process.env.S3_CDN_URL]; [None] when the variable is not set. *)
Variable S3_CDN_URL : option string.

(** The guard [S3_CDN_URL && url.startsWith(S3_CDN_URL)]: the configured
    base when it is truthy and a prefix of [u]. *)
Definition cdn_base_of (u : string) : option string :=
  match S3_CDN_URL with
  | Some cdn => if Js.truthy cdn && Js.startsWith u cdn then Some cdn else None
  | None => None
  end.

(** [extractKeyFromUrl] of [s3Service.js].  Its logger calls do not
    influence the result and are left out.  On a string or [null] no step
    of the [try] block throws, so the handler, which returns [null] too, is
    never entered. *)
Definition extractKeyFromUrl (url : option string) : option string :=
  match url with
  | None => None
  | Some u =>
      if negb (Js.truthy u) then None
      else if Js.startsWith u "s3://" then Some (Js.replace_s3_authority u)
      else
        match cdn_base_of u with
        | Some cdn => Some (Js.replaceFirst (cdn +:+ "/") "" u)
        | None => Js.match_amazonaws u
        end
  end.

(** [extractS3Key] of [presignedUrl.js]; it reads the CDN base from the
    environment when it is called. *)
Definition extractS3Key (contentUrl : option string) : option string :=
  match contentUrl with
  | None => None
  | Some u =>
      if negb (Js.truthy u) then None
      else if Js.startsWith u "s3://" then Some (Js.replace_s3_authority u)
      else
        match cdn_base_of u with
        | Some cdn => Some (Js.replaceFirst (cdn +:+ "/") "" u)
        | None => Js.match_amazonaws u
        end
  end.

End KeyCodec.

(** ** The world: bucket, table, log *)

(** A thrown JavaScript error. *)
Record JsError := { err_name : string; err_message : string }.

(** [new Error(msg)]. *)
Definition Error (msg : string) : JsError :=
  {| err_name := "Error"; err_message := msg |}.

Definition Buffer := string.

Record S3Object := { Body : Buffer; ContentType : option string }.

(** The commands the code sends; each addresses the bucket [S3_BUCKET]. *)
Inductive S3Command :=
| PutObjectCommand (Key : string) (body : Buffer) (contentType : option string)
| DeleteObjectCommand (Key : string)
| HeadObjectCommand (Key : string)
| GetObjectCommand (Key : string).

Inductive LogEntry :=
| LogS3Operation (op key : string) (ok : bool)
| LogError (msg : string)
| LogWarn (msg : string)
| LogInfo (msg : string)
| LogDebug (msg : string).

(** Modelled from the spec: the Prisma schema is not among the sources; the
    row follows the BlogRecord of the data model (the id-keyed controller
    reads and writes only the columns it names). *)
Record Blog := {
  id : Z;
  title : string;
  slug : string;
  authorId : option Z;
  summary : option string;
  tags : list string;
  contentUrl : string;
  coverImageUrl : option string;
  readTime : option Z;
  views : Z;
  likes : Z;
  status : string;
  createdAt : Z;
  updatedAt : Z;
  deletedAt : option Z;
}.

Record World := {
  bucket : gmap string S3Object;
    (** the objects of the bucket, by key *)
  s3_faults : list (option JsError);
    (** what the transport does to the coming sends, in order: [Some e]
        makes the send reject with [e]; past the end every send goes
        through *)
  s3_sent : list S3Command;
    (** the commands sent so far, oldest first *)
  blogs : list Blog;
    (** the rows of the table *)
  next_id : Z;
  clock : Z;
  db_faults : list (option JsError);
    (** as [s3_faults], for the calls of the database client *)
  log : list LogEntry;
    (** logger output, oldest first *)
}.

Definition with_s3 (bk : gmap string S3Object) (fs : list (option JsError))
    (sent : list S3Command) (w : World) : World :=
  {| bucket := bk; s3_faults := fs; s3_sent := sent; blogs := blogs w;
     next_id := next_id w; clock := clock w; db_faults := db_faults w;
     log := log w |}.

Definition with_db (rows : list Blog) (nid : Z) (fs : list (option JsError))
    (w : World) : World :=
  {| bucket := bucket w; s3_faults := s3_faults w; s3_sent := s3_sent w;
     blogs := rows; next_id := nid; clock := clock w; db_faults := fs;
     log := log w |}.

Definition with_log (l : list LogEntry) (w : World) : World :=
  {| bucket := bucket w; s3_faults := s3_faults w; s3_sent := s3_sent w;
     blogs := blogs w; next_id := next_id w; clock := clock w;
     db_faults := db_faults w; log := l |}.

(** An asynchronous computation: it runs on a world and throws or returns. *)
Definition M (A : Type) : Type := World → (JsError + A) * World.

Definition ret {A} (a : A) : M A := λ w, (inr a, w).

Definition throw {A} (e : JsError) : M A := λ w, (inl e, w).

Definition bind {A B} (c : M A) (k : A → M B) : M B :=
  λ w, match c w with
       | (inr a, w') => k a w'
       | (inl e, w') => (inl e, w')
       end.

(** [try { c } catch (error) { h error }]. *)
Definition try_catch {A} (c : M A) (h : JsError → M A) : M A :=
  λ w, match c w with
       | (inr a, w') => (inr a, w')
       | (inl e, w') => h e w'
       end.

Notation "x <~ c ;; k" := (bind c (λ x, k))
  (at level 100, c at next level, right associativity).
Notation "c ;;; k" := (bind c (λ _, k))
  (at level 100, right associativity).

Definition logger (e : LogEntry) : M unit :=
  λ w, (inr (), with_log (log w ++ [e]) w).

(** [for (const x of l) { body x }]. *)
Fixpoint for_of {A} (l : list A) (body : A → M unit) : M unit :=
  match l with
  | [] => ret ()
  | x :: l' => body x ;;; for_of l' body
  end.

(** What a send resolves to. *)
Inductive S3Output :=
| OutDone
| OutBody (b : Buffer).

(** Modelled from the spec: the object store is an external collaborator;
    [s3Client.send] follows the adapter contract: put overwrites, delete of
    an absent key succeeds, head and get of an absent key reject (head with
    the error name [NotFound]), and the transport may reject any send. *)
Definition send (cmd : S3Command) : M S3Output :=
  λ w,
    let sent := s3_sent w ++ [cmd] in
    let w1 := with_s3 (bucket w) (tail (s3_faults w)) sent w in
    match head (s3_faults w) with
    | Some (Some e) => (inl e, w1)
    | _ =>
        match cmd with
        | PutObjectCommand k b ct =>
            (inr OutDone,
             with_s3 (<[k := {| Body := b; ContentType := ct |}]> (bucket w))
                     (tail (s3_faults w)) sent w)
        | DeleteObjectCommand k =>
            (inr OutDone,
             with_s3 (delete k (bucket w)) (tail (s3_faults w)) sent w)
        | HeadObjectCommand k =>
            match bucket w !! k with
            | Some _ => (inr OutDone, w1)
            | None => (inl {| err_name := "NotFound"; err_message := "NotFound" |}, w1)
            end
        | GetObjectCommand k =>
            match bucket w !! k with
            | Some o => (inr (OutBody (Body o)), w1)
            | None =>
                (inl {| err_name := "NoSuchKey";
                        err_message := "The specified key does not exist." |}, w1)
            end
        end
    end.

(** ** Blob store adapter: [s3Service.js] *)

Section S3Service.

(** The text of [process.env.S3_BUCKET] as a template literal renders it. *)
Variable S3_BUCKET : string.
Variable S3_CDN_URL : option string.

(** [path.extname] of the Node runtime. *)
Variable extname : string → string.

Definition uploadFile (fileBuffer : Buffer) (key : string)
    (contentType : option string) : M string :=
  try_catch
    (send (PutObjectCommand key fileBuffer contentType) ;;;
     logger (LogS3Operation "UPLOAD" key true) ;;;
     ret ("s3://" +:+ S3_BUCKET +:+ "/" +:+ key))
    (λ error,
       logger (LogS3Operation "UPLOAD" key false) ;;;
       logger (LogError ("S3 upload error: " +:+ err_message error)) ;;;
       throw (Error ("Failed to upload file to S3: " +:+ err_message error))).

Definition deleteFile (key : string) : M unit :=
  try_catch
    (send (DeleteObjectCommand key) ;;;
     logger (LogS3Operation "DELETE" key true))
    (λ error,
       logger (LogS3Operation "DELETE" key false) ;;;
       logger (LogError ("S3 delete error: " +:+ err_message error)) ;;;
       throw (Error ("Failed to delete file from S3: " +:+ err_message error))).

Definition fileExists (key : string) : M bool :=
  try_catch
    (send (HeadObjectCommand key) ;;; ret true)
    (λ error,
       if String.eqb (err_name error) "NotFound" then ret false
       else throw error).

(** [blogId] is the text the template literal inserts for the argument. *)
Definition uploadBlogContent (contentBuffer : Buffer) (blogId : string)
    (originalFilename : string) (contentType : option string) : M string :=
  let key := "blogs/" +:+ blogId +:+ "/" +:+ originalFilename in
  uploadFile contentBuffer key contentType.

Definition uploadBlogCoverImage (imageBuffer : Buffer) (blogId : string)
    (originalName : string) (mimeType : option string) : M string :=
  let extension := extname originalName in
  let key := "blogs/" +:+ blogId +:+ "/cover" +:+ extension in
  uploadFile imageBuffer key mimeType.

(** [if (key && await fileExists(key)) { await deleteFile(key); then }]. *)
Definition delete_if_present (key : option string) (then_ : string → M unit)
    : M unit :=
  match key with
  | Some k =>
      if Js.truthy k then
        present <~ fileExists k ;;
        if present : bool then deleteFile k ;;; then_ k else ret ()
      else ret ()
  | None => ret ()
  end.

Definition deleteBlogFiles (blogId : string) (contentUrl : option string)
    (coverImageUrl : option string) : M unit :=
  try_catch
    ((if Js.truthy_opt contentUrl then
        let contentKey := extractKeyFromUrl S3_CDN_URL contentUrl in
        delete_if_present contentKey
          (λ k, logger (LogInfo ("Deleted content file: " +:+ k)))
      else
        let contentKeys :=
          [ "blogs/" +:+ blogId +:+ "/content.html";
            "blogs/" +:+ blogId +:+ "/content.md";
            "blogs/" +:+ blogId +:+ "/content.docx" ] in
        for_of contentKeys (λ key,
          delete_if_present (Some key)
            (λ k, logger (LogInfo ("Deleted legacy content file: " +:+ k))))) ;;;
     (if Js.truthy_opt coverImageUrl then
        let imageKey := extractKeyFromUrl S3_CDN_URL coverImageUrl in
        delete_if_present imageKey
          (λ k, logger (LogInfo ("Deleted cover image: " +:+ k)))
      else
        let imageExtensions := [".jpg"; ".jpeg"; ".png"; ".webp"; ".gif"; ".svg"] in
        for_of imageExtensions (λ ext,
          let key := "blogs/" +:+ blogId +:+ "/cover" +:+ ext in
          delete_if_present (Some key)
            (λ k, logger (LogInfo ("Deleted legacy cover image: " +:+ k))))) ;;;
     logger (LogInfo ("Completed file deletion for blog ID: " +:+ blogId)))
    (λ error,
       logger (LogError ("Error deleting blog files for ID " +:+ blogId
                         +:+ ": " +:+ err_message error))).

Definition replaceBlogContent (oldUrl : option string)
    (newContentBuffer : Buffer) (blogId : string) (originalFilename : string)
    (contentType : option string) : M string :=
  let oldKey := extractKeyFromUrl S3_CDN_URL oldUrl in
  delete_if_present oldKey (λ _, ret ()) ;;;
  uploadBlogContent newContentBuffer blogId originalFilename contentType.

Definition replaceBlogCoverImage (oldUrl : option string)
    (newImageBuffer : Buffer) (blogId : string) (originalName : string)
    (mimeType : option string) : M string :=
  let oldKey := extractKeyFromUrl S3_CDN_URL oldUrl in
  delete_if_present oldKey (λ _, ret ()) ;;;
  uploadBlogCoverImage newImageBuffer blogId originalName mimeType.

End S3Service.

(** ** Temporary-access URL issuer: [presignedUrl.js] *)

Section PresignedUrl.

Variable S3_BUCKET : string.
Variable S3_CDN_URL : option string.

(** [getSignedUrl] of the SDK applied to a [GetObjectCommand] for the
    given bucket and key, with the given lifetime in seconds. *)
Variable getSignedUrl : string → string → Z → JsError + string.

Definition generatePresignedUrl (s3Url : option string) (expiresIn : Z)
    : M string :=
  try_catch
    ((if negb (Js.truthy_opt s3Url)
      then throw (Error "S3 URL is required") else ret ()) ;;;
     let raw := default "" s3Url in
     let key := Js.or_else (extractS3Key S3_CDN_URL s3Url) raw in
     (if negb (Js.truthy key)
      then throw (Error "Could not extract S3 key from URL") else ret ()) ;;;
     match getSignedUrl S3_BUCKET key expiresIn with
     | inl e => throw e
     | inr presignedUrl =>
         logger (LogDebug ("Generated presigned URL for key: " +:+ presignedUrl)) ;;;
         ret presignedUrl
     end)
    (λ error,
       logger (LogError ("Error generating presigned URL for "
                         +:+ default "null" s3Url +:+ ": " +:+ err_message error)) ;;;
       throw (Error ("Failed to generate presigned URL: " +:+ err_message error))).

End PresignedUrl.

(** ** Record store client *)

Inductive IntUpdate :=
| SetInt (z : Z)
| IncrementBy (z : Z).

(** The [data] object of an update: [None] leaves the column alone.  A
    [upd_tags] of [Some None] is a value that is not an array of strings. *)
Record UpdateData := {
  upd_title : option string;
  upd_slug : option string;
  upd_authorId : option (option Z);
  upd_summary : option (option string);
  upd_tags : option (option (list string));
  upd_contentUrl : option string;
  upd_coverImageUrl : option (option string);
  upd_readTime : option (option Z);
  upd_status : option string;
  upd_views : option IntUpdate;
  upd_likes : option IntUpdate;
  upd_deletedAt : option (option Z);
}.

Definition no_update : UpdateData :=
  {| upd_title := None; upd_slug := None; upd_authorId := None;
     upd_summary := None; upd_tags := None; upd_contentUrl := None;
     upd_coverImageUrl := None; upd_readTime := None; upd_status := None;
     upd_views := None; upd_likes := None; upd_deletedAt := None |}.

Definition apply_int (u : option IntUpdate) (old : Z) : Z :=
  match u with
  | None => old
  | Some (SetInt z) => z
  | Some (IncrementBy z) => old + z
  end.

Definition apply_update (now : Z) (d : UpdateData) (b : Blog) : Blog :=
  {| id := id b;
     title := default (title b) (upd_title d);
     slug := default (slug b) (upd_slug d);
     authorId := default (authorId b) (upd_authorId d);
     summary := default (summary b) (upd_summary d);
     tags := match upd_tags d with Some (Some l) => l | _ => tags b end;
     contentUrl := default (contentUrl b) (upd_contentUrl d);
     coverImageUrl := default (coverImageUrl b) (upd_coverImageUrl d);
     readTime := default (readTime b) (upd_readTime d);
     views := apply_int (upd_views d) (views b);
     likes := apply_int (upd_likes d) (likes b);
     status := default (status b) (upd_status d);
     createdAt := createdAt b;
     updatedAt := now;
     deletedAt := default (deletedAt b) (upd_deletedAt d) |}.

(** The [where] object of a list query, a conjunction of conditions. *)
#[warnings="-register-all"] Inductive Condition :=
| DeletedAtNull
| StatusIs (s : string)
| TagsHasSome (ts : list string)
| TitleContains (needle : string)
| SummaryContains (needle : string)
| AnyOf (cs : list Condition).

(** Modelled from the spec: the record-store client is an external
    collaborator; these are the calls the controllers make on it, over the
    table of the world.  Each call may be rejected by the transport. *)
Module prisma.

Definition call {A} (op : M A) : M A :=
  λ w,
    let w1 := with_db (blogs w) (next_id w) (tail (db_faults w)) w in
    match head (db_faults w) with
    | Some (Some e) => (inl e, w1)
    | _ => op w1
    end.

Definition has_id (i : Z) (b : Blog) : bool := id b =? i.
Definition has_slug (s : string) (b : Blog) : bool := String.eqb (slug b) s.

Definition findUnique_id (i : Z) : M (option Blog) :=
  call (λ w, (inr (find (has_id i) (blogs w)), w)).

Definition findUnique_slug (s : string) : M (option Blog) :=
  call (λ w, (inr (find (has_slug s) (blogs w)), w)).

Definition slug_taken (self : option Z) (s : string) (rows : list Blog) : bool :=
  existsb (λ b, has_slug s b && negb (bool_decide (Some (id b) = self))) rows.

(** The columns a [create] supplies; the others take their defaults. *)
Record CreateData := {
  new_title : string;
  new_slug : string;
  new_authorId : option Z;
  new_summary : option string;
  new_tags : list string;
  new_contentUrl : string;
  new_coverImageUrl : option string;
  new_readTime : option Z;
  new_status : string;
}.

Definition create (d : CreateData) : M Blog :=
  call (λ w,
    if slug_taken None (new_slug d) (blogs w)
    then (inl {| err_name := "PrismaClientKnownRequestError";
                 err_message := "Unique constraint failed on the fields: (`slug`)" |}, w)
    else
      let b := {| id := next_id w; title := new_title d; slug := new_slug d;
                  authorId := new_authorId d; summary := new_summary d;
                  tags := new_tags d; contentUrl := new_contentUrl d;
                  coverImageUrl := new_coverImageUrl d;
                  readTime := new_readTime d; views := 0; likes := 0;
                  status := new_status d; createdAt := clock w;
                  updatedAt := clock w; deletedAt := None |} in
      (inr b, with_db (blogs w ++ [b]) (next_id w + 1) (db_faults w) w)).

Definition replace_row (b' : Blog) (rows : list Blog) : list Blog :=
  map (λ b, if has_id (id b') b then b' else b) rows.

Definition update (i : Z) (d : UpdateData) : M Blog :=
  call (λ w,
    match find (has_id i) (blogs w) with
    | None =>
        (inl {| err_name := "PrismaClientKnownRequestError";
                err_message := "Record to update not found." |}, w)
    | Some b =>
        if bool_decide (upd_tags d = Some None)
        then (inl {| err_name := "PrismaClientValidationError";
                     err_message := "Invalid value provided for tags." |}, w)
        else if match upd_slug d with
                | Some s => slug_taken (Some i) s (blogs w)
                | None => false
                end
        then (inl {| err_name := "PrismaClientKnownRequestError";
                     err_message := "Unique constraint failed on the fields: (`slug`)" |}, w)
        else
          let b' := apply_update (clock w) d b in
          (inr b', with_db (replace_row b' (blogs w)) (next_id w) (db_faults w) w)
    end).

Definition delete (i : Z) : M Blog :=
  call (λ w,
    match find (has_id i) (blogs w) with
    | None =>
        (inl {| err_name := "PrismaClientKnownRequestError";
                err_message := "Record to delete does not exist." |}, w)
    | Some b =>
        (inr b, with_db (filter (λ r, id r ≠ i) (blogs w)) (next_id w) (db_faults w) w)
    end).

Section Query.

(** The case-insensitive [contains] of the database: [contains hay
    needle]. *)
Variable contains : string → string → bool.

Fixpoint holds (c : Condition) (b : Blog) : bool :=
  match c with
  | DeletedAtNull => bool_decide (deletedAt b = None)
  | StatusIs s => String.eqb (status b) s
  | TagsHasSome ts => existsb (λ t, bool_decide (t ∈ ts)) (tags b)
  | TitleContains n => contains (title b) n
  | SummaryContains n =>
      match summary b with Some t => contains t n | None => false end
  | AnyOf cs => existsb (λ c', holds c' b) cs
  end.

Definition satisfies (where_ : list Condition) (b : Blog) : bool :=
  forallb (λ c, holds c b) where_.

Definition newer_first (a b : Blog) : Prop := createdAt b ≤ createdAt a.

#[global] Instance newer_first_dec : RelDecision newer_first.
Proof. intros a b. unfold newer_first. apply _. Defined.

(** [findMany] ordered by [createdAt] descending with [skip] and
    [take]. *)
Definition findMany (where_ : list Condition) (skip take_ : Z)
    : M (list Blog) :=
  call (λ w,
    let rows := List.filter (satisfies where_) (blogs w) in
    let sorted := merge_sort newer_first rows in
    (inr (take (Z.to_nat take_) (drop (Z.to_nat skip) sorted)), w)).

Definition count (where_ : list Condition) : M Z :=
  call (λ w,
    (inr (Z.of_nat (length (List.filter (satisfies where_) (blogs w)))), w)).

(** The [orderBy] of the feeds. *)
Inductive OrderBy :=
| CreatedAtDesc
| ViewsDesc.

Definition more_viewed_first (a b : Blog) : Prop := views b ≤ views a.

#[global] Instance more_viewed_first_dec : RelDecision more_viewed_first.
Proof. intros a b. unfold more_viewed_first. apply _. Defined.

(** [findMany] with an [orderBy] and a [take], without [skip]. *)
Definition findMany_top (where_ : list Condition) (orderBy : OrderBy)
    (take_ : Z) : M (list Blog) :=
  call (λ w,
    let rows := List.filter (satisfies where_) (blogs w) in
    let sorted :=
      match orderBy with
      | CreatedAtDesc => merge_sort newer_first rows
      | ViewsDesc => merge_sort more_viewed_first rows
      end in
    (inr (take (Z.to_nat take_) sorted), w)).

End Query.

End prisma.

(** ** Requests and responses of the controllers *)

Record UploadedFile := {
  originalname : string;
  mimetype : string;
  buffer : Buffer;
}.

(** A [tags] form field: a string holding JSON, or an array. *)
Inductive TagsField :=
| TagsText (s : string)
| TagsArray (l : list string).

(** [req.files] of an upload with the fields [content] and [cover]. *)
Record Files := {
  content : option UploadedFile;
  cover : option UploadedFile;
}.

(** The query of a list request.  [query_page] and [query_limit] hold what
    [parseInt] returns ([None] for [NaN]); [query_tags] is the tag list
    after the split, trim and filter of the handler. *)
Record ListQuery := {
  query_page : option Z;
  query_limit : option Z;
  query_search : option string;
  query_status : option string;
  query_tags : list string;
}.

(** The [data] of the content response. *)
Record ContentView := {
  view_id : Z;
  view_title : string;
  view_tags : list string;
  view_coverImageUrl : option string;
  view_readTime : option Z;
  view_views : Z;
  view_likes : Z;
  view_createdAt : Z;
  view_updatedAt : Z;
  view_content : string;
}.

(** The [data] of a response; a page of a list carries [total], [page] and
    [limit], of which [totalPages] and [hasMore] are functions. *)
Inductive Payload :=
| NoData
| OneBlog (b : Blog)
| Page (rows : list Blog) (total page limit : Z)
| Content (v : ContentView)
| ContentOf (slug_ : string) (authorId_ : option Z) (summary_ : option string)
            (status_ : string) (v : ContentView).

(** [res.status(code).json({ success, message, data })]; the [error] detail
    of the development mode is not carried. *)
Record Response := {
  code : Z;
  success : bool;
  message : option string;
  data : Payload;
}.

Definition respond (c : Z) (ok : bool) (msg : option string) (d : Payload)
    : M Response :=
  ret {| code := c; success := ok; message := msg; data := d |}.

(** [parseInt(x) || d]. *)
Definition int_or (x : option Z) (d : Z) : Z :=
  match x with
  | Some z => if z =? 0 then d else z
  | None => d
  end.

(** A value of a synchronous call that may throw, inside [M]. *)
Definition lift {A} (r : JsError + A) : M A :=
  match r with
  | inl e => throw e
  | inr a => ret a
  end.

(** A promise that is not awaited, with its [.catch] handler: it is run where
    it is issued and cannot throw into the caller. *)
Definition detached {A} (c : M A) (on_reject : JsError → M unit) : M unit :=
  λ w, match c w with
       | (inr _, w') => (inr (), w')
       | (inl e, w') => on_reject e w'
       end.

Definition body_text (o : S3Output) : string :=
  match o with
  | OutBody b => b
  | OutDone => ""
  end.

Definition views_plus_one : UpdateData :=
  {| upd_title := None; upd_slug := None; upd_authorId := None;
     upd_summary := None; upd_tags := None; upd_contentUrl := None;
     upd_coverImageUrl := None; upd_readTime := None; upd_status := None;
     upd_views := Some (IncrementBy 1); upd_likes := None;
     upd_deletedAt := None |}.

(** [new Date()]. *)
Definition now : M Z := λ w, (inr (clock w), w).

(** [await Promise.all(l.map(f))], the calls taken in the order of the
    list. *)
Fixpoint map_async {A B} (f : A → M B) (l : list A) : M (list B) :=
  match l with
  | [] => ret []
  | x :: l' =>
      y <~ f x ;;
      ys <~ map_async f l' ;;
      ret (y :: ys)
  end.

(** An item of a feed: the row with its two locators replaced by what the
    issuer gave, or by [null].  [item_blog] is the row the item is made
    from; of its columns the answer shows those the query selects, which
    never include [deletedAt] and, in the id-keyed controller, leave out
    [slug], [authorId], [summary] and [status] as well. *)
Record FeedItem := {
  item_blog : Blog;
  item_contentUrl : option string;
  item_coverImageUrl : option string;
}.

(** The answer of a feed: [{ success, message, data, count }]. *)
Record FeedResponse := {
  feed_code : Z;
  feed_success : bool;
  feed_message : option string;
  feed_data : list FeedItem;
  feed_count : Z;
}.

(** The [pagination] object of a list answer.  [Math.ceil(total / limit)]
    is the integer ceiling of the quotient, the division being exact on a
    count and a positive limit. *)
Definition totalPages (total limit : Z) : Z := - ((- total) / limit).

Definition hasMore (page total limit : Z) : bool :=
  page <? totalPages total limit.

(** The [pagination] object of [searchBlogs] in [search.js], from [offset]
    and [limit]: [Math.floor(offset / limit) + 1] and
    [offset + limit < total]. *)
Definition search_page (offset limit : Z) : Z := offset / limit + 1.

Definition search_hasMore (offset limit total : Z) : bool :=
  offset + limit <? total.

(** ** The controller keyed by the blog id: [src/controllers/blogController.js] *)

Module IdKeyed.

(** The body of an update request.  [update_readTime] is [None] when the
    field is undefined, [Some None] when it is falsy and [Some (Some n)]
    when [parseInt] gives [n]; [update_views] and [update_likes] hold the
    parsed integers. *)
Record UpdateRequest := {
  params_id : Z;
  update_title : option string;
  update_tags : option TagsField;
  update_readTime : option (option Z);
  update_views : option Z;
  update_likes : option Z;
  files : option Files;
}.

Section Controller.

Variable S3_BUCKET : string.
Variable S3_CDN_URL : option string.
Variable extname : string → string.
Variable getSignedUrl : string → string → Z → JsError + string.

(** [sanitizeHTMLToBuffer] of [htmlSanitizer.js]. *)
Variable sanitizeHTMLToBuffer : Buffer → JsError + Buffer.

(** [JSON.parse] of a tags text: it throws, or gives an array of strings
    ([Some]) or another value ([None]). *)
Variable JSON_parse : string → JsError + option (list string).

Variable contains : string → string → bool.

Definition not_found : M Response :=
  respond 404 false (Some "Blog not found") NoData.

Definition getBlogs (q : ListQuery) : M Response :=
  try_catch
    (let page := int_or (query_page q) 1 in
     let limit := int_or (query_limit q) 20 in
     let offset := (page - 1) * limit in
     let search := query_search q in
     let tags := query_tags q in
     let where_ :=
       [DeletedAtNull]
       ++ (if bool_decide (0 < length tags)%nat then [TagsHasSome tags] else [])
       ++ (if Js.truthy_opt search
           then [AnyOf [TitleContains (default "" search)]] else []) in
     blogs <~ prisma.findMany contains where_ offset limit ;;
     total <~ prisma.count contains where_ ;;
     respond 200 true None (Page blogs total page limit))
    (λ error,
       logger (LogError ("Get blogs error: " +:+ err_message error)) ;;;
       respond 500 false (Some "Failed to fetch blogs") NoData).

Definition updateBlog (req : UpdateRequest) : M Response :=
  try_catch
    (let blogId := params_id req in
     existingBlog <~ prisma.findUnique_id blogId ;;
     match existingBlog with
     | None => not_found
     | Some existing =>
         if bool_decide (deletedAt existing ≠ None) then not_found
         else
           parsedTags <~
             match update_tags req with
             | Some (TagsText s) =>
                 if Js.truthy s
                 then (v <~ lift (JSON_parse s) ;; ret (Some v))
                 else ret None
             | Some (TagsArray l) => ret (Some (Some l))
             | None => ret None
             end ;;
           newContentUrl <~
             match files req with
             | Some fs =>
                 match content fs with
                 | Some contentFile =>
                     logger (LogInfo ("Sanitizing updated HTML content for blog ID: "
                                      +:+ pretty blogId)) ;;;
                     sanitizedBuffer <~ lift (sanitizeHTMLToBuffer (buffer contentFile)) ;;
                     url <~ replaceBlogContent S3_BUCKET S3_CDN_URL
                              (Some (contentUrl existing)) sanitizedBuffer
                              (pretty blogId) (mimetype contentFile) None ;;
                     ret (Some url)
                 | None => ret None
                 end
             | None => ret None
             end ;;
           newCoverUrl <~
             match files req with
             | Some fs =>
                 match cover fs with
                 | Some coverFile =>
                     url <~ replaceBlogCoverImage S3_BUCKET S3_CDN_URL extname
                              (coverImageUrl existing) (buffer coverFile)
                              (pretty blogId) (originalname coverFile)
                              (Some (mimetype coverFile)) ;;
                     ret (Some (Some url))
                 | None => ret None
                 end
             | None => ret None
             end ;;
           let updateData :=
             {| upd_title :=
                  if Js.truthy_opt (update_title req) then update_title req else None;
                upd_slug := None; upd_authorId := None; upd_summary := None;
                upd_tags := parsedTags;
                upd_contentUrl := newContentUrl;
                upd_coverImageUrl := newCoverUrl;
                upd_readTime := update_readTime req;
                upd_status := None;
                upd_views := SetInt <$> update_views req;
                upd_likes := SetInt <$> update_likes req;
                upd_deletedAt := None |} in
           updatedBlog <~ prisma.update blogId updateData ;;
           respond 200 true (Some "Blog updated successfully") (OneBlog updatedBlog)
     end)
    (λ error,
       logger (LogError ("Update blog error: " +:+ err_message error)) ;;;
       respond 500 false (Some "Failed to update blog") NoData).

Definition permanentDeleteBlog (blogId : Z) : M Response :=
  try_catch
    (blog <~ prisma.findUnique_id blogId ;;
     match blog with
     | None => not_found
     | Some _ =>
         deleteBlogFiles S3_CDN_URL (pretty blogId) None None ;;;
         prisma.delete blogId ;;;
         respond 200 true (Some "Blog permanently deleted") NoData
     end)
    (λ error,
       logger (LogError ("Permanent delete blog error: " +:+ err_message error)) ;;;
       respond 500 false (Some "Failed to permanently delete blog") NoData).

Definition getBlogContent (blogId : Z) : M Response :=
  try_catch
    (found <~ prisma.findUnique_id blogId ;;
     match found with
     | None => not_found
     | Some blog =>
         if bool_decide (deletedAt blog ≠ None) then not_found
         else
           detached (prisma.update (id blog) views_plus_one)
             (λ err, logger (LogError ("Failed to increment views: "
                                       +:+ err_message err))) ;;;
           let s3Key := extractS3Key S3_CDN_URL (Some (contentUrl blog)) in
           if negb (Js.truthy_opt s3Key)
           then respond 500 false (Some "Invalid content URL format") NoData
           else
             s3Response <~ send (GetObjectCommand (default "" s3Key)) ;;
             let htmlContent := body_text s3Response in
             presignedCoverUrl <~
               (if Js.truthy_opt (coverImageUrl blog) then
                  let coverKey := extractS3Key S3_CDN_URL (coverImageUrl blog) in
                  if Js.truthy_opt coverKey
                  then (u <~ generatePresignedUrl S3_BUCKET S3_CDN_URL getSignedUrl
                               coverKey 3600 ;;
                        ret (Some u))
                  else ret (coverImageUrl blog)
                else ret (coverImageUrl blog)) ;;
             respond 200 true None
               (Content {| view_id := id blog;
                           view_title := title blog;
                           view_tags := tags blog;
                           view_coverImageUrl := presignedCoverUrl;
                           view_readTime := readTime blog;
                           view_views := views blog + 1;
                           view_likes := likes blog;
                           view_createdAt := createdAt blog;
                           view_updatedAt := updatedAt blog;
                           view_content := htmlContent |})
     end)
    (λ error,
       logger (LogError ("Get blog content error: " +:+ err_message error)) ;;;
       respond 500 false (Some "Failed to fetch blog content") NoData).

Definition getBlogById (blogId : Z) : M Response :=
  try_catch
    (found <~ prisma.findUnique_id blogId ;;
     match found with
     | None => not_found
     | Some blog =>
         if bool_decide (deletedAt blog ≠ None) then not_found
         else
           detached (prisma.update (id blog) views_plus_one)
             (λ err, logger (LogError ("Failed to increment views: "
                                       +:+ err_message err))) ;;;
           respond 200 true None (OneBlog blog)
     end)
    (λ error,
       logger (LogError ("Get blog error: " +:+ err_message error)) ;;;
       respond 500 false (Some "Failed to fetch blog") NoData).

(** The soft delete. *)
Definition deleteBlog (blogId : Z) : M Response :=
  try_catch
    (found <~ prisma.findUnique_id blogId ;;
     match found with
     | None => not_found
     | Some blog =>
         if bool_decide (deletedAt blog ≠ None) then not_found
         else
           date <~ now ;;
           prisma.update blogId
             {| upd_title := None; upd_slug := None; upd_authorId := None;
                upd_summary := None; upd_tags := None; upd_contentUrl := None;
                upd_coverImageUrl := None; upd_readTime := None;
                upd_status := None; upd_views := None; upd_likes := None;
                upd_deletedAt := Some (Some date) |} ;;;
           respond 200 true (Some "Blog deleted successfully") NoData
     end)
    (λ error,
       logger (LogError ("Delete blog error: " +:+ err_message error)) ;;;
       respond 500 false (Some "Failed to delete blog") NoData).

(** The body of the [map] of the feeds: both locators signed, or both
    [null] when signing one of them throws.  The log keeps the text of the
    warning, not its second argument. *)
Definition with_presigned_urls (blog : Blog) : M FeedItem :=
  try_catch
    (c <~ (if Js.truthy (contentUrl blog)
           then (u <~ generatePresignedUrl S3_BUCKET S3_CDN_URL getSignedUrl
                        (Some (contentUrl blog)) 3600 ;;
                 ret (Some u))
           else ret None) ;;
     v <~ (if Js.truthy_opt (coverImageUrl blog)
           then (u <~ generatePresignedUrl S3_BUCKET S3_CDN_URL getSignedUrl
                        (coverImageUrl blog) 3600 ;;
                 ret (Some u))
           else ret None) ;;
     ret {| item_blog := blog; item_contentUrl := c; item_coverImageUrl := v |})
    (λ error,
       logger (LogWarn ("Failed to generate URLs for blog "
                        +:+ pretty (id blog) +:+ ":")) ;;;
       ret {| item_blog := blog; item_contentUrl := None;
              item_coverImageUrl := None |}).

Definition feed_answer (c : Z) (ok : bool) (msg : option string)
    (items : list FeedItem) : M FeedResponse :=
  ret {| feed_code := c; feed_success := ok; feed_message := msg;
         feed_data := items; feed_count := Z.of_nat (length items) |}.

(** [limit] holds what [parseInt(req.query.limit)] returns. *)
Definition getLatestBlogs (limit_ : option Z) : M FeedResponse :=
  try_catch
    (let limit := int_or limit_ 5 in
     if (limit <? 1) || (50 <? limit)
     then feed_answer 400 false (Some "Limit must be between 1 and 50") []
     else
       logger (LogInfo "Latest blogs request") ;;;
       latestBlogs <~ prisma.findMany_top contains [DeletedAtNull]
                        prisma.CreatedAtDesc limit ;;
       blogsWithUrls <~ map_async with_presigned_urls latestBlogs ;;
       logger (LogInfo "Latest blogs retrieved") ;;;
       feed_answer 200 true None blogsWithUrls)
    (λ error,
       logger (LogError ("Get latest blogs error: " +:+ err_message error)) ;;;
       feed_answer 500 false (Some "Failed to fetch latest blogs") []).

Definition getPopularBlogs (limit_ : option Z) : M FeedResponse :=
  try_catch
    (let limit := int_or limit_ 5 in
     if (limit <? 1) || (50 <? limit)
     then feed_answer 400 false (Some "Limit must be between 1 and 50") []
     else
       logger (LogInfo "Popular blogs request") ;;;
       popularBlogs <~ prisma.findMany_top contains [DeletedAtNull]
                         prisma.ViewsDesc limit ;;
       blogsWithUrls <~ map_async with_presigned_urls popularBlogs ;;
       logger (LogInfo "Popular blogs retrieved") ;;;
       feed_answer 200 true None blogsWithUrls)
    (λ error,
       logger (LogError ("Get popular blogs error: " +:+ err_message error)) ;;;
       feed_answer 500 false (Some "Failed to fetch popular blogs") []).

End Controller.

End IdKeyed.

(** ** The controller keyed by the slug *)

Module SlugKeyed.

(** The body and files of a create request.  [create_authorId] and
    [create_readTime] hold the parsed integers of truthy fields;
    [create_status] is [None] when the field is undefined. *)
Record CreateRequest := {
  create_title : string;
  create_slug : string;
  create_authorId : option Z;
  create_summary : option string;
  create_tags : option TagsField;
  create_readTime : option Z;
  create_status : option string;
  create_content : UploadedFile;
  create_cover : option UploadedFile;
}.

(** The body and files of an update request.  [update_authorId] and
    [update_readTime] are [None] when the field is undefined, [Some None]
    when it is falsy and [Some (Some n)] when [parseInt] gives [n];
    [update_views] and [update_likes] hold the parsed integers. *)
Record UpdateRequest := {
  params_id : Z;
  update_title : option string;
  update_slug : option string;
  update_authorId : option (option Z);
  update_summary : option string;
  update_tags : option TagsField;
  update_readTime : option (option Z);
  update_status : option string;
  update_views : option Z;
  update_likes : option Z;
  files : option Files;
}.

Section Controller.

Variable S3_BUCKET : string.
Variable S3_CDN_URL : option string.
Variable extname : string → string.
Variable getSignedUrl : string → string → Z → JsError + string.
Variable sanitizeHTMLToBuffer : Buffer → JsError + Buffer.

(** The warnings of [validateHTMLStructure]. *)
Variable validateHTMLStructure : Buffer → list string.

Variable JSON_parse : string → JsError + option (list string).

(** [String.prototype.trim]. *)
Variable trim : string → string.

Variable contains : string → string → bool.

Definition not_found : M Response :=
  respond 404 false (Some "Blog not found") NoData.

Definition getBlogs (q : ListQuery) : M Response :=
  try_catch
    (let page := int_or (query_page q) 1 in
     let limit := int_or (query_limit q) 20 in
     let offset := (page - 1) * limit in
     let search := query_search q in
     let status := Js.or_else (query_status q) "published" in
     let tags := query_tags q in
     let where_ :=
       [DeletedAtNull; StatusIs status]
       ++ (if bool_decide (0 < length tags)%nat then [TagsHasSome tags] else [])
       ++ (if Js.truthy_opt search
           then [AnyOf [TitleContains (default "" search);
                        SummaryContains (default "" search)]]
           else []) in
     blogs <~ prisma.findMany contains where_ offset limit ;;
     total <~ prisma.count contains where_ ;;
     respond 200 true None (Page blogs total page limit))
    (λ error,
       logger (LogError ("Get blogs error: " +:+ err_message error)) ;;;
       respond 500 false (Some "Failed to fetch blogs") NoData).

Definition getBlogBySlug (slug : string) : M Response :=
  try_catch
    (found <~ prisma.findUnique_slug slug ;;
     match found with
     | None => not_found
     | Some blog =>
         if bool_decide (deletedAt blog ≠ None) then not_found
         else
           detached (prisma.update (id blog) views_plus_one)
             (λ err, logger (LogError ("Failed to increment views: "
                                       +:+ err_message err))) ;;;
           respond 200 true None (OneBlog blog)
     end)
    (λ error,
       logger (LogError ("Get blog error: " +:+ err_message error)) ;;;
       respond 500 false (Some "Failed to fetch blog") NoData).

Definition createBlog (req : CreateRequest) : M Response :=
  try_catch
    (let slug := create_slug req in
     let status := default "draft" (create_status req) in
     existingBlog <~ prisma.findUnique_slug slug ;;
     match existingBlog with
     | Some _ =>
         respond 409 false (Some "A blog with this slug already exists") NoData
     | None =>
         let contentFile := create_content req in
         let coverFile := create_cover req in
         logger (LogInfo ("Sanitizing HTML content for blog: " +:+ slug)) ;;;
         sanitizedBuffer <~ lift (sanitizeHTMLToBuffer (buffer contentFile)) ;;
         let warnings := validateHTMLStructure sanitizedBuffer in
         (if bool_decide (0 < length warnings)%nat
          then logger (LogWarn ("HTML validation warnings for " +:+ slug +:+ ": "
                                +:+ String.concat ", " warnings))
          else ret ()) ;;;
         contentUrl <~ uploadBlogContent S3_BUCKET sanitizedBuffer slug
                         (mimetype contentFile) None ;;
         coverImageUrl <~
           match coverFile with
           | Some f =>
               u <~ uploadBlogCoverImage S3_BUCKET extname (buffer f) slug
                      (originalname f) (Some (mimetype f)) ;;
               ret (Some u)
           | None => ret None
           end ;;
         parsedTags <~
           match create_tags req with
           | Some (TagsText s) =>
               let trimmed := trim s in
               if Js.truthy s && Js.truthy trimmed then
                 match JSON_parse trimmed with
                 | inr (Some l) => ret l
                 | inr None => ret []
                 | inl e =>
                     logger (LogWarn ("Failed to parse tags, using empty array: "
                                      +:+ err_message e)) ;;;
                     ret []
                 end
               else ret []
           | Some (TagsArray l) => ret l
           | None => ret []
           end ;;
         blog <~ prisma.create
                   {| prisma.new_title := create_title req;
                      prisma.new_slug := slug;
                      prisma.new_authorId := create_authorId req;
                      prisma.new_summary :=
                        if Js.truthy_opt (create_summary req)
                        then create_summary req else None;
                      prisma.new_tags := parsedTags;
                      prisma.new_contentUrl := contentUrl;
                      prisma.new_coverImageUrl := coverImageUrl;
                      prisma.new_readTime := create_readTime req;
                      prisma.new_status := status |} ;;
         respond 201 true (Some "Blog created successfully") (OneBlog blog)
     end)
    (λ error,
       logger (LogError ("Create blog error: " +:+ err_message error)) ;;;
       respond 500 false (Some "Failed to create blog") NoData).

Definition getBlogContent (slugParam : string) : M Response :=
  try_catch
    (found <~ prisma.findUnique_slug slugParam ;;
     match found with
     | None => not_found
     | Some blog =>
         if bool_decide (deletedAt blog ≠ None) then not_found
         else
           detached (prisma.update (id blog) views_plus_one)
             (λ err, logger (LogError ("Failed to increment views: "
                                       +:+ err_message err))) ;;;
           let s3Key := extractS3Key S3_CDN_URL (Some (contentUrl blog)) in
           if negb (Js.truthy_opt s3Key)
           then respond 500 false (Some "Invalid content URL format") NoData
           else
             s3Response <~ send (GetObjectCommand (default "" s3Key)) ;;
             let htmlContent := body_text s3Response in
             presignedCoverUrl <~
               (if Js.truthy_opt (coverImageUrl blog) then
                  let coverKey := extractS3Key S3_CDN_URL (coverImageUrl blog) in
                  if Js.truthy_opt coverKey
                  then (u <~ generatePresignedUrl S3_BUCKET S3_CDN_URL getSignedUrl
                               coverKey 3600 ;;
                        ret (Some u))
                  else ret (coverImageUrl blog)
                else ret (coverImageUrl blog)) ;;
             respond 200 true None
               (ContentOf (slug blog) (authorId blog) (summary blog)
                  (status blog)
                  {| view_id := id blog;
                     view_title := title blog;
                     view_tags := tags blog;
                     view_coverImageUrl := presignedCoverUrl;
                     view_readTime := readTime blog;
                     view_views := views blog + 1;
                     view_likes := likes blog;
                     view_createdAt := createdAt blog;
                     view_updatedAt := updatedAt blog;
                     view_content := htmlContent |})
     end)
    (λ error,
       logger (LogError ("Get blog content error: " +:+ err_message error)) ;;;
       respond 500 false (Some "Failed to fetch blog content") NoData).

Definition keep_truthy (x : option string) : option string :=
  if Js.truthy_opt x then x else None.

Definition updateBlog (req : UpdateRequest) : M Response :=
  try_catch
    (let blogId := params_id req in
     let slug_ := update_slug req in
     existingBlog <~ prisma.findUnique_id blogId ;;
     match existingBlog with
     | None => not_found
     | Some existing =>
         if bool_decide (deletedAt existing ≠ None) then not_found
         else
           slugExists <~
             (if Js.truthy_opt slug_
                 && negb (String.eqb (default "" slug_) (slug existing))
              then prisma.findUnique_slug (default "" slug_)
              else ret None) ;;
           match slugExists with
           | Some _ =>
               respond 409 false (Some "A blog with this slug already exists")
                 NoData
           | None =>
               parsedTags <~
                 match update_tags req with
                 | Some (TagsText s) =>
                     if Js.truthy s
                     then (v <~ lift (JSON_parse s) ;; ret (Some v))
                     else ret None
                 | Some (TagsArray l) => ret (Some (Some l))
                 | None => ret None
                 end ;;
               let targetSlug := Js.or_else slug_ (slug existing) in
               newContentUrl <~
                 match files req with
                 | Some fs =>
                     match content fs with
                     | Some contentFile =>
                         logger (LogInfo ("Sanitizing updated HTML content for blog: "
                                          +:+ targetSlug)) ;;;
                         sanitizedBuffer <~
                           lift (sanitizeHTMLToBuffer (buffer contentFile)) ;;
                         url <~ replaceBlogContent S3_BUCKET S3_CDN_URL
                                  (Some (contentUrl existing)) sanitizedBuffer
                                  targetSlug (mimetype contentFile) None ;;
                         ret (Some url)
                     | None => ret None
                     end
                 | None => ret None
                 end ;;
               newCoverUrl <~
                 match files req with
                 | Some fs =>
                     match cover fs with
                     | Some coverFile =>
                         url <~ replaceBlogCoverImage S3_BUCKET S3_CDN_URL extname
                                  (coverImageUrl existing) (buffer coverFile)
                                  targetSlug (originalname coverFile)
                                  (Some (mimetype coverFile)) ;;
                         ret (Some (Some url))
                     | None => ret None
                     end
                 | None => ret None
                 end ;;
               let updateData :=
                 {| upd_title := keep_truthy (update_title req);
                    upd_slug := keep_truthy slug_;
                    upd_authorId := update_authorId req;
                    upd_summary :=
                      match update_summary req with
                      | Some t => Some (keep_truthy (Some t))
                      | None => None
                      end;
                    upd_tags := parsedTags;
                    upd_contentUrl := newContentUrl;
                    upd_coverImageUrl := newCoverUrl;
                    upd_readTime := update_readTime req;
                    upd_status := keep_truthy (update_status req);
                    upd_views := SetInt <$> update_views req;
                    upd_likes := SetInt <$> update_likes req;
                    upd_deletedAt := None |} in
               updatedBlog <~ prisma.update blogId updateData ;;
               respond 200 true (Some "Blog updated successfully")
                 (OneBlog updatedBlog)
           end
     end)
    (λ error,
       logger (LogError ("Update blog error: " +:+ err_message error)) ;;;
       respond 500 false (Some "Failed to update blog") NoData).

(** The soft delete. *)
Definition deleteBlog (blogId : Z) : M Response :=
  try_catch
    (found <~ prisma.findUnique_id blogId ;;
     match found with
     | None => not_found
     | Some blog =>
         if bool_decide (deletedAt blog ≠ None) then not_found
         else
           date <~ now ;;
           prisma.update blogId
             {| upd_title := None; upd_slug := None; upd_authorId := None;
                upd_summary := None; upd_tags := None; upd_contentUrl := None;
                upd_coverImageUrl := None; upd_readTime := None;
                upd_status := None; upd_views := None; upd_likes := None;
                upd_deletedAt := Some (Some date) |} ;;;
           respond 200 true (Some "Blog deleted successfully") NoData
     end)
    (λ error,
       logger (LogError ("Delete blog error: " +:+ err_message error)) ;;;
       respond 500 false (Some "Failed to delete blog") NoData).

Definition permanentDeleteBlog (blogId : Z) : M Response :=
  try_catch
    (found <~ prisma.findUnique_id blogId ;;
     match found with
     | None => not_found
     | Some blog =>
         deleteBlogFiles S3_CDN_URL (slug blog) None None ;;;
         prisma.delete blogId ;;;
         respond 200 true (Some "Blog permanently deleted") NoData
     end)
    (λ error,
       logger (LogError ("Permanent delete blog error: " +:+ err_message error)) ;;;
       respond 500 false (Some "Failed to permanently delete blog") NoData).

Definition with_presigned_urls (blog : Blog) : M FeedItem :=
  try_catch
    (c <~ (if Js.truthy (contentUrl blog)
           then (u <~ generatePresignedUrl S3_BUCKET S3_CDN_URL getSignedUrl
                        (Some (contentUrl blog)) 3600 ;;
                 ret (Some u))
           else ret None) ;;
     v <~ (if Js.truthy_opt (coverImageUrl blog)
           then (u <~ generatePresignedUrl S3_BUCKET S3_CDN_URL getSignedUrl
                        (coverImageUrl blog) 3600 ;;
                 ret (Some u))
           else ret None) ;;
     ret {| item_blog := blog; item_contentUrl := c; item_coverImageUrl := v |})
    (λ error,
       logger (LogWarn ("Failed to generate URLs for blog "
                        +:+ pretty (id blog) +:+ ":")) ;;;
       ret {| item_blog := blog; item_contentUrl := None;
              item_coverImageUrl := None |}).

Definition feed_answer (c : Z) (ok : bool) (msg : option string)
    (items : list FeedItem) : M FeedResponse :=
  ret {| feed_code := c; feed_success := ok; feed_message := msg;
         feed_data := items; feed_count := Z.of_nat (length items) |}.

Definition getLatestBlogs (limit_ : option Z) : M FeedResponse :=
  try_catch
    (let limit := int_or limit_ 10 in
     if (limit <? 1) || (50 <? limit)
     then feed_answer 400 false (Some "Limit must be between 1 and 50") []
     else
       logger (LogInfo "Latest blogs request") ;;;
       latestBlogs <~ prisma.findMany_top contains
                        [StatusIs "published"; DeletedAtNull]
                        prisma.CreatedAtDesc limit ;;
       blogsWithUrls <~ map_async with_presigned_urls latestBlogs ;;
       logger (LogInfo "Latest blogs retrieved") ;;;
       feed_answer 200 true None blogsWithUrls)
    (λ error,
       logger (LogError ("Get latest blogs error: " +:+ err_message error)) ;;;
       feed_answer 500 false (Some "Failed to fetch latest blogs") []).

Definition getPopularBlogs (limit_ : option Z) : M FeedResponse :=
  try_catch
    (let limit := int_or limit_ 10 in
     if (limit <? 1) || (50 <? limit)
     then feed_answer 400 false (Some "Limit must be between 1 and 50") []
     else
       logger (LogInfo "Popular blogs request") ;;;
       popularBlogs <~ prisma.findMany_top contains
                         [StatusIs "published"; DeletedAtNull]
                         prisma.ViewsDesc limit ;;
       blogsWithUrls <~ map_async with_presigned_urls popularBlogs ;;
       logger (LogInfo "Popular blogs retrieved") ;;;
       feed_answer 200 true None blogsWithUrls)
    (λ error,
       logger (LogError ("Get popular blogs error: " +:+ err_message error)) ;;;
       feed_answer 500 false (Some "Failed to fetch popular blogs") []).

End Controller.

End SlugKeyed.

(** ** Collaborators and worlds for closed examples *)

(** The characters of [s] before the first one that satisfies [f], and the
    rest of [s] from that character on. *)
Fixpoint break_at (f : ascii → bool) (s : string) : string * string :=
  match s with
  | EmptyString => (EmptyString, EmptyString)
  | String c s' =>
      if f c then (EmptyString, s)
      else let '(h, t) := break_at f s' in (String c h, t)
  end.

Fixpoint drop_while (f : ascii → bool) (s : string) : string :=
  match s with
  | EmptyString => EmptyString
  | String c s' => if f c then drop_while f s' else s
  end.

(** [path.extname] on POSIX paths as the Node documentation describes it:
    the part of the last path segment from its last dot on; empty when the
    segment has no dot, when its only dot is its first character, and for
    the segment [..]. *)
Definition posix_extname (p : string) : string :=
  let reversed := drop_while Js.is_slash (String.rev p) in
  let '(segment, _) := break_at Js.is_slash reversed in
  let '(ext, before) := break_at (λ c, Ascii.eqb c ".") segment in
  match before with
  | EmptyString => ""
  | String _ EmptyString => ""
  | String _ _ =>
      if String.eqb segment ".." then "" else String.rev (ext +:+ ".")
  end.

Definition identity_sanitizer (b : Buffer) : JsError + Buffer := inr b.

Definition no_warnings (b : Buffer) : list string := [].

Definition sample_signer (bucket_ key : string) (ttl : Z) : JsError + string :=
  inr ("https://" +:+ bucket_ +:+ ".s3.amazonaws.com/" +:+ key
       +:+ "?X-Amz-Expires=" +:+ pretty ttl).

Definition no_trim (s : string) : string := s.

Definition no_json (s : string) : JsError + option (list string) := inr None.

Definition empty_world : World :=
  {| bucket := ∅; s3_faults := []; s3_sent := []; blogs := []; next_id := 1;
     clock := 0; db_faults := []; log := [] |}.

(** A row as the creation code leaves it for a content file of type
    [text/html]. *)
Definition sample_blog : Blog :=
  {| id := 1; title := "A guide"; slug := "a-guide"; authorId := None;
     summary := None; tags := []; 
     contentUrl := "s3://beyondmoksha.com/blogs/1/text/html";
     coverImageUrl := None; readTime := None; views := 0; likes := 0;
     status := "published"; createdAt := 0; updatedAt := 0;
     deletedAt := None |}.

Definition sample_world : World :=
  {| bucket := {[ "blogs/1/text/html" :=
                    {| Body := "<p>old</p>"; ContentType := None |} ]};
     s3_faults := []; s3_sent := []; blogs := [sample_blog]; next_id := 2;
     clock := 5; db_faults := []; log := [] |}.

(** The sample world when the transport rejects the first three sends. *)
Definition faulty_world : World :=
  with_s3 (bucket sample_world)
    [Some (Error "socket hang up"); Some (Error "socket hang up");
     Some (Error "socket hang up")] [] sample_world.

(** An update of blog 1 that supplies [guide.htm] of type [text/html] as the
    new content file. *)
Definition sample_update : IdKeyed.UpdateRequest :=
  {| IdKeyed.params_id := 1;
     IdKeyed.update_title := None;
     IdKeyed.update_tags := None;
     IdKeyed.update_readTime := None;
     IdKeyed.update_views := None;
     IdKeyed.update_likes := None;
     IdKeyed.files :=
       Some {| content := Some {| originalname := "guide.htm";
                                  mimetype := "text/html";
                                  buffer := "<p>new</p>" |};
               cover := None |} |}.

(** The sample row after a soft delete, and a world that holds only it. *)
Definition deleted_blog : Blog :=
  {| id := 1; title := "A guide"; slug := "a-guide"; authorId := None;
     summary := None; tags := [];
     contentUrl := "s3://beyondmoksha.com/blogs/1/text/html";
     coverImageUrl := None; readTime := None; views := 0; likes := 0;
     status := "published"; createdAt := 0; updatedAt := 3;
     deletedAt := Some 3 |}.

Definition world_of_deleted : World :=
  with_db [deleted_blog] 2 [] sample_world.

(** A create request that asks for the slug of the sample row. *)
Definition sample_create : SlugKeyed.CreateRequest :=
  {| SlugKeyed.create_title := "Another guide";
     SlugKeyed.create_slug := "a-guide";
     SlugKeyed.create_authorId := None;
     SlugKeyed.create_summary := None;
     SlugKeyed.create_tags := None;
     SlugKeyed.create_readTime := None;
     SlugKeyed.create_status := None;
     SlugKeyed.create_content :=
       {| originalname := "guide.docx";
          mimetype := "application/vnd.openxmlformats-officedocument.wordprocessingml.document";
          buffer := "<p>text</p>" |};
     SlugKeyed.create_cover := None |}.

(** A draft that is not deleted, and a world that holds only it. *)
Definition draft_blog : Blog :=
  {| id := 2; title := "Notes"; slug := "notes"; authorId := None;
     summary := None; tags := [];
     contentUrl := "s3://beyondmoksha.com/blogs/2/text/html";
     coverImageUrl := None; readTime := None; views := 0; likes := 0;
     status := "draft"; createdAt := 1; updatedAt := 1; deletedAt := None |}.

Definition draft_world : World :=
  with_db [draft_blog] 3 [] sample_world.

(** A list request without any parameter. *)
Definition plain_query : ListQuery :=
  {| query_page := None; query_limit := None; query_search := None;
     query_status := None; query_tags := [] |}.

(** ** Vocabulary of the statements *)

(** The transport lets the next call through. *)
Definition goes_through (faults : list (option JsError)) : bool :=
  match head faults with
  | Some (Some _) => false
  | _ => true
  end.

(** The view count a response payload shows. *)
Definition reported_views (d : Payload) : option Z :=
  match d with
  | OneBlog b => Some (views b)
  | Content v => Some (view_views v)
  | ContentOf _ _ _ _ v => Some (view_views v)
  | _ => None
  end.


(** [c] leaves the table and the state of the database client alone. *)
Definition keeps_table {A} (c : M A) : Prop :=
  ∀ w, blogs (c w).2 = blogs w
       ∧ next_id (c w).2 = next_id w
       ∧ db_faults (c w).2 = db_faults w.

(** The status code a handler answers with, if it answers. *)
Definition answered (r : JsError + Response) : option Z :=
  match r with
  | inr x => Some (code x)
  | inl _ => None
  end.

(** [c] returns on every world: it never throws. *)
Definition never_throws {A} (c : M A) : Prop :=
  ∀ w, ∃ a w', c w = (inr a, w').

(** The keys the cleanup falls back to when it is given no locator. *)
Definition legacy_content_keys (blogId : string) : list string :=
  [ "blogs/" +:+ blogId +:+ "/content.html";
    "blogs/" +:+ blogId +:+ "/content.md";
    "blogs/" +:+ blogId +:+ "/content.docx" ].

Definition legacy_cover_keys (blogId : string) : list string :=
  (λ ext, "blogs/" +:+ blogId +:+ "/cover" +:+ ext)
    <$> [".jpg"; ".jpeg"; ".png"; ".webp"; ".gif"; ".svg"].

(** The key a slot's locator resolves to, if any. *)
Definition resolved_key (cdn : option string) (url : option string)
    : list string :=
  match extractKeyFromUrl cdn url with
  | Some k => if Js.truthy k then [k] else []
  | None => []
  end.

(** The keys [deleteBlogFiles] goes after. *)
Definition cleanup_targets (cdn : option string) (blogId : string)
    (contentUrl coverImageUrl : option string) : list string :=
  (if Js.truthy_opt contentUrl then resolved_key cdn contentUrl
   else legacy_content_keys blogId)
  ++ (if Js.truthy_opt coverImageUrl then resolved_key cdn coverImageUrl
      else legacy_cover_keys blogId).

(** What [c] may do to the bucket: every key is left as it was, or is among
    [gone] and absent afterwards, or is among [put] and present
    afterwards. *)
Definition touches {A} (gone put : list string) (c : M A) : Prop :=
  ∀ w k,
    bucket (c w).2 !! k = bucket w !! k
    ∨ (k ∈ gone ∧ bucket (c w).2 !! k = None)
    ∨ (k ∈ put ∧ is_Some (bucket (c w).2 !! k)).

(** From [w] to [w'] the bucket lost exactly the keys of [keys]. *)
Definition removed (keys : list string) (w w' : World) : Prop :=
  ∀ k, bucket w' !! k
       = if bool_decide (k ∈ keys) then None else bucket w !! k.

(** A continuation that returns and leaves the store alone. *)
Definition quiet (then_ : string → M unit) : Prop :=
  ∀ k w, ∃ w', then_ k w = (inr (), w')
               ∧ bucket w' = bucket w ∧ s3_faults w' = s3_faults w.

(** The request carries neither a content file nor a cover file. *)
Definition no_file (fs : option Files) : bool :=
  match fs with
  | None => true
  | Some f =>
      match content f, cover f with
      | None, None => true
      | _, _ => false
      end
  end.

(** The row a handler that looks a blog up by id goes on with: the first
    row with the id, unless it is soft-deleted. *)
Definition visible_by_id (i : Z) (w : World) : option Blog :=
  match find (prisma.has_id i) (blogs w) with
  | Some b => if bool_decide (deletedAt b ≠ None) then None else Some b
  | None => None
  end.

Definition visible_by_slug (s : string) (w : World) : option Blog :=
  match find (prisma.has_slug s) (blogs w) with
  | Some b => if bool_decide (deletedAt b ≠ None) then None else Some b
  | None => None
  end.

(** The answer [404 Blog not found]. *)
Definition answer_404 : Response :=
  {| code := 404; success := false; message := Some "Blog not found";
     data := NoData |}.

(** A row after its soft delete at [date]. *)
Definition soft_deleted (date : Z) (b : Blog) : Blog :=
  {| id := id b; title := title b; slug := slug b; authorId := authorId b;
     summary := summary b; tags := tags b; contentUrl := contentUrl b;
     coverImageUrl := coverImageUrl b; readTime := readTime b;
     views := views b; likes := likes b; status := status b;
     createdAt := createdAt b; updatedAt := date; deletedAt := Some date |}.

(** The document a content answer carries. *)
Definition shown_content (d : Payload) : option string :=
  match d with
  | Content v => Some (view_content v)
  | ContentOf _ _ _ _ v => Some (view_content v)
  | _ => None
  end.

(** The row a response carries. *)
Definition shown_blog (d : Payload) : option Blog :=
  match d with
  | OneBlog b => Some b
  | _ => None
  end.

(** [c] leaves the rows of the table alone. *)
Definition keeps_rows {A} (c : M A) : Prop :=
  ∀ w, blogs (c w).2 = blogs w.

(** What a handler that may insert does to the table between [w] and [w']
    when it ends with [r]: an answer 201 shows a row and that row was
    appended; any other end left the rows as they were. *)
Definition table_after (r : JsError + Response) (w w' : World) : Prop :=
  match r with
  | inr x =>
      if code x =? 201
      then ∃ b, data x = OneBlog b ∧ blogs w' = blogs w ++ [b]
      else blogs w' = blogs w
  | inl _ => blogs w' = blogs w
  end.

Definition adds_shown_row (c : M Response) : Prop :=
  ∀ w, table_after (c w).1 w (c w).2.

(** The row is published and not soft-deleted. *)
Definition published (b : Blog) : bool :=
  String.eqb (status b) "published" && bool_decide (deletedAt b = None).

(** The row is not soft-deleted. *)
Definition not_deleted (b : Blog) : bool := bool_decide (deletedAt b = None).

(** [r] is a feed of the rows of [w] that [shown] accepts, ordered by
    [order] and cut at [limit]: it answers 200 with as many items as the
    limit and the table allow and counts them; the rows of its items are in
    the order, are rows of the table that [shown] accepts, and an item
    carries no URL but one that [signer] issued for some key. *)
Definition feed_of (order : relation Blog) (shown : Blog → bool)
    (signer : string → JsError + string) (limit : Z) (w : World)
    (r : FeedResponse) : Prop :=
  feed_code r = 200
  ∧ feed_count r = Z.of_nat (length (feed_data r))
  ∧ length (feed_data r)
    = (Z.to_nat limit `min` length (List.filter shown (blogs w)))%nat
  ∧ StronglySorted order (item_blog <$> feed_data r)
  ∧ ∀ it, it ∈ feed_data r →
      item_blog it ∈ blogs w
      ∧ shown (item_blog it) = true
      ∧ ∀ u, item_contentUrl it = Some u ∨ item_coverImageUrl it = Some u →
             ∃ key, signer key = inr u.

(** The limit a feed rejects: a number other than 0 outside 1..50. *)
Definition limit_out_of_range (limit_ : option Z) : bool :=
  match limit_ with
  | Some z => negb (z =? 0) && ((z <? 1) || (50 <? z))
  | None => false
  end.

(** [feed] answers on every world; it answers 400 with no item and leaves
    the world as it is when the limit is out of range, and 200 or 500
    otherwise. *)
Definition guards_limit (limit_ : option Z) (feed : M FeedResponse) : Prop :=
  ∀ w, ∃ r w',
    feed w = (inr r, w')
    ∧ (if limit_out_of_range limit_
       then r = {| feed_code := 400; feed_success := false;
                   feed_message := Some "Limit must be between 1 and 50";
                   feed_data := []; feed_count := 0 |}
            ∧ w' = w
       else feed_code r = 200 ∨ feed_code r = 500).

(** An answer 200 of [c] shows a row with the locators of the row that the
    id [i] found in the table before [c] ran. *)
Definition keeps_locators (i : Z) (c : M Response) : Prop :=
  ∀ w, match (c w).1 with
       | inr r =>
           code r = 200 →
           ∃ b0 b, find (prisma.has_id i) (blogs w) = Some b0
                   ∧ data r = OneBlog b
                   ∧ contentUrl b = contentUrl b0
                   ∧ coverImageUrl b = coverImageUrl b0
       | inl _ => True
       end.

(** [c] sends nothing to the store. *)
Definition keeps_store {A} (c : M A) : Prop :=
  ∀ w, bucket (c w).2 = bucket w
       ∧ s3_sent (c w).2 = s3_sent w
       ∧ s3_faults (c w).2 = s3_faults w.

(** The sample world when the store lets the existence check through and
    rejects the deletion. *)
Definition world_rejecting_delete : World :=
  with_s3 (bucket sample_world) [None; Some (Error "Access Denied")] []
    sample_world.

(** * Properties *)

(** ** String primitives *)

Lemma append_cons a (s t : string) : String a s +:+ t = String a (s +:+ t).
Proof. reflexivity. Qed.

Lemma stripPrefix_app p r : Js.stripPrefix p (p +:+ r) = Some r.
Proof.
  induction p as [|a p IH]; simpl; [done|].
  by rewrite Ascii.eqb_refl.
Qed.

Lemma stripPrefix_Some p s r : Js.stripPrefix p s = Some r → s = p +:+ r.
Proof.
  revert s. induction p as [|a p IH]; intros s; simpl.
  - by intros [= ->].
  - destruct s as [|b s]; [done|].
    destruct (Ascii.eqb a b) eqn:E; [|done].
    apply Ascii.eqb_eq in E as ->. intros H. by rewrite (IH _ H).
Qed.

Lemma startsWith_app p r : Js.startsWith (p +:+ r) p = true.
Proof. unfold Js.startsWith. by rewrite stripPrefix_app. Qed.

Lemma replaceFirst_unfold pat rep s :
  Js.replaceFirst pat rep s =
    match Js.stripPrefix pat s with
    | Some rest => rep +:+ rest
    | None =>
        match s with
        | EmptyString => EmptyString
        | String c s' => String c (Js.replaceFirst pat rep s')
        end
    end.
Proof. by destruct s. Qed.

Lemma replaceFirst_at_start pat r : Js.replaceFirst pat "" (pat +:+ r) = r.
Proof. by rewrite replaceFirst_unfold, stripPrefix_app. Qed.

Lemma match_amazonaws_unfold s :
  Js.match_amazonaws s =
    let next :=
      match s with
      | EmptyString => None
      | String _ s' => Js.match_amazonaws s'
      end in
    match Js.stripPrefix ".amazonaws.com/" s with
    | Some rest =>
        if Js.truthy rest
           && Js.forallb_string (λ c, negb (Js.is_line_terminator c)) rest
        then Some rest else next
    | None => next
    end.
Proof. by destruct s. Qed.

Lemma match_amazonaws_skip c s :
  Js.stripPrefix ".amazonaws.com/" (String c s) = None →
  Js.match_amazonaws (String c s) = Js.match_amazonaws s.
Proof. intros H. rewrite match_amazonaws_unfold. cbn zeta. by rewrite H. Qed.

Lemma span_non_slash_app h t :
  slash_free h = true →
  Js.span_non_slash (h +:+ String "/" t) = (h, String "/" t).
Proof.
  unfold slash_free. induction h as [|c h IH]; simpl; [done|].
  intros [Hc Hh]%andb_prop. rewrite (IH Hh).
  by destruct (Js.is_slash c).
Qed.

Lemma length_app_string (a b : string) :
  String.length (a +:+ b) = (String.length a + String.length b)%nat.
Proof. induction a as [|x a IH]; [done|]. rewrite append_cons. simpl. by rewrite IH. Qed.

Lemma app_assoc_string (a b c : string) : (a +:+ b) +:+ c = a +:+ (b +:+ c).
Proof. induction a as [|x a IH]; [done|]. rewrite !append_cons. by f_equal. Qed.

Lemma replace_s3_authority_canonical b key :
  Js.truthy b = true → slash_free b = true →
  Js.replace_s3_authority ("s3://" +:+ b +:+ "/" +:+ key) = key.
Proof.
  intros Hb Hs. unfold Js.replace_s3_authority.
  rewrite stripPrefix_app.
  change ("/" +:+ key) with (String "/" key).
  rewrite (span_non_slash_app b key Hs).
  by destruct b.
Qed.

(** No occurrence of the provider marker starts inside a host without
    slashes. *)
Lemma match_amazonaws_host h key :
  slash_free h = true → Js.truthy key = true → single_line key = true →
  Js.match_amazonaws (h +:+ ".amazonaws.com/" +:+ key) = Some key.
Proof.
  intros Hh Hk Hl. induction h as [|c h IH].
  - rewrite match_amazonaws_unfold. cbn zeta.
    change ("" +:+ ".amazonaws.com/" +:+ key) with (".amazonaws.com/" +:+ key).
    rewrite stripPrefix_app. unfold single_line in Hl. by rewrite Hk, Hl.
  - rewrite match_amazonaws_unfold. cbn zeta.
    assert (Hh' : slash_free h = true).
    { unfold slash_free in *. simpl in Hh. by apply andb_prop in Hh as [_ ?]. }
    destruct (Js.stripPrefix ".amazonaws.com/" (String c h +:+ ".amazonaws.com/" +:+ key))
      as [rest|] eqn:E.
    + exfalso. apply stripPrefix_Some in E.
      apply (f_equal Js.span_non_slash) in E.
      change (String c h +:+ ".amazonaws.com/" +:+ key)
        with (String c h +:+ ".amazonaws.com" +:+ String "/" key) in E.
      rewrite <- app_assoc_string in E.
      rewrite span_non_slash_app in E.
      * simpl in E. injection E as E1 E2 _.
        apply (f_equal String.length) in E2.
        rewrite length_app_string in E2. simpl in E2. lia.
      * unfold slash_free in *. simpl in Hh. apply andb_prop in Hh as [Hc Hh].
        simpl. rewrite Hc. simpl.
        clear -Hh. induction h as [|x h IH]; simpl; [done|].
        simpl in Hh. apply andb_prop in Hh as [-> Hh]. simpl. auto.
    + simpl. by apply IH.
Qed.

Lemma slash_free_app a b :
  slash_free a = true → slash_free b = true → slash_free (a +:+ b) = true.
Proof.
  unfold slash_free. induction a as [|x a IH]; [done|].
  rewrite append_cons. simpl. intros [-> Ha]%andb_prop Hb. simpl. auto.
Qed.

Lemma match_amazonaws_includes u key :
  Js.match_amazonaws u = Some key → Js.includes u ".amazonaws.com/" = true.
Proof.
  induction u as [|c u IH]; rewrite match_amazonaws_unfold.
  - by cbn.
  - cbn zeta. intros H.
    assert (Js.includes (String c u) ".amazonaws.com/" =
            match Js.stripPrefix ".amazonaws.com/" (String c u) with
            | Some _ => true
            | None => Js.includes u ".amazonaws.com/"
            end) as -> by reflexivity.
    destruct (Js.stripPrefix ".amazonaws.com/" (String c u)); [done|].
    by apply IH.
Qed.

(** ** Key codec *)

Example extractKeyFromUrl_examples :
  extractKeyFromUrl None (Some "s3://bkt/blogs/1/a.html") = Some "blogs/1/a.html"
  ∧ extractKeyFromUrl None
      (Some "https://bkt.s3.ap-south-1.amazonaws.com/blogs/1/a.html")
    = Some "blogs/1/a.html"
  ∧ extractKeyFromUrl (Some "https://cdn.example.com")
      (Some "https://cdn.example.com/blogs/1/a.html")
    = Some "blogs/1/a.html"
  ∧ extractKeyFromUrl None (Some "s3://bkt") = Some "s3://bkt"
  ∧ extractKeyFromUrl None (Some "s3:///a.html") = Some "s3:///a.html"
  ∧ extractKeyFromUrl None (Some "https://bkt.s3.amazonaws.com/") = None
  ∧ extractKeyFromUrl None (Some "placeholder") = None.
Proof. repeat split; reflexivity. Qed.

(** C2.  The key codec round-trips: extracting from the canonical locator
    that [uploadFile] returns for a key gives back that key, and so does
    extracting from the provider HTTPS form and from the CDN form of the
    key.  The bucket name is non-empty and has no slash; for the provider
    form the key is non-empty and on one line and the URL is not claimed by
    the CDN guard; the CDN base is an HTTPS URL. *)
Theorem key_roundtrip_through_locators
    (S3_BUCKET region cdnBase key : string) (cdn : option string) :
  Js.truthy S3_BUCKET = true → slash_free S3_BUCKET = true →
  (∀ fileBuffer contentType w locator w',
     uploadFile S3_BUCKET fileBuffer key contentType w = (inr locator, w') →
     locator = "s3://" +:+ S3_BUCKET +:+ "/" +:+ key
     ∧ extractKeyFromUrl cdn (Some locator) = Some key)
  ∧ (slash_free region = true → Js.truthy key = true → single_line key = true →
     cdn_base_of cdn ("https://" +:+ S3_BUCKET +:+ ".s3." +:+ region
                      +:+ ".amazonaws.com/" +:+ key) = None →
     extractKeyFromUrl cdn (Some ("https://" +:+ S3_BUCKET +:+ ".s3." +:+ region
                                  +:+ ".amazonaws.com/" +:+ key)) = Some key)
  ∧ (Js.startsWith cdnBase "https://" = true →
     extractKeyFromUrl (Some cdnBase) (Some (cdnBase +:+ "/" +:+ key)) = Some key).
Proof.
  intros Hb Hs. split; [|split].
  - intros buf ct w locator w' H.
    assert (locator = "s3://" +:+ S3_BUCKET +:+ "/" +:+ key) as ->.
    { unfold uploadFile, try_catch, bind, send, logger, ret, throw in H.
      destruct (head (s3_faults w)) as [[e|]|]; simpl in H; congruence. }
    split; [done|].
    unfold extractKeyFromUrl.
    change (Js.truthy ("s3://" +:+ S3_BUCKET +:+ "/" +:+ key)) with true.
    rewrite startsWith_app. simpl.
    by rewrite replace_s3_authority_canonical.
  - intros Hr Hk Hl Hcdn. unfold extractKeyFromUrl. rewrite Hcdn.
    change (Js.truthy ("https://" +:+ S3_BUCKET +:+ ".s3." +:+ region
                       +:+ ".amazonaws.com/" +:+ key)) with true.
    change (Js.startsWith ("https://" +:+ S3_BUCKET +:+ ".s3." +:+ region
                           +:+ ".amazonaws.com/" +:+ key) "s3://") with false.
    change (Js.match_amazonaws
              (String "h" (String "t" (String "t" (String "p" (String "s"
                (String ":" (String "/" (String "/"
                  (S3_BUCKET +:+ ".s3." +:+ region +:+ ".amazonaws.com/" +:+ key)))))))))
            = Some key).
    do 8 (rewrite match_amazonaws_skip by reflexivity).
    rewrite <- (app_assoc_string ".s3." region), <- (app_assoc_string S3_BUCKET).
    apply match_amazonaws_host; [|done..].
    apply slash_free_app; [done|]. by apply slash_free_app.
  - intros Hc. unfold Js.startsWith in Hc.
    destruct (Js.stripPrefix "https://" cdnBase) as [r|] eqn:E; [|done].
    apply stripPrefix_Some in E. unfold extractKeyFromUrl, cdn_base_of.
    rewrite startsWith_app.
    assert (Js.truthy cdnBase = true) as -> by by rewrite E.
    assert (Js.truthy (cdnBase +:+ "/" +:+ key) = true) as -> by by rewrite E.
    assert (Js.startsWith (cdnBase +:+ "/" +:+ key) "s3://" = false) as ->
      by by rewrite E.
    simpl. rewrite <- app_assoc_string. by rewrite replaceFirst_at_start.
Qed.

Lemma key_roundtrip_through_locators_witness :
  (uploadFile "beyondmoksha.com" "png" "blogs/7/cover.png" (Some "image/png")
     empty_world).1
  = inr "s3://beyondmoksha.com/blogs/7/cover.png"
  ∧ extractKeyFromUrl (Some "https://cdn.example.com")
      (Some "s3://beyondmoksha.com/blogs/7/cover.png")
    = Some "blogs/7/cover.png"
  ∧ extractKeyFromUrl (Some "https://cdn.example.com")
      (Some "https://beyondmoksha.com.s3.ap-south-1.amazonaws.com/blogs/7/cover.png")
    = Some "blogs/7/cover.png"
  ∧ extractKeyFromUrl (Some "https://cdn.example.com")
      (Some "https://cdn.example.com/blogs/7/cover.png")
    = Some "blogs/7/cover.png".
Proof.
  destruct (key_roundtrip_through_locators "beyondmoksha.com" "ap-south-1"
              "https://cdn.example.com" "blogs/7/cover.png"
              (Some "https://cdn.example.com") eq_refl eq_refl)
    as (H1 & H2 & H3).
  split; [reflexivity|]. split.
  - exact (proj2 (H1 "png" (Some "image/png") empty_world _ _ eq_refl)).
  - split.
    + exact (H2 eq_refl eq_refl eq_refl eq_refl).
    + exact (H3 eq_refl).
Defined.

(** C4.  Key extraction is a total function and yields no key for a null
    locator, for the empty locator, and for every string that does not start
    with [s3://], is not claimed by the CDN guard and does not contain
    [.amazonaws.com/]. *)
Theorem extractKeyFromUrl_no_match (cdn : option string) :
  extractKeyFromUrl cdn None = None
  ∧ extractKeyFromUrl cdn (Some "") = None
  ∧ ∀ u, Js.startsWith u "s3://" = false →
         cdn_base_of cdn u = None →
         Js.includes u ".amazonaws.com/" = false →
         extractKeyFromUrl cdn (Some u) = None.
Proof.
  split; [done|]. split; [done|].
  intros u Hs3 Hcdn Haws. unfold extractKeyFromUrl.
  rewrite Hs3, Hcdn. destruct (Js.truthy u); simpl; [|done].
  destruct (Js.match_amazonaws u) as [k|] eqn:E; [|done].
  apply match_amazonaws_includes in E. congruence.
Qed.

Lemma extractKeyFromUrl_no_match_witness :
  extractKeyFromUrl (Some "https://cdn.example.com") (Some "garbage") = None.
Proof.
  apply (extractKeyFromUrl_no_match (Some "https://cdn.example.com"));
    reflexivity.
Defined.

(** C10.  The extractor of the URL issuer and the extractor of the blob
    adapter agree on every locator, for every configured CDN base. *)
Theorem extractS3Key_agrees_with_extractKeyFromUrl
    (cdn : option string) (url : option string) :
  extractS3Key cdn url = extractKeyFromUrl cdn url.
Proof.
  destruct url as [u|]; [|reflexivity].
  unfold extractS3Key, extractKeyFromUrl.
  destruct (Js.truthy u); simpl; [|reflexivity].
  destruct (Js.startsWith u "s3://"); [reflexivity|].
  destruct (cdn_base_of cdn u); reflexivity.
Qed.

Example posix_extname_examples :
  posix_extname "index.html" = ".html"
  ∧ posix_extname "index.coffee.md" = ".md"
  ∧ posix_extname "index." = "."
  ∧ posix_extname "index" = ""
  ∧ posix_extname ".index" = ""
  ∧ posix_extname ".index.md" = ".md"
  ∧ posix_extname ".." = ""
  ∧ posix_extname "a.b/c" = ""
  ∧ posix_extname "dir/photo.png/" = ".png".
Proof. repeat split; reflexivity. Qed.

(** ** The monad *)

Lemma bind_inr {A B} (c : M A) (k : A → M B) w a w1 :
  c w = (inr a, w1) → bind c k w = k a w1.
Proof. unfold bind. by intros ->. Qed.

Lemma bind_inl {A B} (c : M A) (k : A → M B) w e w1 :
  c w = (inl e, w1) → bind c k w = (inl e, w1).
Proof. unfold bind. by intros ->. Qed.

Lemma try_catch_inr {A} (c : M A) h w a w1 :
  c w = (inr a, w1) → try_catch c h w = (inr a, w1).
Proof. unfold try_catch. by intros ->. Qed.

Lemma try_catch_inl {A} (c : M A) h w e w1 :
  c w = (inl e, w1) → try_catch c h w = h e w1.
Proof. unfold try_catch. by intros ->. Qed.

Lemma keeps_ret {A} (a : A) : keeps_table (ret a).
Proof. by intros w. Qed.

Lemma keeps_throw {A} e : keeps_table (@throw A e).
Proof. by intros w. Qed.

Lemma keeps_logger e : keeps_table (logger e).
Proof. by intros w. Qed.

Lemma keeps_send cmd : keeps_table (send cmd).
Proof.
  intros w. unfold send.
  destruct (head (s3_faults w)) as [[e|]|]; [done| |];
    destruct cmd; simpl; try done; by destruct (bucket w !! _).
Qed.

Lemma keeps_bind {A B} (c : M A) (k : A → M B) :
  keeps_table c → (∀ a, keeps_table (k a)) → keeps_table (bind c k).
Proof.
  intros Hc Hk w. unfold bind. specialize (Hc w).
  destruct (c w) as [[e|a] w1]; simpl in *; [done|].
  destruct (Hk a w1) as (H1 & H2 & H3), Hc as (G1 & G2 & G3).
  repeat split; congruence.
Qed.

Lemma keeps_try_catch {A} (c : M A) h :
  keeps_table c → (∀ e, keeps_table (h e)) → keeps_table (try_catch c h).
Proof.
  intros Hc Hh w. unfold try_catch. specialize (Hc w).
  destruct (c w) as [[e|a] w1]; simpl in *; [|done].
  destruct (Hh e w1) as (H1 & H2 & H3), Hc as (G1 & G2 & G3).
  repeat split; congruence.
Qed.

Lemma keeps_for_of {A} (l : list A) body :
  (∀ x, keeps_table (body x)) → keeps_table (for_of l body).
Proof.
  intros Hb. induction l as [|x l IH]; simpl.
  - apply keeps_ret.
  - apply keeps_bind; auto.
Qed.

Lemma keeps_if {A} (b : bool) (c1 c2 : M A) :
  keeps_table c1 → keeps_table c2 → keeps_table (if b then c1 else c2).
Proof. by destruct b. Qed.

Create HintDb frame.
#[local] Hint Resolve keeps_ret keeps_throw keeps_logger keeps_send
  keeps_bind keeps_try_catch keeps_for_of keeps_if : frame.

(** ** Blob store adapter *)

Lemma keeps_uploadFile b buf key ct : keeps_table (uploadFile b buf key ct).
Proof. unfold uploadFile. auto 10 with frame. Qed.

Lemma keeps_deleteFile key : keeps_table (deleteFile key).
Proof. unfold deleteFile. auto 10 with frame. Qed.

Lemma keeps_fileExists key : keeps_table (fileExists key).
Proof.
  unfold fileExists. apply keeps_try_catch; [auto with frame|].
  intros e. apply keeps_if; auto with frame.
Qed.

#[local] Hint Resolve keeps_uploadFile keeps_deleteFile keeps_fileExists : frame.

Lemma keeps_delete_if_present key then_ :
  (∀ k, keeps_table (then_ k)) → keeps_table (delete_if_present key then_).
Proof.
  intros H. unfold delete_if_present. destruct key as [k|]; [|auto with frame].
  apply keeps_if; [|auto with frame].
  apply keeps_bind; [auto with frame|]. intros present.
  apply keeps_if; auto with frame.
Qed.

#[local] Hint Resolve keeps_delete_if_present : frame.

Lemma keeps_deleteBlogFiles cdn blogId contentUrl coverImageUrl :
  keeps_table (deleteBlogFiles cdn blogId contentUrl coverImageUrl).
Proof.
  unfold deleteBlogFiles. apply keeps_try_catch; [|auto with frame].
  repeat (apply keeps_bind; [|intros _]); try apply keeps_if;
    auto 10 with frame.
Qed.

(** The cleanup swallows every rejection of the store. *)
Lemma deleteBlogFiles_never_throws cdn blogId contentUrl coverImageUrl :
  never_throws (deleteBlogFiles cdn blogId contentUrl coverImageUrl).
Proof.
  intros w. unfold deleteBlogFiles, try_catch.
  match goal with |- context [match ?c w with _ => _ end] =>
    destruct (c w) as [[e|[]] w1] end.
  - unfold bind, logger. eauto.
  - eauto.
Qed.

(** A rejection of the first command ends the cleanup and is logged. *)
Lemma deleteBlogFiles_logs_rejection cdn (blogId : string) w e rest :
  s3_faults w = Some e :: rest →
  String.eqb (err_name e) "NotFound" = false →
  log (deleteBlogFiles cdn blogId None None w).2
  = log w ++ [LogError ("Error deleting blog files for ID " +:+ blogId
                        +:+ ": " +:+ err_message e)].
Proof.
  intros Hf Hn.
  unfold deleteBlogFiles, try_catch, bind, for_of, delete_if_present,
    fileExists, try_catch, bind, send, logger, ret, throw.
  cbn [Js.truthy_opt].
  change (Js.truthy ("blogs/" +:+ blogId +:+ "/content.html")) with true.
  cbv beta iota. rewrite Hf. simpl. rewrite Hn. reflexivity.
Qed.

Lemma uploadFile_sends b buf key ct w :
  s3_sent (uploadFile b buf key ct w).2
  = s3_sent w ++ [PutObjectCommand key buf ct].
Proof.
  unfold uploadFile, try_catch, bind, send, logger, ret, throw.
  by destruct (head (s3_faults w)) as [[e|]|].
Qed.

Lemma uploadFile_returns b buf key ct w :
  match (uploadFile b buf key ct w).1 with
  | inr locator => locator = "s3://" +:+ b +:+ "/" +:+ key
  | inl e => ∃ cause, head (s3_faults w) = Some (Some cause)
  end.
Proof.
  unfold uploadFile, try_catch, bind, send, logger, ret, throw.
  destruct (head (s3_faults w)) as [[e|]|]; simpl; eauto.
Qed.

(** C3 (amended).  The cover slot is stored under
    [blogs/<blogId>/cover<extension>], the extension being that of the
    uploaded file's name; the content slot is stored under
    [blogs/<blogId>/<originalFilename>], the name it is given, without a
    role segment.  On success each returns the [s3://] locator of its key. *)
Theorem derived_keys (S3_BUCKET : string) (extname : string → string)
    (buf : Buffer) (blogId name : string) (ct : option string) (w : World) :
  let coverKey := "blogs/" +:+ blogId +:+ "/cover" +:+ extname name in
  let contentKey := "blogs/" +:+ blogId +:+ "/" +:+ name in
  s3_sent (uploadBlogCoverImage S3_BUCKET extname buf blogId name ct w).2
    = s3_sent w ++ [PutObjectCommand coverKey buf ct]
  ∧ s3_sent (uploadBlogContent S3_BUCKET buf blogId name ct w).2
    = s3_sent w ++ [PutObjectCommand contentKey buf ct]
  ∧ match (uploadBlogCoverImage S3_BUCKET extname buf blogId name ct w).1 with
    | inr locator => locator = "s3://" +:+ S3_BUCKET +:+ "/" +:+ coverKey
    | inl _ => True
    end
  ∧ match (uploadBlogContent S3_BUCKET buf blogId name ct w).1 with
    | inr locator => locator = "s3://" +:+ S3_BUCKET +:+ "/" +:+ contentKey
    | inl _ => True
    end.
Proof.
  intros coverKey contentKey. unfold uploadBlogCoverImage, uploadBlogContent.
  fold coverKey contentKey.
  split; [apply uploadFile_sends|]. split; [apply uploadFile_sends|].
  split.
  - pose proof (uploadFile_returns S3_BUCKET buf coverKey ct w) as H.
    by destruct (uploadFile S3_BUCKET buf coverKey ct w).1.
  - pose proof (uploadFile_returns S3_BUCKET buf contentKey ct w) as H.
    by destruct (uploadFile S3_BUCKET buf contentKey ct w).1.
Qed.

(** C3, as stated, fails: the key of the content file [guide.docx] of blog 7
    is [blogs/7/guide.docx], whose last segment is not [content.docx]. *)
Lemma content_key_has_no_role_segment :
  ¬ (∀ (buf : Buffer) (blogId name : string) (ct : option string) (w : World),
       s3_sent (uploadBlogContent "beyondmoksha.com" buf blogId name ct w).2
       = s3_sent w ++ [PutObjectCommand
                         ("blogs/" +:+ blogId +:+ "/content" +:+ posix_extname name)
                         buf ct]).
Proof.
  intros H.
  specialize (H "<p>x</p>" (pretty 7) "guide.docx" None empty_world).
  vm_compute in H. discriminate H.
Qed.

(** *** Replacement *)

Lemma fileExists_run key w :
  (∀ e, head (s3_faults w) ≠ Some (Some e)) →
  fileExists key w
  = (inr (bool_decide (is_Some (bucket w !! key))),
     with_s3 (bucket w) (tail (s3_faults w))
       (s3_sent w ++ [HeadObjectCommand key]) w).
Proof.
  intros H. unfold fileExists, try_catch, bind, send, ret, throw.
  destruct (head (s3_faults w)) as [[e|]|] eqn:E.
  - by destruct (H e).
  - by destruct (bucket w !! key).
  - by destruct (bucket w !! key).
Qed.

(** The replacement of the adapter, when the store accepts every command:
    for an old key that can be extracted and differs from the new key, the
    existence check and the deletion of the old key precede the upload, the
    old key is gone afterwards, the new key holds the new bytes, and the
    canonical locator of the new key is returned. *)
Lemma replaceBlogContent_fresh_key
    (S3_BUCKET : string) (cdn : option string) (oldUrl : option string)
    (buf : Buffer) (blogId name : string) (ct : option string) (w : World)
    (oldKey : string) :
  let newKey := "blogs/" +:+ blogId +:+ "/" +:+ name in
  s3_faults w = [] →
  extractKeyFromUrl cdn oldUrl = Some oldKey →
  Js.truthy oldKey = true →
  oldKey ≠ newKey →
  ∃ w',
    replaceBlogContent S3_BUCKET cdn oldUrl buf blogId name ct w
    = (inr ("s3://" +:+ S3_BUCKET +:+ "/" +:+ newKey), w')
    ∧ bucket w' !! oldKey = None
    ∧ bucket w' !! newKey = Some {| Body := buf; ContentType := ct |}
    ∧ s3_sent w'
      = s3_sent w
        ++ [HeadObjectCommand oldKey]
        ++ (if bool_decide (is_Some (bucket w !! oldKey))
            then [DeleteObjectCommand oldKey] else [])
        ++ [PutObjectCommand newKey buf ct].
Proof.
  intros newKey Hf Hx Ht Hne.
  unfold replaceBlogContent, uploadBlogContent. rewrite Hx. fold newKey.
  unfold delete_if_present. rewrite Ht.
  unfold bind at 1. unfold bind at 1.
  rewrite fileExists_run by (rewrite Hf; done).
  destruct (bucket w !! oldKey) as [o|] eqn:Eo.
  - rewrite bool_decide_eq_true_2 by eauto.
    unfold deleteFile, uploadFile, try_catch, bind, send, logger, ret, throw.
    simpl. rewrite Hf. simpl.
    eexists. split; [reflexivity|]. simpl.
    rewrite lookup_insert_ne, lookup_delete_eq, lookup_insert_eq by done.
    by rewrite <- !app_assoc.
  - rewrite bool_decide_eq_false_2 by by intros [? ?].
    unfold uploadFile, try_catch, bind, send, logger, ret, throw.
    simpl. rewrite Hf. simpl.
    eexists. split; [reflexivity|]. simpl.
    rewrite lookup_insert_ne, lookup_insert_eq by done.
    by rewrite <- !app_assoc.
Qed.

(** C1 on the controller.  Blog 1 holds its content under
    [blogs/1/text/html]; an update supplies [guide.htm] of type [text/html].
    The handler passes the type where the adapter expects the file name, so
    the new key is the old key: after the successful update the old key is
    still in the bucket, now with the new bytes and no content type. *)
Theorem updateBlog_reuses_key_of_same_type :
  let run := IdKeyed.updateBlog "beyondmoksha.com" None posix_extname
               identity_sanitizer no_json sample_update sample_world in
  extractKeyFromUrl None (Some (contentUrl sample_blog)) = Some "blogs/1/text/html"
  ∧ answered run.1 = Some 200
  ∧ s3_sent run.2
    = [HeadObjectCommand "blogs/1/text/html";
       DeleteObjectCommand "blogs/1/text/html";
       PutObjectCommand "blogs/1/text/html" "<p>new</p>" None]
  ∧ bucket run.2 !! "blogs/1/text/html"
    = Some {| Body := "<p>new</p>"; ContentType := None |}
  ∧ contentUrl <$> blogs run.2 = ["s3://beyondmoksha.com/blogs/1/text/html"].
Proof. vm_compute. repeat split. Qed.

(** ** Record store client *)

Lemma with_db_same w : with_db (blogs w) (next_id w) (db_faults w) w = w.
Proof. by destruct w. Qed.

Lemma call_run {A} (op : M A) w :
  (∀ e, head (db_faults w) ≠ Some (Some e)) →
  prisma.call op w = op (with_db (blogs w) (next_id w) (tail (db_faults w)) w).
Proof.
  intros H. unfold prisma.call.
  destruct (head (db_faults w)) as [[e|]|]; [by destruct (H e)|done..].
Qed.

Lemma goes_through_head faults :
  goes_through faults = true → ∀ e, head faults ≠ Some (Some e).
Proof. unfold goes_through. by destruct (head faults) as [[?|]|]. Qed.

Lemma find_of_existsb {A} (f : A → bool) l :
  existsb f l = true → ∃ a, find f l = Some a ∧ f a = true.
Proof.
  induction l as [|x l IH]; simpl; [done|].
  destruct (f x) eqn:E; simpl; eauto.
Qed.

Lemma existsb_of_find {A} (f : A → bool) l a :
  find f l = Some a → existsb f l = true.
Proof.
  induction l as [|x l IH]; simpl; [done|].
  destruct (f x); simpl; auto.
Qed.

Lemma no_row_after_delete (i : Z) (rows : list Blog) :
  existsb (prisma.has_id i) (filter (λ r, id r ≠ i) rows) = false.
Proof.
  induction rows as [|r rows IH]; [done|].
  rewrite filter_cons. destruct (decide (id r ≠ i)) as [Hne|Heq]; [|done].
  simpl. rewrite IH. unfold prisma.has_id.
  by destruct (Z.eqb_spec (id r) i).
Qed.

(** ** Permanent deletion *)

(** C5.  The cleanup of blobs never throws, whatever the store does to its
    commands; and the permanent deletion of a blog that has a row, with the
    database answering, removes the row and answers 200 whatever happened
    during the cleanup.  A command the store rejects shows only in the
    log. *)
Theorem permanentDeleteBlog_removes_row
    (cdn : option string) (blogId : Z) (w : World) :
  existsb (prisma.has_id blogId) (blogs w) = true →
  db_faults w = [] →
  (∀ ref contentUrl coverImageUrl,
     never_throws (deleteBlogFiles cdn ref contentUrl coverImageUrl))
  ∧ ∃ w',
      IdKeyed.permanentDeleteBlog cdn blogId w
      = (inr {| code := 200; success := true;
                message := Some "Blog permanently deleted"; data := NoData |}, w')
      ∧ blogs w' = filter (λ r, id r ≠ blogId) (blogs w)
      ∧ existsb (prisma.has_id blogId) (blogs w') = false
      ∧ (∀ e rest,
           s3_faults w = Some e :: rest →
           String.eqb (err_name e) "NotFound" = false →
           log w' = log w ++ [LogError ("Error deleting blog files for ID "
                                        +:+ pretty blogId +:+ ": "
                                        +:+ err_message e)]).
Proof.
  intros Hrow Hdb. split; [intros; apply deleteBlogFiles_never_throws|].
  apply find_of_existsb in Hrow as (b & Hfind & _).
  set (w1 := with_db (blogs w) (next_id w) (tail (db_faults w)) w).
  assert (Hstep1 : prisma.findUnique_id blogId w = (inr (Some b), w1)).
  { unfold prisma.findUnique_id. rewrite call_run by (rewrite Hdb; done).
    fold w1. simpl. by rewrite Hfind. }
  destruct (deleteBlogFiles_never_throws cdn (pretty blogId) None None w1)
    as ([] & w2 & Hstep2).
  pose proof (keeps_deleteBlogFiles cdn (pretty blogId) None None w1) as Hkeep.
  rewrite Hstep2 in Hkeep. simpl in Hkeep. destruct Hkeep as (Hb & Hn & Hf).
  assert (Hf2 : db_faults w2 = []) by (rewrite Hf; simpl; by rewrite Hdb).
  assert (Hb2 : blogs w2 = blogs w) by by rewrite Hb.
  set (w3 := with_db (filter (λ r, id r ≠ blogId) (blogs w2)) (next_id w2)
               (tail (db_faults w2))
               (with_db (blogs w2) (next_id w2) (tail (db_faults w2)) w2)).
  assert (Hstep3 : prisma.delete blogId w2 = (inr b, w3)).
  { unfold prisma.delete. rewrite call_run by (rewrite Hf2; done).
    assert (Hfind2 : find (prisma.has_id blogId) (blogs w2) = Some b)
      by by rewrite Hb2.
    simpl. by rewrite Hfind2. }
  exists w3. split.
  - unfold IdKeyed.permanentDeleteBlog.
    erewrite try_catch_inr; [reflexivity|].
    erewrite bind_inr by exact Hstep1. simpl.
    erewrite bind_inr by exact Hstep2.
    erewrite bind_inr by exact Hstep3. reflexivity.
  - simpl. rewrite Hb2. split; [done|]. split; [apply no_row_after_delete|].
    intros e rest Hrej Hname.
    pose proof (deleteBlogFiles_logs_rejection cdn (pretty blogId) w1 e rest
                  Hrej Hname) as Hlog.
    by rewrite Hstep2 in Hlog.
Qed.

Lemma permanentDeleteBlog_removes_row_witness :
  ∃ w',
    IdKeyed.permanentDeleteBlog None 1 faulty_world
    = (inr {| code := 200; success := true;
              message := Some "Blog permanently deleted"; data := NoData |}, w')
    ∧ blogs w' = filter (λ r, id r ≠ 1) (blogs faulty_world)
    ∧ existsb (prisma.has_id 1) (blogs w') = false
    ∧ log w' = [LogError "Error deleting blog files for ID 1: socket hang up"].
Proof.
  destruct (permanentDeleteBlog_removes_row None 1 faulty_world
              eq_refl eq_refl) as (_ & w' & H1 & H2 & H3 & H4).
  exists w'. repeat split; [exact H1|exact H2|exact H3|].
  exact (H4 _ _ eq_refl eq_refl).
Defined.

(** ** Creation *)

(** C8.  When some row of the table has the requested slug, soft-deleted or
    not, and the database answers the lookup, create answers 409 and changes
    neither the table nor the bucket. *)
Theorem createBlog_rejects_taken_slug
    (S3_BUCKET : string) (extname : string → string)
    (sanitizeHTMLToBuffer : Buffer → JsError + Buffer)
    (validateHTMLStructure : Buffer → list string)
    (JSON_parse : string → JsError + option (list string))
    (trim : string → string)
    (req : SlugKeyed.CreateRequest) (w : World) :
  existsb (prisma.has_slug (SlugKeyed.create_slug req)) (blogs w) = true →
  db_faults w = [] →
  SlugKeyed.createBlog S3_BUCKET extname sanitizeHTMLToBuffer
    validateHTMLStructure JSON_parse trim req w
  = (inr {| code := 409; success := false;
            message := Some "A blog with this slug already exists";
            data := NoData |}, w).
Proof.
  intros Hrow Hdb.
  apply find_of_existsb in Hrow as (b & Hfind & _).
  unfold SlugKeyed.createBlog.
  erewrite try_catch_inr; [reflexivity|].
  unfold bind at 1. unfold prisma.findUnique_slug.
  rewrite call_run by (rewrite Hdb; done).
  simpl. rewrite Hfind. unfold respond, ret. f_equal.
  rewrite Hdb. simpl. rewrite <- Hdb. apply with_db_same.
Qed.

Lemma createBlog_rejects_taken_slug_witness :
  deletedAt deleted_blog = Some 3
  ∧ blogs world_of_deleted = [deleted_blog]
  ∧ SlugKeyed.createBlog "beyondmoksha.com" posix_extname identity_sanitizer
      no_warnings no_json no_trim sample_create world_of_deleted
    = (inr {| code := 409; success := false;
              message := Some "A blog with this slug already exists";
              data := NoData |}, world_of_deleted).
Proof.
  split; [reflexivity|]. split; [reflexivity|].
  apply (createBlog_rejects_taken_slug "beyondmoksha.com" posix_extname
           identity_sanitizer no_warnings no_json no_trim sample_create
           world_of_deleted); reflexivity.
Defined.

(** ** List queries *)

Lemma findMany_run contains where_ skip take_ w :
  db_faults w = [] →
  prisma.findMany contains where_ skip take_ w
  = (inr (take (Z.to_nat take_)
            (drop (Z.to_nat skip)
               (merge_sort prisma.newer_first
                  (List.filter (prisma.satisfies contains where_) (blogs w))))), w).
Proof.
  intros H. unfold prisma.findMany. rewrite call_run by (rewrite H; done).
  simpl. f_equal. rewrite H. simpl. rewrite <- H. apply with_db_same.
Qed.

Lemma count_run contains where_ w :
  db_faults w = [] →
  prisma.count contains where_ w
  = (inr (Z.of_nat (length (List.filter (prisma.satisfies contains where_) (blogs w)))), w).
Proof.
  intros H. unfold prisma.count. rewrite call_run by (rewrite H; done).
  simpl. f_equal. rewrite H. simpl. rewrite <- H. apply with_db_same.
Qed.

Lemma page_rows_satisfy contains where_ (n m : nat) rows b :
  b ∈ take n (drop m (merge_sort prisma.newer_first
                        (List.filter (prisma.satisfies contains where_) rows))) →
  b ∈ rows ∧ prisma.satisfies contains where_ b = true.
Proof.
  intros H. apply subseteq_take, subseteq_drop in H.
  rewrite merge_sort_Permutation in H.
  apply list_elem_of_In, filter_In in H as [H1 H2].
  by apply list_elem_of_In in H1.
Qed.

(** C9 (amended).  With the database answering, the list handler keyed by
    the slug returns only rows that are not deleted and have the requested
    status, which is [published] when the caller supplies none; the list
    handler keyed by the id returns only rows that are not deleted and has
    no status condition. *)
Theorem list_queries_filter
    (contains : string → string → bool) (q : ListQuery) (w : World) :
  db_faults w = [] →
  (∃ rows total,
     SlugKeyed.getBlogs contains q w
     = (inr {| code := 200; success := true; message := None;
               data := Page rows total (int_or (query_page q) 1)
                         (int_or (query_limit q) 20) |}, w)
     ∧ ∀ b, b ∈ rows →
            b ∈ blogs w ∧ deletedAt b = None
            ∧ status b = Js.or_else (query_status q) "published")
  ∧ (∃ rows total,
       IdKeyed.getBlogs contains q w
       = (inr {| code := 200; success := true; message := None;
                 data := Page rows total (int_or (query_page q) 1)
                           (int_or (query_limit q) 20) |}, w)
       ∧ ∀ b, b ∈ rows → b ∈ blogs w ∧ deletedAt b = None).
Proof.
  intros Hdb. split.
  - eexists _, _. split.
    + unfold SlugKeyed.getBlogs.
      erewrite try_catch_inr; [reflexivity|].
      erewrite bind_inr by (by apply findMany_run).
      erewrite bind_inr by (by apply count_run).
      reflexivity.
    + intros b [Hin Hsat]%page_rows_satisfy. split; [done|].
      simpl in Hsat. apply andb_prop in Hsat as [Hd Hsat].
      apply andb_prop in Hsat as [Hs _].
      apply bool_decide_eq_true in Hd. by apply String.eqb_eq in Hs.
  - eexists _, _. split.
    + unfold IdKeyed.getBlogs.
      erewrite try_catch_inr; [reflexivity|].
      erewrite bind_inr by (by apply findMany_run).
      erewrite bind_inr by (by apply count_run).
      reflexivity.
    + intros b [Hin Hsat]%page_rows_satisfy. split; [done|].
      simpl in Hsat. apply andb_prop in Hsat as [Hd _].
      by apply bool_decide_eq_true in Hd.
Qed.

Lemma list_queries_filter_witness :
  ∃ rows total,
    SlugKeyed.getBlogs Js.includes plain_query draft_world
    = (inr {| code := 200; success := true; message := None;
              data := Page rows total 1 20 |}, draft_world)
    ∧ ∀ b, b ∈ rows →
           b ∈ blogs draft_world ∧ deletedAt b = None
           ∧ status b = "published".
Proof.
  apply (list_queries_filter Js.includes plain_query draft_world).
  reflexivity.
Defined.

(** C9, as stated, fails on the handler keyed by the id: a request without
    a status gets the draft. *)
Lemma id_keyed_list_returns_drafts :
  query_status plain_query = None
  ∧ status draft_blog = "draft"
  ∧ (IdKeyed.getBlogs Js.includes plain_query draft_world).1
    = inr {| code := 200; success := true; message := None;
             data := Page [draft_blog] 1 1 20 |}.
Proof. vm_compute. repeat split. Qed.

(** ** Temporary-access URL issuer *)

(** C7 (amended).  For a non-empty locator the issuer signs a URL for the
    extracted key, or for the locator itself when no key, or an empty key,
    is extracted; it raises only when the signer does.  For a null or empty
    locator it raises. *)
Theorem issuer_signs_locator_as_key
    (S3_BUCKET : string) (cdn : option string)
    (getSignedUrl : string → string → Z → JsError + string)
    (s : string) (ttl : Z) (w : World) :
  Js.truthy s = true →
  (generatePresignedUrl S3_BUCKET cdn getSignedUrl (Some s) ttl w).1
  = match getSignedUrl S3_BUCKET (Js.or_else (extractS3Key cdn (Some s)) s) ttl with
    | inr url => inr url
    | inl e => inl (Error ("Failed to generate presigned URL: " +:+ err_message e))
    end
  ∧ (extractS3Key cdn (Some s) = None →
     Js.or_else (extractS3Key cdn (Some s)) s = s)
  ∧ (generatePresignedUrl S3_BUCKET cdn getSignedUrl None ttl w).1
    = inl (Error "Failed to generate presigned URL: S3 URL is required")
  ∧ (generatePresignedUrl S3_BUCKET cdn getSignedUrl (Some "") ttl w).1
    = inl (Error "Failed to generate presigned URL: S3 URL is required").
Proof.
  intros Hs. split; [|split; [by intros ->|split; reflexivity]].
  unfold generatePresignedUrl.
  generalize (extractS3Key cdn (Some s)). intros extracted.
  assert (Hk : Js.truthy (Js.or_else extracted s) = true).
  { unfold Js.or_else. destruct extracted as [k|]; [|done].
    by destruct (Js.truthy k) eqn:E. }
  unfold try_catch, bind, logger, ret, throw.
  simpl. rewrite Hs, Hk. simpl.
  by destruct (getSignedUrl S3_BUCKET (Js.or_else extracted s) ttl).
Qed.

Lemma issuer_signs_locator_as_key_witness :
  (generatePresignedUrl "beyondmoksha.com" None sample_signer
     (Some "s3://beyondmoksha.com/blogs/1/cover.png") 3600 empty_world).1
  = inr "https://beyondmoksha.com.s3.amazonaws.com/blogs/1/cover.png?X-Amz-Expires=3600".
Proof.
  apply (issuer_signs_locator_as_key "beyondmoksha.com" None sample_signer
           "s3://beyondmoksha.com/blogs/1/cover.png" 3600 empty_world).
  reflexivity.
Defined.

(** C7, as stated, fails: no key can be extracted from [garbage], and the
    issuer returns a URL signed for the key [garbage]. *)
Lemma issuer_accepts_unresolvable_locator :
  extractS3Key None (Some "garbage") = None
  ∧ (generatePresignedUrl "beyondmoksha.com" None sample_signer
       (Some "garbage") 3600 empty_world).1
    = inr "https://beyondmoksha.com.s3.amazonaws.com/garbage?X-Amz-Expires=3600".
Proof. split; reflexivity. Qed.

(** ** Read paths *)

Lemma findUnique_slug_returns slug_ w found w1 :
  prisma.findUnique_slug slug_ w = (inr found, w1) →
  found = find (prisma.has_slug slug_) (blogs w).
Proof.
  unfold prisma.findUnique_slug, prisma.call.
  destruct (head (db_faults w)) as [[e|]|]; simpl; congruence.
Qed.

Lemma findUnique_id_returns i w found w1 :
  prisma.findUnique_id i w = (inr found, w1) →
  found = find (prisma.has_id i) (blogs w).
Proof.
  unfold prisma.findUnique_id, prisma.call.
  destruct (head (db_faults w)) as [[e|]|]; simpl; congruence.
Qed.

Lemma detached_returns {A} (c : M A) msg w :
  ∃ w', detached c (λ err, logger (LogError (msg +:+ err_message err))) w
        = (inr (), w').
Proof.
  unfold detached, logger. destruct (c w) as [[e|a] w1]; eauto.
Qed.

Lemma find_replace_row b' rows b :
  find (prisma.has_id (id b')) rows = Some b →
  find (prisma.has_id (id b')) (prisma.replace_row b' rows) = Some b'.
Proof.
  unfold prisma.replace_row.
  induction rows as [|r rows IH]; simpl; [done|].
  destruct (prisma.has_id (id b') r) eqn:E; simpl.
  - intros _. unfold prisma.has_id. by rewrite Z.eqb_refl.
  - rewrite E. exact IH.
Qed.

(** The read by slug answers with the row as it was read. *)
Lemma getBlogBySlug_answers slug_ blog w :
  find (prisma.has_slug slug_) (blogs w) = Some blog →
  deletedAt blog = None →
  (∀ e, head (db_faults w) ≠ Some (Some e)) →
  SlugKeyed.getBlogBySlug slug_ w
  = (inr {| code := 200; success := true; message := None;
            data := OneBlog blog |},
     (detached (prisma.update (id blog) views_plus_one)
        (λ err, logger (LogError ("Failed to increment views: "
                                  +:+ err_message err)))
        (with_db (blogs w) (next_id w) (tail (db_faults w)) w)).2).
Proof.
  intros Hfind Hdel Hdb. unfold SlugKeyed.getBlogBySlug.
  erewrite try_catch_inr; [reflexivity|].
  unfold bind at 1. unfold prisma.findUnique_slug.
  rewrite call_run by done. simpl. rewrite Hfind, Hdel. simpl.
  unfold bind.
  destruct (detached_returns (prisma.update (id blog) views_plus_one)
              "Failed to increment views: "
              (with_db (blogs w) (next_id w) (tail (db_faults w)) w))
    as [w' ->].
  reflexivity.
Qed.

Lemma getBlogContent_by_slug_views S3_BUCKET cdn getSignedUrl slug_ w r :
  (SlugKeyed.getBlogContent S3_BUCKET cdn getSignedUrl slug_ w).1 = inr r →
  code r = 200 →
  ∃ blog, find (prisma.has_slug slug_) (blogs w) = Some blog
          ∧ reported_views (data r) = Some (views blog + 1).
Proof.
  unfold SlugKeyed.getBlogContent, try_catch.
  match goal with |- context [match ?c w with _ => _ end] =>
    destruct (c w) as [[e|r'] w'] eqn:E end.
  { simpl. intros [= <-]. simpl. lia. }
  simpl. intros [= <-] Hcode.
  unfold bind at 1 in E.
  destruct (prisma.findUnique_slug slug_ w) as [[e|found] w1] eqn:E1;
    [discriminate E|].
  apply findUnique_slug_returns in E1 as ->.
  destruct (find (prisma.has_slug slug_) (blogs w)) as [blog|];
    [|unfold SlugKeyed.not_found, respond, ret in E;
      injection E as <- _; simpl in Hcode; lia].
  exists blog. split; [done|].
  destruct (bool_decide (deletedAt blog ≠ None));
    [unfold SlugKeyed.not_found, respond, ret in E;
     injection E as <- _; simpl in Hcode; lia|].
  unfold bind at 1 in E.
  match type of E with context [match ?c ?x with _ => _ end] =>
    destruct (c x) as [[e|[]] w2]; [discriminate E|] end.
  destruct (negb (Js.truthy_opt (extractS3Key cdn (Some (contentUrl blog)))));
    [unfold respond, ret in E; injection E as <- _; simpl in Hcode; lia|].
  unfold bind at 1 in E.
  match type of E with context [match ?c ?x with _ => _ end] =>
    destruct (c x) as [[e|out] w3]; [discriminate E|] end.
  unfold bind at 1 in E.
  match type of E with context [match ?c ?x with _ => _ end] =>
    destruct (c x) as [[e|u] w4]; [discriminate E|] end.
  unfold respond, ret in E. by injection E as <- _.
Qed.

Lemma getBlogContent_by_id_views S3_BUCKET cdn getSignedUrl blogId w r :
  (IdKeyed.getBlogContent S3_BUCKET cdn getSignedUrl blogId w).1 = inr r →
  code r = 200 →
  ∃ blog, find (prisma.has_id blogId) (blogs w) = Some blog
          ∧ reported_views (data r) = Some (views blog + 1).
Proof.
  unfold IdKeyed.getBlogContent, try_catch.
  match goal with |- context [match ?c w with _ => _ end] =>
    destruct (c w) as [[e|r'] w'] eqn:E end.
  { simpl. intros [= <-]. simpl. lia. }
  simpl. intros [= <-] Hcode.
  unfold bind at 1 in E.
  destruct (prisma.findUnique_id blogId w) as [[e|found] w1] eqn:E1;
    [discriminate E|].
  apply findUnique_id_returns in E1 as ->.
  destruct (find (prisma.has_id blogId) (blogs w)) as [blog|];
    [|unfold IdKeyed.not_found, respond, ret in E;
      injection E as <- _; simpl in Hcode; lia].
  exists blog. split; [done|].
  destruct (bool_decide (deletedAt blog ≠ None));
    [unfold IdKeyed.not_found, respond, ret in E;
     injection E as <- _; simpl in Hcode; lia|].
  unfold bind at 1 in E.
  match type of E with context [match ?c ?x with _ => _ end] =>
    destruct (c x) as [[e|[]] w2]; [discriminate E|] end.
  destruct (negb (Js.truthy_opt (extractS3Key cdn (Some (contentUrl blog)))));
    [unfold respond, ret in E; injection E as <- _; simpl in Hcode; lia|].
  unfold bind at 1 in E.
  match type of E with context [match ?c ?x with _ => _ end] =>
    destruct (c x) as [[e|out] w3]; [discriminate E|] end.
  unfold bind at 1 in E.
  match type of E with context [match ?c ?x with _ => _ end] =>
    destruct (c x) as [[e|u] w4]; [discriminate E|] end.
  unfold respond, ret in E. by injection E as <- _.
Qed.

(** C6 (amended).  The read by slug answers with the row as read, so with
    the views before the increment; the increment is issued detached, a
    rejection of it is logged and leaves the answer alone, and when it goes
    through the row shows one view more.  The content reads, by slug and by
    id, answer with the views before the increment plus one. *)
Theorem read_paths_report_views
    (S3_BUCKET : string) (cdn : option string)
    (getSignedUrl : string → string → Z → JsError + string) (w : World) :
  (∀ slug_ blog,
     find (prisma.has_slug slug_) (blogs w) = Some blog →
     deletedAt blog = None →
     goes_through (db_faults w) = true →
     (SlugKeyed.getBlogBySlug slug_ w).1
     = inr {| code := 200; success := true; message := None;
              data := OneBlog blog |}
     ∧ (∀ e rest, db_faults w = None :: Some e :: rest →
          blogs (SlugKeyed.getBlogBySlug slug_ w).2 = blogs w
          ∧ log (SlugKeyed.getBlogBySlug slug_ w).2
            = log w ++ [LogError ("Failed to increment views: "
                                  +:+ err_message e)])
     ∧ (db_faults w = [] →
        find (prisma.has_id (id blog)) (blogs w) = Some blog →
        views <$> find (prisma.has_id (id blog))
                    (blogs (SlugKeyed.getBlogBySlug slug_ w).2)
        = Some (views blog + 1)))
  ∧ (∀ slug_ r,
       (SlugKeyed.getBlogContent S3_BUCKET cdn getSignedUrl slug_ w).1 = inr r →
       code r = 200 →
       ∃ blog, find (prisma.has_slug slug_) (blogs w) = Some blog
               ∧ reported_views (data r) = Some (views blog + 1))
  ∧ (∀ blogId r,
       (IdKeyed.getBlogContent S3_BUCKET cdn getSignedUrl blogId w).1 = inr r →
       code r = 200 →
       ∃ blog, find (prisma.has_id blogId) (blogs w) = Some blog
               ∧ reported_views (data r) = Some (views blog + 1)).
Proof.
  split; [|split].
  - intros slug_ blog Hfind Hdel Hdb.
    pose proof (goes_through_head _ Hdb) as Hhead. clear Hdb.
    rename Hhead into Hdb.
    rewrite (getBlogBySlug_answers slug_ blog w Hfind Hdel Hdb).
    split; [done|]. split.
    + intros e rest Hf. unfold detached, prisma.update, prisma.call, logger.
      rewrite Hf. simpl. done.
    + intros Hf Hid. unfold detached, prisma.update, prisma.call.
      rewrite Hf. simpl. rewrite Hid. simpl.
      change (id blog) with (id (apply_update (clock w) views_plus_one blog)).
      by rewrite (find_replace_row _ _ blog).
  - intros slug_ r. apply getBlogContent_by_slug_views.
  - intros blogId r. apply getBlogContent_by_id_views.
Qed.

Lemma read_paths_report_views_witness :
  (SlugKeyed.getBlogBySlug "a-guide" sample_world).1
  = inr {| code := 200; success := true; message := None;
           data := OneBlog sample_blog |}
  ∧ views <$> find (prisma.has_id 1)
                (blogs (SlugKeyed.getBlogBySlug "a-guide" sample_world).2)
    = Some 1.
Proof.
  destruct (proj1 (read_paths_report_views "beyondmoksha.com" None
                     sample_signer sample_world)
              "a-guide" sample_blog eq_refl eq_refl eq_refl)
    as (H1 & _ & H3).
  split; [exact H1|]. exact (H3 eq_refl eq_refl).
Defined.

(** C6, as stated, fails on the content read: the first read of a row with
    no views answers with one view. *)
Lemma content_read_reports_incremented_views :
  views sample_blog = 0
  ∧ match (SlugKeyed.getBlogContent "beyondmoksha.com" None sample_signer
             "a-guide" sample_world).1 with
    | inr r => code r = 200 ∧ reported_views (data r) = Some 1
    | inl _ => False
    end.
Proof. vm_compute. repeat split. Qed.

(** * Further properties of the adapter and the handlers *)

(** ** What the adapter does to the bucket *)

Lemma touches_mono {A} (gone gone' put put' : list string) (c : M A) :
  gone ⊆ gone' → put ⊆ put' → touches gone put c → touches gone' put' c.
Proof.
  intros Hg Hp H w k. destruct (H w k) as [?|[[? ?]|[? ?]]]; auto.
Qed.

Lemma touches_of_same_bucket {A} gone put (c : M A) :
  (∀ w, bucket (c w).2 = bucket w) → touches gone put c.
Proof. intros H w k. left. by rewrite H. Qed.

Lemma touches_ret {A} gone put (a : A) : touches gone put (ret a).
Proof. by apply touches_of_same_bucket. Qed.

Lemma touches_throw {A} gone put e : touches gone put (@throw A e).
Proof. by apply touches_of_same_bucket. Qed.

Lemma touches_logger gone put e : touches gone put (logger e).
Proof. by apply touches_of_same_bucket. Qed.

Lemma touches_bind {A B} gone put (c : M A) (k : A → M B) :
  touches gone put c → (∀ a, touches gone put (k a)) →
  touches gone put (bind c k).
Proof.
  intros Hc Hk w key. unfold bind. specialize (Hc w key).
  destruct (c w) as [[e|a] w1]; simpl in *; [done|].
  specialize (Hk a w1 key).
  destruct Hk as [Hk|[[? ?]|[? ?]]]; auto.
  rewrite Hk. exact Hc.
Qed.

Lemma touches_try_catch {A} gone put (c : M A) h :
  touches gone put c → (∀ e, touches gone put (h e)) →
  touches gone put (try_catch c h).
Proof.
  intros Hc Hh w key. unfold try_catch. specialize (Hc w key).
  destruct (c w) as [[e|a] w1]; simpl in *; [|done].
  specialize (Hh e w1 key).
  destruct Hh as [Hh|[[? ?]|[? ?]]]; auto.
  rewrite Hh. exact Hc.
Qed.

Lemma touches_if {A} gone put (b : bool) (c1 c2 : M A) :
  touches gone put c1 → touches gone put c2 →
  touches gone put (if b then c1 else c2).
Proof. by destruct b. Qed.

Lemma touches_for_of {A} gone put (l : list A) body :
  (∀ x, x ∈ l → touches gone put (body x)) → touches gone put (for_of l body).
Proof.
  induction l as [|x l IH]; intros Hb; simpl.
  - apply touches_ret.
  - apply touches_bind.
    + apply Hb. left.
    + intros _. apply IH. intros y Hy. apply Hb. by right.
Qed.

Lemma touches_send_put gone put key buf ct :
  key ∈ put → touches gone put (send (PutObjectCommand key buf ct)).
Proof.
  intros Hin w k. unfold send.
  destruct (head (s3_faults w)) as [[e|]|]; simpl; auto;
    (destruct (decide (key = k)) as [->|Hne];
     [right; right; split; [done|]; rewrite lookup_insert_eq; eauto
     |left; by rewrite lookup_insert_ne]).
Qed.

Lemma touches_send_delete gone put key :
  key ∈ gone → touches gone put (send (DeleteObjectCommand key)).
Proof.
  intros Hin w k. unfold send.
  destruct (head (s3_faults w)) as [[e|]|]; simpl; auto;
    (destruct (decide (key = k)) as [->|Hne];
     [right; left; split; [done|]; by rewrite lookup_delete_eq
     |left; by rewrite lookup_delete_ne]).
Qed.

Lemma touches_send_read gone put (cmd : S3Command) :
  match cmd with
  | HeadObjectCommand _ | GetObjectCommand _ => True
  | _ => False
  end →
  touches gone put (send cmd).
Proof.
  intros H. apply touches_of_same_bucket. intros w. unfold send.
  destruct cmd; try done;
    destruct (head (s3_faults w)) as [[e|]|]; simpl; try done;
    by destruct (bucket w !! _).
Qed.

Lemma touches_uploadFile gone put b buf key ct :
  key ∈ put → touches gone put (uploadFile b buf key ct).
Proof.
  intros H. unfold uploadFile. apply touches_try_catch.
  - apply touches_bind; [by apply touches_send_put|]. intros _.
    apply touches_bind; [apply touches_logger|]. intros _. apply touches_ret.
  - intros e. apply touches_bind; [apply touches_logger|]. intros _.
    apply touches_bind; [apply touches_logger|]. intros _. apply touches_throw.
Qed.

Lemma touches_deleteFile gone put key :
  key ∈ gone → touches gone put (deleteFile key).
Proof.
  intros H. unfold deleteFile. apply touches_try_catch.
  - apply touches_bind; [by apply touches_send_delete|]. intros _.
    apply touches_logger.
  - intros e. apply touches_bind; [apply touches_logger|]. intros _.
    apply touches_bind; [apply touches_logger|]. intros _. apply touches_throw.
Qed.

Lemma touches_fileExists gone put key : touches gone put (fileExists key).
Proof.
  unfold fileExists. apply touches_try_catch.
  - apply touches_bind; [by apply touches_send_read|]. intros _.
    apply touches_ret.
  - intros e. apply touches_if; [apply touches_ret|apply touches_throw].
Qed.

Lemma touches_delete_if_present gone put key then_ :
  (∀ k, key = Some k → Js.truthy k = true → k ∈ gone) →
  (∀ k, touches gone put (then_ k)) →
  touches gone put (delete_if_present key then_).
Proof.
  intros Hin Hthen. unfold delete_if_present.
  destruct key as [k|]; [|apply touches_ret].
  destruct (Js.truthy k) eqn:Ht; [|apply touches_ret].
  apply touches_bind; [apply touches_fileExists|]. intros present.
  apply touches_if; [|apply touches_ret].
  apply touches_bind; [apply touches_deleteFile; auto|]. intros _. apply Hthen.
Qed.

Lemma resolved_key_elem cdn url k :
  extractKeyFromUrl cdn url = Some k → Js.truthy k = true →
  k ∈ resolved_key cdn url.
Proof. intros H Ht. unfold resolved_key. rewrite H, Ht. left. Qed.

Lemma touches_deleteBlogFiles
    (cdn : option string) (blogId : string)
    (contentUrl coverImageUrl : option string) :
  touches (cleanup_targets cdn blogId contentUrl coverImageUrl) []
    (deleteBlogFiles cdn blogId contentUrl coverImageUrl).
Proof.
  unfold deleteBlogFiles, cleanup_targets.
  apply touches_try_catch; [|intros e; apply touches_logger].
  apply touches_bind; [|intros _; apply touches_bind;
                        [|intros _; apply touches_logger]].
  - destruct (Js.truthy_opt contentUrl).
    + apply touches_delete_if_present; [|intros; apply touches_logger].
      intros k Hk Ht. apply elem_of_app. left. by apply resolved_key_elem.
    + apply touches_for_of. intros key Hkey.
      apply touches_delete_if_present; [|intros; apply touches_logger].
      intros k [= <-] _. apply elem_of_app. by left.
  - destruct (Js.truthy_opt coverImageUrl).
    + apply touches_delete_if_present; [|intros; apply touches_logger].
      intros k Hk Ht. apply elem_of_app. right. by apply resolved_key_elem.
    + apply touches_for_of. intros ext Hext.
      apply touches_delete_if_present; [|intros; apply touches_logger].
      intros k [= <-] _. apply elem_of_app. right.
      unfold legacy_cover_keys. apply list_elem_of_fmap. eauto.
Qed.

Lemma touches_replacement
    (S3_BUCKET : string) (cdn : option string) (extname : string → string)
    (oldUrl : option string) (buf : Buffer) (blogId name : string)
    (ct : option string) :
  touches (resolved_key cdn oldUrl) ["blogs/" +:+ blogId +:+ "/" +:+ name]
    (replaceBlogContent S3_BUCKET cdn oldUrl buf blogId name ct)
  ∧ touches (resolved_key cdn oldUrl)
      ["blogs/" +:+ blogId +:+ "/cover" +:+ extname name]
      (replaceBlogCoverImage S3_BUCKET cdn extname oldUrl buf blogId name ct).
Proof.
  split.
  - unfold replaceBlogContent, uploadBlogContent. apply touches_bind.
    + apply touches_delete_if_present; [|intros; apply touches_ret].
      intros k Hk Ht. by apply resolved_key_elem.
    + intros _. apply touches_uploadFile. left.
  - unfold replaceBlogCoverImage, uploadBlogCoverImage. apply touches_bind.
    + apply touches_delete_if_present; [|intros; apply touches_ret].
      intros k Hk Ht. by apply resolved_key_elem.
    + intros _. apply touches_uploadFile. left.
Qed.

(** ** The cleanup when the store accepts every command *)

Lemma removed_nil w w' : bucket w' = bucket w → removed [] w w'.
Proof.
  intros H k. rewrite H. rewrite bool_decide_eq_false_2; [done|].
  apply not_elem_of_nil.
Qed.

Lemma removed_app l1 l2 w w1 w2 :
  removed l1 w w1 → removed l2 w1 w2 → removed (l1 ++ l2) w w2.
Proof.
  intros H1 H2 k. rewrite H2, H1.
  destruct (bool_decide (k ∈ l2)) eqn:E2, (bool_decide (k ∈ l1)) eqn:E1;
    try apply bool_decide_eq_true in E1; try apply bool_decide_eq_true in E2;
    try apply bool_decide_eq_false in E1; try apply bool_decide_eq_false in E2.
  - rewrite bool_decide_eq_true_2; [done|]. apply elem_of_app. auto.
  - rewrite bool_decide_eq_true_2; [done|]. apply elem_of_app. auto.
  - rewrite bool_decide_eq_true_2; [done|]. apply elem_of_app. auto.
  - rewrite bool_decide_eq_false_2; [done|].
    rewrite elem_of_app. tauto.
Qed.

Lemma removed_one k w w' :
  bucket w' = delete k (bucket w) → removed [k] w w'.
Proof.
  intros H key. rewrite H.
  destruct (decide (key = k)) as [->|Hne].
  - rewrite bool_decide_eq_true_2 by left. apply lookup_delete_eq.
  - rewrite bool_decide_eq_false_2.
    + by apply lookup_delete_ne.
    + intros Hin. apply list_elem_of_singleton in Hin. done.
Qed.

Lemma quiet_logger (msg : string → string) :
  quiet (λ k, logger (LogInfo (msg k))).
Proof. intros k w. unfold logger. eauto. Qed.

Lemma quiet_ret : quiet (λ _, ret ()).
Proof. intros k w. unfold ret. eauto. Qed.

Lemma delete_if_present_run key then_ w :
  s3_faults w = [] → quiet then_ →
  ∃ w', delete_if_present key then_ w = (inr (), w')
        ∧ removed (match key with
                   | Some k => if Js.truthy k then [k] else []
                   | None => []
                   end) w w'
        ∧ s3_faults w' = [].
Proof.
  intros Hf Hq. unfold delete_if_present.
  destruct key as [k|]; [|exists w; split; [done|split; [by apply removed_nil|done]]].
  destruct (Js.truthy k);
    [|exists w; split; [done|split; [by apply removed_nil|done]]].
  unfold bind at 1. rewrite fileExists_run by (rewrite Hf; done).
  destruct (bucket w !! k) as [o|] eqn:Eo.
  - rewrite bool_decide_eq_true_2 by eauto.
    unfold bind at 1.
    unfold deleteFile, try_catch, bind, send, logger, ret, throw.
    simpl. rewrite Hf. simpl.
    match goal with |- context [then_ k ?w0] =>
      destruct (Hq k w0) as (w' & -> & Hb & Hs) end.
    exists w'. split; [done|]. split.
    + apply removed_one. by rewrite Hb.
    + by rewrite Hs.
  - rewrite bool_decide_eq_false_2 by by intros [? ?].
    eexists. split; [reflexivity|]. split.
    + apply removed_one. simpl. by rewrite delete_id.
    + simpl. by rewrite Hf.
Qed.

Lemma for_of_delete_run {A} (l : list A) (f : A → string) then_ w :
  s3_faults w = [] → quiet then_ →
  (∀ x, x ∈ l → Js.truthy (f x) = true) →
  ∃ w', for_of l (λ x, delete_if_present (Some (f x)) then_) w = (inr (), w')
        ∧ removed (f <$> l) w w'
        ∧ s3_faults w' = [].
Proof.
  intros Hf Hq. revert w Hf.
  induction l as [|x l IH]; intros w Hf Ht; simpl.
  - exists w. split; [done|]. split; [by apply removed_nil|done].
  - destruct (delete_if_present_run (Some (f x)) then_ w Hf Hq)
      as (w1 & E1 & R1 & F1).
    rewrite Ht in R1 by left.
    destruct (IH w1 F1) as (w2 & E2 & R2 & F2).
    { intros y Hy. apply Ht. by right. }
    exists w2. split; [|split; [|done]].
    + by erewrite bind_inr by exact E1.
    + exact (removed_app [f x] (f <$> l) w w1 w2 R1 R2).
Qed.

(** X1.  When the store accepts every command, the cleanup returns and the
    bucket has lost exactly its targets: the keys the two locators resolve
    to, or, for a slot without locator, the legacy keys of the slot. *)
Theorem deleteBlogFiles_removes_targets
    (cdn : option string) (blogId : string)
    (contentUrl coverImageUrl : option string) (w : World) :
  s3_faults w = [] →
  ∃ w',
    deleteBlogFiles cdn blogId contentUrl coverImageUrl w = (inr (), w')
    ∧ ∀ k, bucket w' !! k
           = if bool_decide
                  (k ∈ cleanup_targets cdn blogId contentUrl coverImageUrl)
             then None else bucket w !! k.
Proof.
  intros Hf. unfold deleteBlogFiles, cleanup_targets.
  assert (∃ w1,
    (if Js.truthy_opt contentUrl
     then delete_if_present (extractKeyFromUrl cdn contentUrl)
            (λ k, logger (LogInfo ("Deleted content file: " +:+ k)))
     else for_of [ "blogs/" +:+ blogId +:+ "/content.html";
                   "blogs/" +:+ blogId +:+ "/content.md";
                   "blogs/" +:+ blogId +:+ "/content.docx" ]
            (λ key, delete_if_present (Some key)
               (λ k, logger (LogInfo ("Deleted legacy content file: " +:+ k)))))
      w = (inr (), w1)
    ∧ removed (if Js.truthy_opt contentUrl then resolved_key cdn contentUrl
               else legacy_content_keys blogId) w w1
    ∧ s3_faults w1 = []) as (w1 & E1 & R1 & F1).
  { destruct (Js.truthy_opt contentUrl).
    - unfold resolved_key.
      exact (delete_if_present_run (extractKeyFromUrl cdn contentUrl) _ w Hf
               (quiet_logger (String.append "Deleted content file: "))).
    - destruct (for_of_delete_run
                  [ "blogs/" +:+ blogId +:+ "/content.html";
                    "blogs/" +:+ blogId +:+ "/content.md";
                    "blogs/" +:+ blogId +:+ "/content.docx" ]
                  (λ key, key)
                  (λ k, logger (LogInfo ("Deleted legacy content file: " +:+ k)))
                  w Hf (quiet_logger (String.append "Deleted legacy content file: ")))
        as (w1 & E & R & F).
      { intros x Hx.
        repeat (apply elem_of_cons in Hx as [->|Hx]; [reflexivity|]).
        by apply elem_of_nil in Hx. }
      exists w1. rewrite list_fmap_id in R. done. }
  assert (∃ w2,
    (if Js.truthy_opt coverImageUrl
     then delete_if_present (extractKeyFromUrl cdn coverImageUrl)
            (λ k, logger (LogInfo ("Deleted cover image: " +:+ k)))
     else for_of [".jpg"; ".jpeg"; ".png"; ".webp"; ".gif"; ".svg"]
            (λ ext, delete_if_present
               (Some ("blogs/" +:+ blogId +:+ "/cover" +:+ ext))
               (λ k, logger (LogInfo ("Deleted legacy cover image: " +:+ k)))))
      w1 = (inr (), w2)
    ∧ removed (if Js.truthy_opt coverImageUrl then resolved_key cdn coverImageUrl
               else legacy_cover_keys blogId) w1 w2
    ∧ s3_faults w2 = []) as (w2 & E2 & R2 & F2).
  { destruct (Js.truthy_opt coverImageUrl).
    - unfold resolved_key.
      exact (delete_if_present_run (extractKeyFromUrl cdn coverImageUrl) _ w1 F1
               (quiet_logger (String.append "Deleted cover image: "))).
    - apply (for_of_delete_run
               [".jpg"; ".jpeg"; ".png"; ".webp"; ".gif"; ".svg"]
               (λ ext, "blogs/" +:+ blogId +:+ "/cover" +:+ ext)
               (λ k, logger (LogInfo ("Deleted legacy cover image: " +:+ k)))
               w1 F1 (quiet_logger (String.append "Deleted legacy cover image: "))).
      by intros x _. }
  eexists. split.
  - erewrite try_catch_inr; [reflexivity|].
    erewrite bind_inr by exact E1.
    erewrite bind_inr by exact E2.
    reflexivity.
  - intros k. simpl.
    exact (removed_app _ _ w w1 w2 R1 R2 k).
Qed.

Lemma deleteBlogFiles_removes_targets_witness :
  ∃ w',
    deleteBlogFiles None "1"
      (Some "s3://beyondmoksha.com/blogs/1/text/html") None sample_world
    = (inr (), w')
    ∧ ∀ k, bucket w' !! k
           = if bool_decide
                  (k ∈ cleanup_targets None "1"
                         (Some "s3://beyondmoksha.com/blogs/1/text/html") None)
             then None else bucket sample_world !! k.
Proof.
  apply (deleteBlogFiles_removes_targets None "1"
           (Some "s3://beyondmoksha.com/blogs/1/text/html") None sample_world).
  reflexivity.
Defined.


(** ** Replacement *)

(** X2.  The replacement of the cover, when the store accepts every
    command: for an old key that can be extracted and differs from the new
    key [blogs/<blogId>/cover<extension>], the old key is checked and, when
    it is present, deleted before the upload; it is gone afterwards, the new
    key holds the new image, and the [s3://] locator of the new key is
    returned. *)
Theorem replaceBlogCoverImage_fresh_key
    (S3_BUCKET : string) (cdn : option string) (extname : string → string)
    (oldUrl : option string) (buf : Buffer) (blogId name : string)
    (ct : option string) (w : World) (oldKey : string) :
  s3_faults w = [] →
  extractKeyFromUrl cdn oldUrl = Some oldKey →
  Js.truthy oldKey = true →
  oldKey ≠ "blogs/" +:+ blogId +:+ "/cover" +:+ extname name →
  ∃ w',
    replaceBlogCoverImage S3_BUCKET cdn extname oldUrl buf blogId name ct w
    = (inr ("s3://" +:+ S3_BUCKET +:+ "/" +:+ "blogs/" +:+ blogId
            +:+ "/cover" +:+ extname name), w')
    ∧ bucket w' !! oldKey = None
    ∧ bucket w' !! ("blogs/" +:+ blogId +:+ "/cover" +:+ extname name)
      = Some {| Body := buf; ContentType := ct |}
    ∧ s3_sent w'
      = s3_sent w
        ++ [HeadObjectCommand oldKey]
        ++ (if bool_decide (is_Some (bucket w !! oldKey))
            then [DeleteObjectCommand oldKey] else [])
        ++ [PutObjectCommand
              ("blogs/" +:+ blogId +:+ "/cover" +:+ extname name) buf ct].
Proof.
  intros Hf Hx Ht Hne.
  unfold replaceBlogCoverImage, uploadBlogCoverImage. rewrite Hx.
  unfold delete_if_present. rewrite Ht.
  unfold bind at 1. unfold bind at 1.
  rewrite fileExists_run by (rewrite Hf; done).
  destruct (bucket w !! oldKey) as [o|] eqn:Eo.
  - rewrite bool_decide_eq_true_2 by eauto.
    unfold deleteFile, uploadFile, try_catch, bind, send, logger, ret, throw.
    simpl. rewrite Hf. simpl.
    eexists. split; [reflexivity|]. simpl.
    rewrite lookup_insert_ne, lookup_delete_eq, lookup_insert_eq by done.
    by rewrite <- !app_assoc.
  - rewrite bool_decide_eq_false_2 by by intros [? ?].
    unfold uploadFile, try_catch, bind, send, logger, ret, throw.
    simpl. rewrite Hf. simpl.
    eexists. split; [reflexivity|]. simpl.
    rewrite lookup_insert_ne, lookup_insert_eq by done.
    by rewrite <- !app_assoc.
Qed.

Lemma replaceBlogCoverImage_fresh_key_witness :
  ∃ w',
    replaceBlogCoverImage "beyondmoksha.com" None posix_extname
      (Some "s3://beyondmoksha.com/blogs/1/text/html") "png" "1" "photo.png"
      (Some "image/png") sample_world
    = (inr "s3://beyondmoksha.com/blogs/1/cover.png", w')
    ∧ bucket w' !! "blogs/1/text/html" = None
    ∧ bucket w' !! "blogs/1/cover.png"
      = Some {| Body := "png"; ContentType := Some "image/png" |}
    ∧ s3_sent w'
      = [HeadObjectCommand "blogs/1/text/html";
         DeleteObjectCommand "blogs/1/text/html";
         PutObjectCommand "blogs/1/cover.png" "png" (Some "image/png")].
Proof.
  apply (replaceBlogCoverImage_fresh_key "beyondmoksha.com" None posix_extname
           (Some "s3://beyondmoksha.com/blogs/1/text/html") "png" "1"
           "photo.png" (Some "image/png") sample_world "blogs/1/text/html");
    [reflexivity|reflexivity|reflexivity|discriminate].
Defined.

(** X3.  A replacement is not best-effort about the old object: when the
    old object exists and the store rejects its deletion, the replacement
    of the content or of the cover throws [Failed to delete file from S3],
    sends no upload, and leaves the bucket as it was. *)
Theorem replacement_stops_when_delete_is_rejected
    (S3_BUCKET : string) (cdn : option string) (extname : string → string)
    (oldUrl : option string) (buf : Buffer) (blogId name : string)
    (ct : option string) (w : World) (oldKey : string) (o : S3Object)
    (e : JsError) (rest : list (option JsError)) :
  extractKeyFromUrl cdn oldUrl = Some oldKey →
  Js.truthy oldKey = true →
  bucket w !! oldKey = Some o →
  s3_faults w = None :: Some e :: rest →
  (∃ w',
     replaceBlogContent S3_BUCKET cdn oldUrl buf blogId name ct w
     = (inl (Error ("Failed to delete file from S3: " +:+ err_message e)), w')
     ∧ bucket w' = bucket w
     ∧ s3_sent w' = s3_sent w ++ [HeadObjectCommand oldKey;
                                  DeleteObjectCommand oldKey])
  ∧ (∃ w',
       replaceBlogCoverImage S3_BUCKET cdn extname oldUrl buf blogId name ct w
       = (inl (Error ("Failed to delete file from S3: " +:+ err_message e)), w')
       ∧ bucket w' = bucket w
       ∧ s3_sent w' = s3_sent w ++ [HeadObjectCommand oldKey;
                                    DeleteObjectCommand oldKey]).
Proof.
  intros Hx Ht Ho Hf.
  assert (Hhead : ∀ e0, head (s3_faults w) ≠ Some (Some e0))
    by (rewrite Hf; done).
  split.
  - unfold replaceBlogContent. rewrite Hx.
    unfold delete_if_present. rewrite Ht.
    unfold bind at 1. unfold bind at 1.
    rewrite (fileExists_run _ _ Hhead). rewrite Ho.
    rewrite bool_decide_eq_true_2 by eauto.
    unfold deleteFile, try_catch, bind, send, logger, ret, throw.
    simpl. rewrite Hf. simpl.
    eexists. split; [reflexivity|]. simpl. split; [done|].
    by rewrite <- app_assoc.
  - unfold replaceBlogCoverImage. rewrite Hx.
    unfold delete_if_present. rewrite Ht.
    unfold bind at 1. unfold bind at 1.
    rewrite (fileExists_run _ _ Hhead). rewrite Ho.
    rewrite bool_decide_eq_true_2 by eauto.
    unfold deleteFile, try_catch, bind, send, logger, ret, throw.
    simpl. rewrite Hf. simpl.
    eexists. split; [reflexivity|]. simpl. split; [done|].
    by rewrite <- app_assoc.
Qed.

Lemma replacement_stops_when_delete_is_rejected_witness :
  ∃ w',
    replaceBlogContent "beyondmoksha.com" None
      (Some "s3://beyondmoksha.com/blogs/1/text/html") "<p>new</p>" "1"
      "guide.docx" None world_rejecting_delete
    = (inl (Error "Failed to delete file from S3: Access Denied"), w')
    ∧ bucket w' = bucket world_rejecting_delete
    ∧ s3_sent w' = [HeadObjectCommand "blogs/1/text/html";
                    DeleteObjectCommand "blogs/1/text/html"].
Proof.
  exact (proj1 (replacement_stops_when_delete_is_rejected "beyondmoksha.com"
                  None posix_extname
                  (Some "s3://beyondmoksha.com/blogs/1/text/html") "<p>new</p>"
                  "1" "guide.docx" None world_rejecting_delete
                  "blogs/1/text/html"
                  {| Body := "<p>old</p>"; ContentType := None |}
                  (Error "Access Denied") []
                  eq_refl eq_refl eq_refl eq_refl)).
Defined.

(** ** Permanent deletion and the bucket *)

Lemma call_same_bucket {A} (op : M A) :
  (∀ w, bucket (op w).2 = bucket w) → ∀ w, bucket (prisma.call op w).2 = bucket w.
Proof.
  intros H w. unfold prisma.call.
  destruct (head (db_faults w)) as [[e|]|]; [done|..]; by rewrite H.
Qed.

Lemma findUnique_id_same_bucket i w :
  bucket (prisma.findUnique_id i w).2 = bucket w.
Proof. unfold prisma.findUnique_id. by apply call_same_bucket. Qed.

Lemma findUnique_slug_same_bucket s w :
  bucket (prisma.findUnique_slug s w).2 = bucket w.
Proof. unfold prisma.findUnique_slug. by apply call_same_bucket. Qed.

Lemma delete_same_bucket i w : bucket (prisma.delete i w).2 = bucket w.
Proof.
  unfold prisma.delete. apply call_same_bucket. intros w0.
  by destruct (find (prisma.has_id i) (blogs w0)).
Qed.

Lemma update_same_bucket i d w : bucket (prisma.update i d w).2 = bucket w.
Proof.
  unfold prisma.update. apply call_same_bucket. intros w0.
  destruct (find (prisma.has_id i) (blogs w0)); [|done].
  destruct (bool_decide (upd_tags d = Some None)); [done|].
  by destruct (match upd_slug d with Some s => _ | None => false end).
Qed.

Lemma create_same_bucket d w : bucket (prisma.create d w).2 = bucket w.
Proof.
  unfold prisma.create. apply call_same_bucket. intros w0.
  by destruct (prisma.slug_taken None (prisma.new_slug d) (blogs w0)).
Qed.

Lemma touches_cleanup_then_delete gone (cdn : option string) (ref : string)
    (blogId : Z) h :
  cleanup_targets cdn ref None None ⊆ gone →
  (∀ e, touches gone [] (h e)) →
  touches gone []
    (try_catch
       (deleteBlogFiles cdn ref None None ;;;
        prisma.delete blogId ;;;
        respond 200 true (Some "Blog permanently deleted") NoData) h).
Proof.
  intros Hsub Hh. apply touches_try_catch; [|done].
  apply touches_bind.
  - eapply touches_mono; [exact Hsub|done|].
    apply touches_deleteBlogFiles.
  - intros _. apply touches_bind.
    + apply touches_of_same_bucket, delete_same_bucket.
    + intros _. apply touches_ret.
Qed.

Lemma try_catch_bind_inr {A B} (c : M A) (k : A → M B) h w a w1 :
  c w = (inr a, w1) → try_catch (bind c k) h w = try_catch (k a) h w1.
Proof. intros H. unfold try_catch, bind. by rewrite H. Qed.

Lemma try_catch_bind_inl {A B} (c : M A) (k : A → M B) h w e w1 :
  c w = (inl e, w1) → try_catch (bind c k) h w = h e w1.
Proof. intros H. unfold try_catch, bind. by rewrite H. Qed.

(** X4.  Whatever the store does to its commands, the cleanup writes
    nothing and deletes nothing but its targets: every key of the bucket is
    left as it was, or is a target and absent afterwards. *)
Theorem deleteBlogFiles_writes_nothing
    (cdn : option string) (blogId : string)
    (contentUrl coverImageUrl : option string) (w : World) (k : string) :
  bucket (deleteBlogFiles cdn blogId contentUrl coverImageUrl w).2 !! k
  = bucket w !! k
  ∨ (k ∈ cleanup_targets cdn blogId contentUrl coverImageUrl
     ∧ bucket (deleteBlogFiles cdn blogId contentUrl coverImageUrl w).2 !! k
       = None).
Proof.
  destruct (touches_deleteBlogFiles cdn blogId contentUrl coverImageUrl w k)
    as [H|[H|[H _]]]; [by left|by right|].
  by apply elem_of_nil in H.
Qed.

(** X5.  Whatever the store does, a replacement of the content or of the
    cover leaves alone every key other than the key extracted from the old
    locator and the new key; the old key it can only delete and the new key
    it can only write. *)
Theorem replacement_touches_old_and_new_key
    (S3_BUCKET : string) (cdn : option string) (extname : string → string)
    (oldUrl : option string) (buf : Buffer) (blogId name : string)
    (ct : option string) (w : World) (k : string) :
  (bucket (replaceBlogContent S3_BUCKET cdn oldUrl buf blogId name ct w).2 !! k
   = bucket w !! k
   ∨ (extractKeyFromUrl cdn oldUrl = Some k
      ∧ bucket (replaceBlogContent S3_BUCKET cdn oldUrl buf blogId name ct w).2
          !! k = None)
   ∨ (k = "blogs/" +:+ blogId +:+ "/" +:+ name
      ∧ is_Some (bucket (replaceBlogContent S3_BUCKET cdn oldUrl buf blogId
                           name ct w).2 !! k)))
  ∧ (bucket (replaceBlogCoverImage S3_BUCKET cdn extname oldUrl buf blogId
               name ct w).2 !! k
     = bucket w !! k
     ∨ (extractKeyFromUrl cdn oldUrl = Some k
        ∧ bucket (replaceBlogCoverImage S3_BUCKET cdn extname oldUrl buf
                    blogId name ct w).2 !! k = None)
     ∨ (k = "blogs/" +:+ blogId +:+ "/cover" +:+ extname name
        ∧ is_Some (bucket (replaceBlogCoverImage S3_BUCKET cdn extname oldUrl
                             buf blogId name ct w).2 !! k))).
Proof.
  assert (Hold : k ∈ resolved_key cdn oldUrl → extractKeyFromUrl cdn oldUrl = Some k).
  { unfold resolved_key. destruct (extractKeyFromUrl cdn oldUrl) as [k0|].
    - destruct (Js.truthy k0).
      + by intros ->%list_elem_of_singleton.
      + by intros ?%elem_of_nil.
    - by intros ?%elem_of_nil. }
  destruct (touches_replacement S3_BUCKET cdn extname oldUrl buf blogId name ct)
    as [H1 H2].
  split.
  - destruct (H1 w k) as [H|[[Hin H]|[Hin H]]]; [by left|right; left; auto|].
    right; right. by apply list_elem_of_singleton in Hin.
  - destruct (H2 w k) as [H|[[Hin H]|[Hin H]]]; [by left|right; left; auto|].
    right; right. by apply list_elem_of_singleton in Hin.
Qed.

(** X6.  The permanent deletion never consults the locators of the row: in
    both controllers it leaves alone every key that is not one of the nine
    legacy keys of the blog ([content.html], [content.md], [content.docx]
    and [cover] with six image extensions, under the id or under the slug),
    whatever the store and the database do.  An object stored under any
    other name stays in the bucket. *)
Theorem permanentDeleteBlog_leaves_other_keys
    (cdn : option string) (blogId : Z) (w : World) (k : string) :
  (bool_decide (k ∈ cleanup_targets cdn (pretty blogId) None None) = false →
   bucket (IdKeyed.permanentDeleteBlog cdn blogId w).2 !! k = bucket w !! k)
  ∧ (∀ blog,
       find (prisma.has_id blogId) (blogs w) = Some blog →
       bool_decide (k ∈ cleanup_targets cdn (slug blog) None None) = false →
       bucket (SlugKeyed.permanentDeleteBlog cdn blogId w).2 !! k
       = bucket w !! k).
Proof.
  split.
  - intros Hk%bool_decide_eq_false. unfold IdKeyed.permanentDeleteBlog.
    destruct (prisma.findUnique_id blogId w) as [[e|found] w1] eqn:E1.
    + erewrite try_catch_bind_inl by exact E1.
      pose proof (findUnique_id_same_bucket blogId w) as Hb.
      rewrite E1 in Hb. simpl in *. by rewrite Hb.
    + erewrite try_catch_bind_inr by exact E1.
      pose proof (findUnique_id_same_bucket blogId w) as Hb.
      rewrite E1 in Hb. simpl in Hb. rewrite <- Hb.
      destruct found as [b|]; [|done].
      match goal with |- bucket (?c w1).2 !! k = _ =>
        assert (Ht : touches (cleanup_targets cdn (pretty blogId) None None) [] c)
      end.
      { apply touches_cleanup_then_delete; [done|].
        intros e. apply touches_bind; [apply touches_logger|].
        intros _. apply touches_ret. }
      destruct (Ht w1 k) as [H|[[H _]|[H _]]]; [done|done|].
      by apply elem_of_nil in H.
  - intros blog Hfind Hk%bool_decide_eq_false.
    unfold SlugKeyed.permanentDeleteBlog.
    destruct (prisma.findUnique_id blogId w) as [[e|found] w1] eqn:E1.
    + erewrite try_catch_bind_inl by exact E1.
      pose proof (findUnique_id_same_bucket blogId w) as Hb.
      rewrite E1 in Hb. simpl in *. by rewrite Hb.
    + erewrite try_catch_bind_inr by exact E1.
      pose proof (findUnique_id_same_bucket blogId w) as Hb.
      rewrite E1 in Hb. simpl in Hb. rewrite <- Hb.
      apply findUnique_id_returns in E1. rewrite Hfind in E1. subst found.
      match goal with |- bucket (?c w1).2 !! k = _ =>
        assert (Ht : touches (cleanup_targets cdn (slug blog) None None) [] c)
      end.
      { apply touches_cleanup_then_delete; [done|].
        intros e. apply touches_bind; [apply touches_logger|].
        intros _. apply touches_ret. }
      destruct (Ht w1 k) as [H|[[H _]|[H _]]]; [done|done|].
      by apply elem_of_nil in H.
Qed.

Lemma permanentDeleteBlog_leaves_other_keys_witness :
  bucket (IdKeyed.permanentDeleteBlog None 1 sample_world).2
    !! "blogs/1/text/html"
  = bucket sample_world !! "blogs/1/text/html"
  ∧ bucket (SlugKeyed.permanentDeleteBlog None 1 sample_world).2
      !! "blogs/1/text/html"
    = bucket sample_world !! "blogs/1/text/html".
Proof.
  destruct (permanentDeleteBlog_leaves_other_keys None 1 sample_world
              "blogs/1/text/html") as [H1 H2].
  split; [exact (H1 eq_refl)|exact (H2 sample_blog eq_refl eq_refl)].
Defined.

(** ** From an upload to a signed URL *)

(** X7.  For the locator a successful upload returns for a non-empty key,
    the issuer signs exactly that key of the bucket, whatever the CDN base
    is; the bucket name is non-empty and has no slash. *)
Theorem issuer_signs_uploaded_key
    (S3_BUCKET : string) (cdn : option string)
    (getSignedUrl : string → string → Z → JsError + string)
    (buf : Buffer) (key : string) (ct : option string)
    (w w1 w2 : World) (locator : string) (ttl : Z) :
  Js.truthy S3_BUCKET = true → slash_free S3_BUCKET = true →
  Js.truthy key = true →
  uploadFile S3_BUCKET buf key ct w = (inr locator, w1) →
  (generatePresignedUrl S3_BUCKET cdn getSignedUrl (Some locator) ttl w2).1
  = match getSignedUrl S3_BUCKET key ttl with
    | inr url => inr url
    | inl e => inl (Error ("Failed to generate presigned URL: " +:+ err_message e))
    end.
Proof.
  intros Hb Hs Hk Hup.
  pose proof (uploadFile_returns S3_BUCKET buf key ct w) as Hloc.
  rewrite Hup in Hloc. simpl in Hloc. subst locator.
  unfold generatePresignedUrl.
  assert (extractS3Key cdn (Some ("s3://" +:+ S3_BUCKET +:+ "/" +:+ key))
          = Some key) as ->.
  { unfold extractS3Key.
    change (Js.truthy ("s3://" +:+ S3_BUCKET +:+ "/" +:+ key)) with true.
    rewrite startsWith_app. simpl.
    by rewrite replace_s3_authority_canonical. }
  unfold Js.or_else. rewrite Hk.
  unfold try_catch, bind, logger, ret, throw. simpl. rewrite Hk. simpl.
  by destruct (getSignedUrl S3_BUCKET key ttl).
Qed.

Lemma issuer_signs_uploaded_key_witness :
  (generatePresignedUrl "beyondmoksha.com" (Some "https://cdn.example.com")
     sample_signer (Some "s3://beyondmoksha.com/blogs/7/cover.png") 300
     empty_world).1
  = inr "https://beyondmoksha.com.s3.amazonaws.com/blogs/7/cover.png?X-Amz-Expires=300".
Proof.
  exact (issuer_signs_uploaded_key "beyondmoksha.com"
           (Some "https://cdn.example.com") sample_signer "png"
           "blogs/7/cover.png" (Some "image/png") empty_world _ empty_world
           "s3://beyondmoksha.com/blogs/7/cover.png" 300
           eq_refl eq_refl eq_refl eq_refl).
Defined.

(** ** Handlers that leave the store alone *)

Lemma keeps_store_ret {A} (a : A) : keeps_store (ret a).
Proof. by intros w. Qed.

Lemma keeps_store_throw {A} e : keeps_store (@throw A e).
Proof. by intros w. Qed.

Lemma keeps_store_logger e : keeps_store (logger e).
Proof. by intros w. Qed.

Lemma keeps_store_lift {A} (r : JsError + A) : keeps_store (lift r).
Proof. by destruct r. Qed.

Lemma keeps_store_now : keeps_store now.
Proof. by intros w. Qed.

Lemma keeps_store_bind {A B} (c : M A) (k : A → M B) :
  keeps_store c → (∀ a, keeps_store (k a)) → keeps_store (bind c k).
Proof.
  intros Hc Hk w. unfold bind. specialize (Hc w).
  destruct (c w) as [[e|a] w1]; simpl in *; [done|].
  destruct (Hk a w1) as (H1 & H2 & H3), Hc as (G1 & G2 & G3).
  repeat split; congruence.
Qed.

Lemma keeps_store_try_catch {A} (c : M A) h :
  keeps_store c → (∀ e, keeps_store (h e)) → keeps_store (try_catch c h).
Proof.
  intros Hc Hh w. unfold try_catch. specialize (Hc w).
  destruct (c w) as [[e|a] w1]; simpl in *; [|done].
  destruct (Hh e w1) as (H1 & H2 & H3), Hc as (G1 & G2 & G3).
  repeat split; congruence.
Qed.

Lemma keeps_store_detached {A} (c : M A) h :
  keeps_store c → (∀ e, keeps_store (h e)) → keeps_store (detached c h).
Proof.
  intros Hc Hh w. unfold detached. specialize (Hc w).
  destruct (c w) as [[e|a] w1]; simpl in *; [|done].
  destruct (Hh e w1) as (H1 & H2 & H3), Hc as (G1 & G2 & G3).
  repeat split; congruence.
Qed.

Lemma keeps_store_if {A} (b : bool) (c1 c2 : M A) :
  keeps_store c1 → keeps_store c2 → keeps_store (if b then c1 else c2).
Proof. by destruct b. Qed.

Lemma keeps_store_call {A} (op : M A) :
  (∀ w, (op w).2 = w ∨ ∃ rows nid fs, (op w).2 = with_db rows nid fs w) →
  keeps_store (prisma.call op).
Proof.
  intros H w. unfold prisma.call.
  destruct (head (db_faults w)) as [[e|]|]; [done|..];
    (match goal with |- context [op ?w0] =>
       destruct (H w0) as [->|(rows & nid & fs & ->)] end; done).
Qed.

Lemma keeps_store_findUnique_id i : keeps_store (prisma.findUnique_id i).
Proof. apply keeps_store_call. intros w. by left. Qed.

Lemma keeps_store_findUnique_slug s : keeps_store (prisma.findUnique_slug s).
Proof. apply keeps_store_call. intros w. by left. Qed.

Lemma keeps_store_update i d : keeps_store (prisma.update i d).
Proof.
  apply keeps_store_call. intros w.
  destruct (find (prisma.has_id i) (blogs w)); [|by left].
  destruct (bool_decide (upd_tags d = Some None)); [by left|].
  destruct (match upd_slug d with Some s => _ | None => false end);
    [by left|right; eauto].
Qed.

Lemma keeps_store_findMany contains where_ skip take_ :
  keeps_store (prisma.findMany contains where_ skip take_).
Proof. apply keeps_store_call. intros w. by left. Qed.

Lemma keeps_store_findMany_top contains where_ order take_ :
  keeps_store (prisma.findMany_top contains where_ order take_).
Proof. apply keeps_store_call. intros w. by left. Qed.

Lemma keeps_store_count contains where_ :
  keeps_store (prisma.count contains where_).
Proof. apply keeps_store_call. intros w. by left. Qed.

Create HintDb store.
#[local] Hint Resolve keeps_store_ret keeps_store_throw keeps_store_logger
  keeps_store_lift keeps_store_now keeps_store_bind keeps_store_try_catch
  keeps_store_detached keeps_store_if keeps_store_findUnique_id
  keeps_store_findUnique_slug keeps_store_update keeps_store_findMany
  keeps_store_findMany_top keeps_store_count : store.

Lemma keeps_store_respond c ok msg d : keeps_store (respond c ok msg d).
Proof. apply keeps_store_ret. Qed.

#[local] Hint Resolve keeps_store_respond : store.

Lemma keeps_store_deleteBlog_id blogId : keeps_store (IdKeyed.deleteBlog blogId).
Proof.
  unfold IdKeyed.deleteBlog, IdKeyed.not_found.
  apply keeps_store_try_catch; [|auto with store].
  apply keeps_store_bind; [auto with store|]. intros [b|]; [|auto with store].
  apply keeps_store_if; auto 10 with store.
Qed.

Lemma keeps_store_deleteBlog_slug blogId :
  keeps_store (SlugKeyed.deleteBlog blogId).
Proof.
  unfold SlugKeyed.deleteBlog, SlugKeyed.not_found.
  apply keeps_store_try_catch; [|auto with store].
  apply keeps_store_bind; [auto with store|]. intros [b|]; [|auto with store].
  apply keeps_store_if; auto 10 with store.
Qed.

(** ** Pagination *)

Lemma totalPages_bounds total limit :
  0 < limit →
  (totalPages total limit - 1) * limit < total ≤ totalPages total limit * limit.
Proof.
  intros Hl. unfold totalPages.
  pose proof (Z.div_mod (- total) limit ltac:(lia)) as Hdm.
  pose proof (Z.mod_pos_bound (- total) limit Hl) as Hm.
  nia.
Qed.



(** ** Rows that are not there *)

Lemma call_run_quiet {A} (op : M A) w :
  db_faults w = [] → prisma.call op w = op w.
Proof.
  intros H. rewrite call_run by (rewrite H; done).
  f_equal. rewrite H. simpl. rewrite <- H. apply with_db_same.
Qed.

Lemma findUnique_id_run i w :
  db_faults w = [] →
  prisma.findUnique_id i w = (inr (find (prisma.has_id i) (blogs w)), w).
Proof. intros H. unfold prisma.findUnique_id. by rewrite call_run_quiet. Qed.

Lemma findUnique_slug_run s w :
  db_faults w = [] →
  prisma.findUnique_slug s w = (inr (find (prisma.has_slug s) (blogs w)), w).
Proof. intros H. unfold prisma.findUnique_slug. by rewrite call_run_quiet. Qed.

Lemma update_run i d w b :
  db_faults w = [] →
  find (prisma.has_id i) (blogs w) = Some b →
  upd_tags d ≠ Some None → upd_slug d = None →
  prisma.update i d w
  = (inr (apply_update (clock w) d b),
     with_db (prisma.replace_row (apply_update (clock w) d b) (blogs w))
       (next_id w) (db_faults w) w).
Proof.
  intros Hdb Hfind Htags Hslug. unfold prisma.update.
  rewrite call_run_quiet by done. rewrite Hfind, Hslug.
  by rewrite bool_decide_eq_false_2.
Qed.

Ltac hidden_row Hdb Hvis :=
  erewrite try_catch_inr; [reflexivity|];
  first [ erewrite bind_inr by (by apply findUnique_id_run)
        | erewrite bind_inr by (by apply findUnique_slug_run) ];
  unfold visible_by_id, visible_by_slug in Hvis;
  match type of Hvis with
  | context [find ?f ?l] =>
      let b := fresh "b" in
      destruct (find f l) as [b|]; [|reflexivity];
      destruct (bool_decide (deletedAt b ≠ None));
        [reflexivity|discriminate Hvis]
  end.

(** X9.  For an id that has no row, or whose row is soft-deleted, the read
    by id, the content read, the update and the soft delete of the id-keyed
    controller answer 404 and change nothing: no row, no object, no command
    sent.  The database answers the lookup. *)
Theorem hidden_id_answers_404
    (S3_BUCKET : string) (cdn : option string) (extname : string → string)
    (getSignedUrl : string → string → Z → JsError + string)
    (sanitizeHTMLToBuffer : Buffer → JsError + Buffer)
    (JSON_parse : string → JsError + option (list string))
    (blogId : Z) (req : IdKeyed.UpdateRequest) (w : World) :
  db_faults w = [] →
  visible_by_id blogId w = None →
  IdKeyed.params_id req = blogId →
  IdKeyed.getBlogById blogId w = (inr answer_404, w)
  ∧ IdKeyed.getBlogContent S3_BUCKET cdn getSignedUrl blogId w
    = (inr answer_404, w)
  ∧ IdKeyed.updateBlog S3_BUCKET cdn extname sanitizeHTMLToBuffer JSON_parse
      req w = (inr answer_404, w)
  ∧ IdKeyed.deleteBlog blogId w = (inr answer_404, w).
Proof.
  intros Hdb Hvis Hreq. repeat split.
  - unfold IdKeyed.getBlogById. hidden_row Hdb Hvis.
  - unfold IdKeyed.getBlogContent. hidden_row Hdb Hvis.
  - unfold IdKeyed.updateBlog. rewrite Hreq. hidden_row Hdb Hvis.
  - unfold IdKeyed.deleteBlog. hidden_row Hdb Hvis.
Qed.

Lemma hidden_id_answers_404_witness :
  IdKeyed.updateBlog "beyondmoksha.com" None posix_extname identity_sanitizer
    no_json sample_update world_of_deleted = (inr answer_404, world_of_deleted).
Proof.
  apply (hidden_id_answers_404 "beyondmoksha.com" None posix_extname
           sample_signer identity_sanitizer no_json 1 sample_update
           world_of_deleted); reflexivity.
Defined.

Lemma find_some_holds {A} (f : A → bool) l a :
  find f l = Some a → f a = true.
Proof.
  induction l as [|x l IH]; simpl; [done|].
  destruct (f x) eqn:E; [by intros [= <-]|exact IH].
Qed.

Lemma existsb_replace_row (f : Blog → bool) b' rows b :
  find (prisma.has_id (id b')) rows = Some b → f b' = true →
  existsb f (prisma.replace_row b' rows) = true.
Proof.
  unfold prisma.replace_row. intros Hfind Hf.
  induction rows as [|r rows IH]; simpl in *; [done|].
  destruct (prisma.has_id (id b') r) eqn:E.
  - by rewrite Hf.
  - rewrite (IH Hfind). apply orb_true_r.
Qed.

(** The row found by slug and by id stays the row found by slug when it is
    replaced by a row of the same slug. *)
Lemma find_slug_replace_row s b' rows b :
  find (prisma.has_slug s) rows = Some b →
  find (prisma.has_id (id b')) rows = Some b →
  prisma.has_slug s b' = true →
  find (prisma.has_slug s) (prisma.replace_row b' rows) = Some b'.
Proof.
  unfold prisma.replace_row. intros Hs Hi Hb'.
  induction rows as [|r rows IH]; simpl in *; [done|].
  destruct (prisma.has_slug s r) eqn:Es, (prisma.has_id (id b') r) eqn:Ei.
  - by rewrite Hb'.
  - injection Hs as <-. apply find_some_holds in Hi. congruence.
  - injection Hi as <-. apply find_some_holds in Hs. congruence.
  - rewrite Es. by apply IH.
Qed.

Lemma createBlog_conflict_run
    (S3_BUCKET : string) (extname : string → string)
    (sanitizeHTMLToBuffer : Buffer → JsError + Buffer)
    (validateHTMLStructure : Buffer → list string)
    (JSON_parse : string → JsError + option (list string))
    (trim : string → string) (req : SlugKeyed.CreateRequest) (w : World) :
  existsb (prisma.has_slug (SlugKeyed.create_slug req)) (blogs w) = true →
  db_faults w = [] →
  SlugKeyed.createBlog S3_BUCKET extname sanitizeHTMLToBuffer
    validateHTMLStructure JSON_parse trim req w
  = (inr {| code := 409; success := false;
            message := Some "A blog with this slug already exists";
            data := NoData |}, w).
Proof.
  intros Hrow Hdb.
  apply find_of_existsb in Hrow as (b & Hfind & _).
  unfold SlugKeyed.createBlog.
  erewrite try_catch_inr; [reflexivity|].
  erewrite bind_inr by (by apply findUnique_slug_run).
  by rewrite Hfind.
Qed.

(** X10.  The soft delete of a visible row, the database answering:
    both controllers answer 200, send nothing to the store and leave every
    object in place; the row keeps all its columns but [deletedAt] and
    [updatedAt], which take the date of the call.  Afterwards the id is no
    longer visible, the slug is still taken, so a create with it answers
    409, and, for a row that its slug finds, the slug is no longer
    visible. *)
Theorem soft_delete_hides_the_row
    (S3_BUCKET : string) (extname : string → string)
    (sanitizeHTMLToBuffer : Buffer → JsError + Buffer)
    (validateHTMLStructure : Buffer → list string)
    (JSON_parse : string → JsError + option (list string))
    (trim : string → string)
    (blogId : Z) (w : World) (b : Blog) (req : SlugKeyed.CreateRequest) :
  db_faults w = [] →
  visible_by_id blogId w = Some b →
  SlugKeyed.create_slug req = slug b →
  ∃ w',
    IdKeyed.deleteBlog blogId w
    = (inr {| code := 200; success := true;
              message := Some "Blog deleted successfully"; data := NoData |}, w')
    ∧ SlugKeyed.deleteBlog blogId w = IdKeyed.deleteBlog blogId w
    ∧ bucket w' = bucket w ∧ s3_sent w' = s3_sent w
    ∧ find (prisma.has_id blogId) (blogs w') = Some (soft_deleted (clock w) b)
    ∧ visible_by_id blogId w' = None
    ∧ answered (SlugKeyed.createBlog S3_BUCKET extname sanitizeHTMLToBuffer
                  validateHTMLStructure JSON_parse trim req w').1 = Some 409
    ∧ (find (prisma.has_slug (slug b)) (blogs w) = Some b →
       visible_by_slug (slug b) w' = None).
Proof.
  intros Hdb Hvis Hreq. unfold visible_by_id in Hvis.
  destruct (find (prisma.has_id blogId) (blogs w)) as [b0|] eqn:Hfind; [|done].
  destruct (bool_decide (deletedAt b0 ≠ None)) eqn:Hdel; [done|].
  injection Hvis as ->.
  assert (Hid : id b = blogId).
  { apply find_some_holds in Hfind. unfold prisma.has_id in Hfind. lia. }
  set (b' := soft_deleted (clock w) b).
  set (w' := with_db (prisma.replace_row b' (blogs w)) (next_id w)
               (db_faults w) w).
  assert (Hrun : IdKeyed.deleteBlog blogId w
                 = (inr {| code := 200; success := true;
                           message := Some "Blog deleted successfully";
                           data := NoData |}, w')).
  { unfold IdKeyed.deleteBlog.
    erewrite try_catch_inr; [reflexivity|].
    erewrite bind_inr by (by apply findUnique_id_run).
    rewrite Hfind, Hdel. unfold now at 1. unfold bind at 1.
    erewrite bind_inr; [reflexivity|].
    by apply update_run. }
  assert (Hfind' : find (prisma.has_id blogId) (blogs w') = Some b').
  { simpl. rewrite <- Hid.
    change (id b) with (id b'). apply (find_replace_row b' (blogs w) b).
    change (id b') with (id b). by rewrite Hid. }
  exists w'. split; [exact Hrun|]. split; [reflexivity|].
  split; [done|]. split; [done|]. split; [exact Hfind'|]. split.
  - unfold visible_by_id. by rewrite Hfind'.
  - split.
    + rewrite createBlog_conflict_run; [done| |done].
      rewrite Hreq. simpl.
      apply (existsb_replace_row _ b' (blogs w) b).
      * change (id b') with (id b). by rewrite Hid.
      * unfold prisma.has_slug. apply String.eqb_refl.
    + intros Hslug. unfold visible_by_slug. simpl.
      rewrite (find_slug_replace_row (slug b) b' (blogs w) b); [done|done| |].
      * change (id b') with (id b). by rewrite Hid.
      * unfold prisma.has_slug. apply String.eqb_refl.
Qed.

Lemma soft_delete_hides_the_row_witness :
  ∃ w',
    IdKeyed.deleteBlog 1 sample_world
    = (inr {| code := 200; success := true;
              message := Some "Blog deleted successfully"; data := NoData |}, w')
    ∧ bucket w' = bucket sample_world
    ∧ find (prisma.has_id 1) (blogs w') = Some (soft_deleted 5 sample_blog)
    ∧ visible_by_slug "a-guide" w' = None.
Proof.
  destruct (soft_delete_hides_the_row "beyondmoksha.com" posix_extname
              identity_sanitizer no_warnings no_json no_trim 1 sample_world
              sample_blog sample_create eq_refl eq_refl eq_refl)
    as (w' & H1 & _ & H3 & _ & H5 & _ & _ & H8).
  exists w'. repeat split; [exact H1|exact H3|exact H5|exact (H8 eq_refl)].
Defined.

(** X11.  In the slug-keyed controller, a slug that has no row, or whose row
    is soft-deleted, gets 404 from the read by slug and from the content
    read, and an id in that state gets 404 from the update and from the soft
    delete; nothing is changed and nothing is sent to the store.  The
    database answers the lookup. *)
Theorem hidden_slug_answers_404
    (S3_BUCKET : string) (cdn : option string) (extname : string → string)
    (getSignedUrl : string → string → Z → JsError + string)
    (sanitizeHTMLToBuffer : Buffer → JsError + Buffer)
    (JSON_parse : string → JsError + option (list string))
    (slug_ : string) (blogId : Z) (req : SlugKeyed.UpdateRequest) (w : World) :
  db_faults w = [] →
  (visible_by_slug slug_ w = None →
   SlugKeyed.getBlogBySlug slug_ w = (inr answer_404, w)
   ∧ SlugKeyed.getBlogContent S3_BUCKET cdn getSignedUrl slug_ w
     = (inr answer_404, w))
  ∧ (visible_by_id blogId w = None →
     SlugKeyed.params_id req = blogId →
     SlugKeyed.updateBlog S3_BUCKET cdn extname sanitizeHTMLToBuffer
       JSON_parse req w = (inr answer_404, w)
     ∧ SlugKeyed.deleteBlog blogId w = (inr answer_404, w)).
Proof.
  intros Hdb. split.
  - intros Hvis. split.
    + unfold SlugKeyed.getBlogBySlug. hidden_row Hdb Hvis.
    + unfold SlugKeyed.getBlogContent. hidden_row Hdb Hvis.
  - intros Hvis Hreq. split.
    + unfold SlugKeyed.updateBlog. rewrite Hreq. hidden_row Hdb Hvis.
    + unfold SlugKeyed.deleteBlog. hidden_row Hdb Hvis.
Qed.

Lemma hidden_slug_answers_404_witness :
  SlugKeyed.getBlogBySlug "a-guide" world_of_deleted
  = (inr answer_404, world_of_deleted)
  ∧ SlugKeyed.getBlogContent "beyondmoksha.com" None sample_signer "a-guide"
      world_of_deleted
    = (inr answer_404, world_of_deleted).
Proof.
  exact (proj1 (hidden_slug_answers_404 "beyondmoksha.com" None posix_extname
                  sample_signer identity_sanitizer no_json "a-guide" 1
                  {| SlugKeyed.params_id := 1;
                     SlugKeyed.update_title := None;
                     SlugKeyed.update_slug := None;
                     SlugKeyed.update_authorId := None;
                     SlugKeyed.update_summary := None;
                     SlugKeyed.update_tags := None;
                     SlugKeyed.update_readTime := None;
                     SlugKeyed.update_status := None;
                     SlugKeyed.update_views := None;
                     SlugKeyed.update_likes := None;
                     SlugKeyed.files := None |}
                  world_of_deleted eq_refl) eq_refl).
Defined.

(** X12.  Renaming a blog to a slug that another row holds, soft-deleted or
    not: the slug-keyed update answers 409 and changes nothing, files or no
    files; no command reaches the store.  The database answers. *)
Theorem updateBlog_rejects_taken_slug
    (S3_BUCKET : string) (cdn : option string) (extname : string → string)
    (sanitizeHTMLToBuffer : Buffer → JsError + Buffer)
    (JSON_parse : string → JsError + option (list string))
    (req : SlugKeyed.UpdateRequest) (w : World) (existing : Blog) (s : string) :
  db_faults w = [] →
  visible_by_id (SlugKeyed.params_id req) w = Some existing →
  SlugKeyed.update_slug req = Some s →
  Js.truthy s = true →
  String.eqb s (slug existing) = false →
  existsb (prisma.has_slug s) (blogs w) = true →
  SlugKeyed.updateBlog S3_BUCKET cdn extname sanitizeHTMLToBuffer JSON_parse
    req w
  = (inr {| code := 409; success := false;
            message := Some "A blog with this slug already exists";
            data := NoData |}, w).
Proof.
  intros Hdb Hvis Hslug Ht Hne Htaken. unfold visible_by_id in Hvis.
  destruct (find (prisma.has_id (SlugKeyed.params_id req)) (blogs w))
    as [b0|] eqn:Hfind; [|done].
  destruct (bool_decide (deletedAt b0 ≠ None)) eqn:Hdel; [done|].
  injection Hvis as ->.
  apply find_of_existsb in Htaken as (holder & Hholder & _).
  unfold SlugKeyed.updateBlog.
  erewrite try_catch_inr; [reflexivity|].
  erewrite bind_inr by (by apply findUnique_id_run).
  rewrite Hfind, Hdel, Hslug. simpl. rewrite Ht, Hne. simpl.
  erewrite bind_inr by (by apply findUnique_slug_run).
  by rewrite Hholder.
Qed.

Lemma updateBlog_rejects_taken_slug_witness :
  SlugKeyed.updateBlog "beyondmoksha.com" None posix_extname
    identity_sanitizer no_json
    {| SlugKeyed.params_id := 2;
       SlugKeyed.update_title := None;
       SlugKeyed.update_slug := Some "a-guide";
       SlugKeyed.update_authorId := None;
       SlugKeyed.update_summary := None;
       SlugKeyed.update_tags := None;
       SlugKeyed.update_readTime := None;
       SlugKeyed.update_status := None;
       SlugKeyed.update_views := None;
       SlugKeyed.update_likes := None;
       SlugKeyed.files := None |}
    (with_db [deleted_blog; draft_blog] 3 [] sample_world)
  = (inr {| code := 409; success := false;
            message := Some "A blog with this slug already exists";
            data := NoData |},
     with_db [deleted_blog; draft_blog] 3 [] sample_world).
Proof.
  apply (updateBlog_rejects_taken_slug "beyondmoksha.com" None posix_extname
           identity_sanitizer no_json _ _ draft_blog "a-guide");
    reflexivity.
Defined.

(** ** Creation, end to end *)

Lemma uploadFile_run_ok b buf key ct w :
  s3_faults w = [] →
  uploadFile b buf key ct w
  = (inr ("s3://" +:+ b +:+ "/" +:+ key),
     with_log (log w ++ [LogS3Operation "UPLOAD" key true])
       (with_s3 (<[key := {| Body := buf; ContentType := ct |}]> (bucket w))
          [] (s3_sent w ++ [PutObjectCommand key buf ct]) w)).
Proof.
  intros Hf. unfold uploadFile, try_catch, bind, send, logger, ret, throw.
  by rewrite Hf.
Qed.

Lemma uploadFile_run_rejected b buf key ct w e rest :
  s3_faults w = Some e :: rest →
  uploadFile b buf key ct w
  = (inl (Error ("Failed to upload file to S3: " +:+ err_message e)),
     with_log (log w ++ [LogS3Operation "UPLOAD" key false;
                         LogError ("S3 upload error: " +:+ err_message e)])
       (with_s3 (bucket w) rest (s3_sent w ++ [PutObjectCommand key buf ct]) w)).
Proof.
  intros Hf. unfold uploadFile, try_catch, bind, send, logger, ret, throw.
  rewrite Hf. simpl. by rewrite <- app_assoc.
Qed.

Lemma slug_free_not_taken s rows :
  existsb (prisma.has_slug s) rows = false →
  prisma.slug_taken None s rows = false
  ∧ find (prisma.has_slug s) rows = None.
Proof.
  unfold prisma.slug_taken.
  induction rows as [|r rows IH]; simpl; [done|].
  intros [Hr Hrows]%orb_false_elim. rewrite Hr. simpl. by apply IH.
Qed.

Lemma find_app_new {A} (f : A → bool) l a :
  find f l = None → f a = true → find f (l ++ [a]) = Some a.
Proof.
  induction l as [|x l IH]; simpl.
  - by intros _ ->.
  - destruct (f x); [done|]. exact IH.
Qed.

Lemma detached_update_run i w :
  ∃ w', detached (prisma.update i views_plus_one)
          (λ err, logger (LogError ("Failed to increment views: "
                                    +:+ err_message err))) w
        = (inr (), w')
        ∧ bucket w' = bucket w ∧ s3_sent w' = s3_sent w
        ∧ s3_faults w' = s3_faults w.
Proof.
  destruct (detached_returns (prisma.update i views_plus_one)
              "Failed to increment views: " w) as [w' H].
  exists w'. split; [exact H|].
  pose proof (keeps_store_detached (prisma.update i views_plus_one)
                (λ err, logger (LogError ("Failed to increment views: "
                                          +:+ err_message err)))
                (keeps_store_update i views_plus_one)
                (λ e, keeps_store_logger _) w) as Hk.
  by rewrite H in Hk.
Qed.

Lemma content_by_slug_run S3_BUCKET cdn getSignedUrl slug_ w blog key o :
  db_faults w = [] → s3_faults w = [] →
  find (prisma.has_slug slug_) (blogs w) = Some blog →
  deletedAt blog = None → coverImageUrl blog = None →
  extractS3Key cdn (Some (contentUrl blog)) = Some key →
  Js.truthy key = true →
  bucket w !! key = Some o →
  ∃ r w',
    SlugKeyed.getBlogContent S3_BUCKET cdn getSignedUrl slug_ w = (inr r, w')
    ∧ code r = 200
    ∧ shown_content (data r) = Some (Body o)
    ∧ reported_views (data r) = Some (views blog + 1).
Proof.
  intros Hdb Hs3 Hfind Hdel Hcov Hkey Htr Hobj.
  unfold SlugKeyed.getBlogContent.
  erewrite try_catch_bind_inr by (by apply findUnique_slug_run).
  rewrite Hfind.
  rewrite bool_decide_eq_false_2 by (rewrite Hdel; naive_solver).
  destruct (detached_update_run (id blog) w) as (w2 & Hd & Hb & _ & Hf).
  erewrite try_catch_bind_inr by exact Hd.
  cbv zeta. rewrite Hkey. change (default "" (Some key)) with key.
  cbn [Js.truthy_opt negb]. rewrite Htr.
  cbn [negb].
  erewrite try_catch_bind_inr
    by (unfold send; cbv beta zeta; rewrite Hf, Hs3; cbn [head];
        rewrite Hb, Hobj; reflexivity).
  rewrite Hcov. cbn [Js.truthy_opt].
  erewrite try_catch_bind_inr by reflexivity.
  erewrite try_catch_inr by reflexivity.
  eexists _, _. split; [reflexivity|]. done.
Qed.

Lemma createBlog_run
    (S3_BUCKET : string) (extname : string → string)
    (sanitizeHTMLToBuffer : Buffer → JsError + Buffer)
    (validateHTMLStructure : Buffer → list string)
    (JSON_parse : string → JsError + option (list string))
    (trim : string → string)
    (req : SlugKeyed.CreateRequest) (w : World) (clean : Buffer) :
  db_faults w = [] → s3_faults w = [] →
  existsb (prisma.has_slug (SlugKeyed.create_slug req)) (blogs w) = false →
  sanitizeHTMLToBuffer (buffer (SlugKeyed.create_content req)) = inr clean →
  SlugKeyed.create_cover req = None →
  let key := "blogs/" +:+ SlugKeyed.create_slug req +:+ "/"
             +:+ mimetype (SlugKeyed.create_content req) in
  ∃ blog w',
    SlugKeyed.createBlog S3_BUCKET extname sanitizeHTMLToBuffer
      validateHTMLStructure JSON_parse trim req w
    = (inr {| code := 201; success := true;
              message := Some "Blog created successfully";
              data := OneBlog blog |}, w')
    ∧ blogs w' = blogs w ++ [blog]
    ∧ slug blog = SlugKeyed.create_slug req
    ∧ contentUrl blog = "s3://" +:+ S3_BUCKET +:+ "/" +:+ key
    ∧ coverImageUrl blog = None
    ∧ views blog = 0 ∧ likes blog = 0 ∧ deletedAt blog = None
    ∧ status blog = default "draft" (SlugKeyed.create_status req)
    ∧ bucket w' = <[key := {| Body := clean; ContentType := None |}]> (bucket w)
    ∧ db_faults w' = [] ∧ s3_faults w' = [].
Proof.
  intros Hdb Hs3 Hfree Hsan Hcover key.
  destruct (slug_free_not_taken _ _ Hfree) as [Htaken Hnone].
  unfold SlugKeyed.createBlog.
  erewrite try_catch_bind_inr by (by apply findUnique_slug_run).
  rewrite Hnone, Hsan, Hcover.
  do 2 (erewrite try_catch_bind_inr by reflexivity).
  destruct (bool_decide (0 < length (validateHTMLStructure clean))%nat);
    (erewrite try_catch_bind_inr by reflexivity);
    unfold uploadBlogContent;
    (erewrite try_catch_bind_inr by (apply uploadFile_run_ok; exact Hs3));
    (erewrite try_catch_bind_inr by reflexivity).
  all: destruct (SlugKeyed.create_tags req) as [[s|l]|];
    [ destruct (Js.truthy s && Js.truthy (trim s));
      [destruct (JSON_parse (trim s)) as [e|[l|]] |] | |].
  all: (erewrite try_catch_bind_inr by reflexivity).
  all: (erewrite try_catch_inr;
    [|erewrite bind_inr;
      [reflexivity
      |unfold prisma.create; rewrite call_run_quiet by exact Hdb;
       cbn [prisma.new_slug blogs with_log with_s3];
       rewrite Htaken; reflexivity]]).
  all: eexists _, _; split; [reflexivity|].
  all: cbn; repeat split; try done.
Qed.





(** ** What a create does to the table and to the bucket *)

Lemma keeps_rows_of_table {A} (c : M A) : keeps_table c → keeps_rows c.
Proof. intros H w. apply H. Qed.

Lemma keeps_rows_ret {A} (a : A) : keeps_rows (ret a).
Proof. by intros w. Qed.

Lemma keeps_rows_logger e : keeps_rows (logger e).
Proof. by intros w. Qed.

Lemma keeps_rows_lift {A} (r : JsError + A) : keeps_rows (lift r).
Proof. by destruct r. Qed.

Lemma keeps_rows_if {A} (b : bool) (c1 c2 : M A) :
  keeps_rows c1 → keeps_rows c2 → keeps_rows (if b then c1 else c2).
Proof. by destruct b. Qed.

Lemma keeps_rows_bind {A B} (c : M A) (k : A → M B) :
  keeps_rows c → (∀ a, keeps_rows (k a)) → keeps_rows (bind c k).
Proof.
  intros Hc Hk w. unfold bind. specialize (Hc w).
  destruct (c w) as [[e|a] w1]; simpl in *; [done|].
  by rewrite Hk.
Qed.

Lemma keeps_rows_findUnique_slug s : keeps_rows (prisma.findUnique_slug s).
Proof.
  intros w. unfold prisma.findUnique_slug, prisma.call.
  by destruct (head (db_faults w)) as [[e|]|].
Qed.

Lemma adds_after_keeps {A} (c : M A) (k : A → M Response) :
  keeps_rows c → (∀ a, adds_shown_row (k a)) → adds_shown_row (bind c k).
Proof.
  intros Hc Hk w. unfold bind. specialize (Hc w).
  destruct (c w) as [[e|a] w1]; simpl in *; [done|].
  specialize (Hk a w1). unfold table_after in *. by rewrite <- Hc.
Qed.

Lemma adds_respond c ok msg d :
  c ≠ 201 → adds_shown_row (respond c ok msg d).
Proof.
  intros Hc w. unfold respond, ret, table_after. simpl.
  by rewrite (proj2 (Z.eqb_neq c 201) Hc).
Qed.

Lemma adds_if (b : bool) (c1 c2 : M Response) :
  adds_shown_row c1 → adds_shown_row c2 →
  adds_shown_row (if b then c1 else c2).
Proof. by destruct b. Qed.

Lemma adds_create d msg :
  adds_shown_row
    (blog <~ prisma.create d ;; respond 201 true msg (OneBlog blog)).
Proof.
  intros w. unfold bind, prisma.create, prisma.call, respond, ret, table_after.
  destruct (head (db_faults w)) as [[e|]|]; simpl; [done|..];
    (destruct (prisma.slug_taken None (prisma.new_slug d) (blogs w));
     simpl; [done|eauto]).
Qed.

Lemma adds_try_catch (c : M Response) entry msg :
  adds_shown_row c →
  adds_shown_row
    (try_catch c (λ error, logger (entry error) ;;; respond 500 false msg NoData)).
Proof.
  intros Hc w. unfold try_catch. specialize (Hc w).
  by destruct (c w) as [[e|r] w1].
Qed.

Lemma answers_try_catch (c : M Response) entry msg w :
  ∃ r w',
    try_catch c (λ error, logger (entry error) ;;; respond 500 false msg NoData) w
    = (inr r, w').
Proof. unfold try_catch. destruct (c w) as [[e|r] w1]; eauto. Qed.

Lemma adds_createBlog S3_BUCKET extname sanitizeHTMLToBuffer
    validateHTMLStructure JSON_parse trim req :
  adds_shown_row
    (SlugKeyed.createBlog S3_BUCKET extname sanitizeHTMLToBuffer
       validateHTMLStructure JSON_parse trim req).
Proof.
  unfold SlugKeyed.createBlog. apply adds_try_catch. cbv zeta.
  apply adds_after_keeps; [apply keeps_rows_findUnique_slug|].
  intros [existing|]; [by apply adds_respond|].
  apply adds_after_keeps; [apply keeps_rows_logger|]. intros _.
  apply adds_after_keeps; [apply keeps_rows_lift|]. intros clean.
  apply adds_after_keeps;
    [apply keeps_rows_if; [apply keeps_rows_logger|apply keeps_rows_ret]|].
  intros _.
  apply adds_after_keeps;
    [apply keeps_rows_of_table, keeps_uploadFile|].
  intros contentUrl_.
  apply adds_after_keeps.
  { destruct (SlugKeyed.create_cover req) as [f|]; [|apply keeps_rows_ret].
    apply keeps_rows_bind; [apply keeps_rows_of_table, keeps_uploadFile|].
    intros u. apply keeps_rows_ret. }
  intros coverImageUrl_.
  apply adds_after_keeps.
  { destruct (SlugKeyed.create_tags req) as [[s|l]|];
      [|apply keeps_rows_ret..].
    apply keeps_rows_if; [|apply keeps_rows_ret].
    destruct (JSON_parse (trim s)) as [e|[l|]]; [|apply keeps_rows_ret..].
    apply keeps_rows_bind; [apply keeps_rows_logger|].
    intros _. apply keeps_rows_ret. }
  intros parsedTags. apply adds_create.
Qed.

Lemma touches_createBlog S3_BUCKET extname sanitizeHTMLToBuffer
    validateHTMLStructure JSON_parse trim req :
  touches []
    (("blogs/" +:+ SlugKeyed.create_slug req +:+ "/"
      +:+ mimetype (SlugKeyed.create_content req))
     :: match SlugKeyed.create_cover req with
        | Some f => ["blogs/" +:+ SlugKeyed.create_slug req +:+ "/cover"
                     +:+ extname (originalname f)]
        | None => []
        end)
    (SlugKeyed.createBlog S3_BUCKET extname sanitizeHTMLToBuffer
       validateHTMLStructure JSON_parse trim req).
Proof.
  unfold SlugKeyed.createBlog. apply touches_try_catch.
  2: { intros e. apply touches_bind; [apply touches_logger|].
       intros _. apply touches_ret. }
  cbv zeta.
  apply touches_bind;
    [apply touches_of_same_bucket, findUnique_slug_same_bucket|].
  intros [existing|]; [apply touches_ret|].
  apply touches_bind; [apply touches_logger|]. intros _.
  apply touches_bind.
  { apply touches_of_same_bucket. intros w.
    by destruct (sanitizeHTMLToBuffer _). }
  intros clean.
  apply touches_bind;
    [apply touches_if; [apply touches_logger|apply touches_ret]|].
  intros _.
  apply touches_bind; [apply touches_uploadFile; left|].
  intros contentUrl_.
  apply touches_bind.
  { destruct (SlugKeyed.create_cover req) as [f|]; [|apply touches_ret].
    apply touches_bind; [|intros u; apply touches_ret].
    apply touches_uploadFile. right. left. }
  intros coverImageUrl_.
  apply touches_bind.
  { destruct (SlugKeyed.create_tags req) as [[s|l]|];
      [|apply touches_ret..].
    apply touches_if; [|apply touches_ret].
    destruct (JSON_parse (trim s)) as [e|[l|]]; [|apply touches_ret..].
    apply touches_bind; [apply touches_logger|].
    intros _. apply touches_ret. }
  intros parsedTags.
  apply touches_bind;
    [apply touches_of_same_bucket, create_same_bucket|].
  intros b. apply touches_ret.
Qed.

(** X15.  Whatever the database, the store and the sanitizer do, the
    slug-keyed create answers: it never throws.  An answer 201 shows a row
    and exactly that row was appended to the table; under any other answer
    the rows are as they were.  In the bucket it deletes nothing and writes
    at most the content key [blogs/<slug>/<type>] and the cover key
    [blogs/<slug>/cover<ext>] of the request: every other key is left as it
    was. *)
Theorem createBlog_adds_only_the_row_it_shows
    (S3_BUCKET : string) (extname : string → string)
    (sanitizeHTMLToBuffer : Buffer → JsError + Buffer)
    (validateHTMLStructure : Buffer → list string)
    (JSON_parse : string → JsError + option (list string))
    (trim : string → string)
    (req : SlugKeyed.CreateRequest) (w : World) :
  ∃ r w',
    SlugKeyed.createBlog S3_BUCKET extname sanitizeHTMLToBuffer
      validateHTMLStructure JSON_parse trim req w = (inr r, w')
    ∧ (if code r =? 201
       then ∃ b, data r = OneBlog b ∧ blogs w' = blogs w ++ [b]
       else blogs w' = blogs w)
    ∧ ∀ k,
        bucket w' !! k = bucket w !! k
        ∨ (is_Some (bucket w' !! k)
           ∧ (k = "blogs/" +:+ SlugKeyed.create_slug req +:+ "/"
                  +:+ mimetype (SlugKeyed.create_content req)
              ∨ ∃ f, SlugKeyed.create_cover req = Some f
                     ∧ k = "blogs/" +:+ SlugKeyed.create_slug req +:+ "/cover"
                           +:+ extname (originalname f))).
Proof.
  pose proof (adds_createBlog S3_BUCKET extname sanitizeHTMLToBuffer
                validateHTMLStructure JSON_parse trim req w) as Hrows.
  pose proof (touches_createBlog S3_BUCKET extname sanitizeHTMLToBuffer
                validateHTMLStructure JSON_parse trim req w) as Hkeys.
  assert (∃ r w',
            SlugKeyed.createBlog S3_BUCKET extname sanitizeHTMLToBuffer
              validateHTMLStructure JSON_parse trim req w = (inr r, w'))
    as (r & w' & Hrun) by apply answers_try_catch.
  rewrite Hrun in Hrows, Hkeys.
  exists r, w'. split; [exact Hrun|]. split; [exact Hrows|].
  intros k. destruct (Hkeys k) as [H|[[Hin _]|[Hin H]]]; [by left| |].
  - by apply elem_of_nil in Hin.
  - right. split; [exact H|].
    apply elem_of_cons in Hin as [->|Hin]; [by left|].
    right. destruct (SlugKeyed.create_cover req) as [f|].
    + apply list_elem_of_singleton in Hin. eauto.
    + by apply elem_of_nil in Hin.
Qed.

(** X16.  No rollback: when the database rejects the insert after the
    content was stored, the slug-keyed create answers 500 and adds no row,
    and the object it stored stays in the bucket under
    [blogs/<slug>/<type>]. *)
Theorem createBlog_keeps_object_when_insert_fails
    (S3_BUCKET : string) (extname : string → string)
    (sanitizeHTMLToBuffer : Buffer → JsError + Buffer)
    (validateHTMLStructure : Buffer → list string)
    (JSON_parse : string → JsError + option (list string))
    (trim : string → string)
    (req : SlugKeyed.CreateRequest) (w : World) (clean : Buffer)
    (e : JsError) (rest : list (option JsError)) :
  db_faults w = None :: Some e :: rest → s3_faults w = [] →
  existsb (prisma.has_slug (SlugKeyed.create_slug req)) (blogs w) = false →
  sanitizeHTMLToBuffer (buffer (SlugKeyed.create_content req)) = inr clean →
  SlugKeyed.create_cover req = None →
  ∃ w',
    SlugKeyed.createBlog S3_BUCKET extname sanitizeHTMLToBuffer
      validateHTMLStructure JSON_parse trim req w
    = (inr {| code := 500; success := false;
              message := Some "Failed to create blog"; data := NoData |}, w')
    ∧ blogs w' = blogs w
    ∧ bucket w'
      = <["blogs/" +:+ SlugKeyed.create_slug req +:+ "/"
          +:+ mimetype (SlugKeyed.create_content req)
          := {| Body := clean; ContentType := None |}]> (bucket w).
Proof.
  intros Hdb Hs3 Hfree Hsan Hcover.
  destruct (slug_free_not_taken _ _ Hfree) as [Htaken Hnone].
  unfold SlugKeyed.createBlog.
  erewrite try_catch_bind_inr
    by (unfold prisma.findUnique_slug; rewrite call_run by (by rewrite Hdb);
        reflexivity).
  cbn [blogs with_db]. rewrite Hnone, Hsan, Hcover.
  do 2 (erewrite try_catch_bind_inr by reflexivity).
  destruct (bool_decide (0 < length (validateHTMLStructure clean))%nat);
    (erewrite try_catch_bind_inr by reflexivity);
    unfold uploadBlogContent;
    (erewrite try_catch_bind_inr by (apply uploadFile_run_ok; exact Hs3));
    (erewrite try_catch_bind_inr by reflexivity).
  all: destruct (SlugKeyed.create_tags req) as [[s|l]|];
    [ destruct (Js.truthy s && Js.truthy (trim s));
      [destruct (JSON_parse (trim s)) as [e'|[l|]] |] | |].
  all: (erewrite try_catch_bind_inr by reflexivity).
  all: (erewrite try_catch_bind_inl
          by (unfold prisma.create, prisma.call;
              cbn [db_faults with_db with_log with_s3];
              rewrite Hdb; reflexivity)).
  all: eexists; split; [reflexivity|]; done.
Qed.

Lemma createBlog_keeps_object_when_insert_fails_witness :
  ∃ w',
    SlugKeyed.createBlog "beyondmoksha.com" posix_extname identity_sanitizer
      no_warnings no_json no_trim sample_create
      (with_db [] 1 [None; Some (Error "connection closed")] empty_world)
    = (inr {| code := 500; success := false;
              message := Some "Failed to create blog"; data := NoData |}, w')
    ∧ blogs w' = []
    ∧ bucket w'
      = <["blogs/a-guide/application/vnd.openxmlformats-officedocument.wordprocessingml.document"
          := {| Body := "<p>text</p>"; ContentType := None |}]> ∅.
Proof.
  apply (createBlog_keeps_object_when_insert_fails "beyondmoksha.com"
           posix_extname identity_sanitizer no_warnings no_json no_trim
           sample_create
           (with_db [] 1 [None; Some (Error "connection closed")] empty_world)
           "<p>text</p>" (Error "connection closed") []);
    reflexivity.
Defined.

(** ** A content read that cannot fetch *)

Lemma detached_inr {A} (c : M A) h w a w1 :
  c w = (inr a, w1) → detached c h w = (inr (), w1).
Proof. intros H. unfold detached. by rewrite H. Qed.

Lemma unfetchable_run (ok : option string) (K : S3Output → M Response)
    entry msg w :
  (∀ key, ok = Some key → Js.truthy key = true → bucket w !! key = None) →
  ∃ r w',
    try_catch
      (if negb (Js.truthy_opt ok)
       then respond 500 false (Some "Invalid content URL format") NoData
       else bind (send (GetObjectCommand (default "" ok))) K)
      (λ error, logger (entry error) ;;; respond 500 false msg NoData) w
    = (inr r, w')
    ∧ code r = 500 ∧ blogs w' = blogs w.
Proof.
  intros Hobj. destruct ok as [key|]; cbn [Js.truthy_opt];
    [|eexists _, _; split; [reflexivity|done]].
  destruct (Js.truthy key) eqn:Ht; cbn [negb];
    [|eexists _, _; split; [reflexivity|done]].
  change (default "" (Some key)) with key.
  unfold try_catch, bind, send. rewrite (Hobj key eq_refl Ht).
  destruct (head (s3_faults w)) as [[e|]|];
    (eexists _, _; split; [reflexivity|done]).
Qed.

Lemma visible_by_id_find i w b :
  visible_by_id i w = Some b →
  find (prisma.has_id i) (blogs w) = Some b ∧ deletedAt b = None.
Proof.
  unfold visible_by_id. destruct (find _ _) as [b0|]; [|done].
  destruct (bool_decide (deletedAt b0 ≠ None)) eqn:E; [done|].
  intros [= ->]. split; [done|].
  apply bool_decide_eq_false in E.
  destruct (deletedAt b); [by destruct E|done].
Qed.

Lemma visible_by_slug_find s w b :
  visible_by_slug s w = Some b →
  find (prisma.has_slug s) (blogs w) = Some b ∧ deletedAt b = None.
Proof.
  unfold visible_by_slug. destruct (find _ _) as [b0|]; [|done].
  destruct (bool_decide (deletedAt b0 ≠ None)) eqn:E; [done|].
  intros [= ->]. split; [done|].
  apply bool_decide_eq_false in E.
  destruct (deletedAt b); [by destruct E|done].
Qed.

Lemma counted_view_visible w blog :
  find (prisma.has_id (id blog)) (blogs w) = Some blog →
  deletedAt blog = None →
  visible_by_id (id blog)
    (with_db (prisma.replace_row (apply_update (clock w) views_plus_one blog)
                (blogs w)) (next_id w) (db_faults w) w)
  = Some (apply_update (clock w) views_plus_one blog).
Proof.
  intros Hfind Hdel. unfold visible_by_id. cbn [blogs with_db].
  pose proof (find_replace_row (apply_update (clock w) views_plus_one blog)
                (blogs w) blog Hfind) as H.
  cbn [id apply_update] in H. rewrite H.
  cbn. by rewrite Hdel.
Qed.

(** X17.  A content read that cannot fetch still counts the view.  For a
    visible row that its id and its slug find, whose content locator
    resolves to no key or to a key the bucket does not hold, the database
    answering: both content reads answer 500, and the row is left with its
    view count raised by one. *)
Theorem failed_content_read_counts_a_view
    (S3_BUCKET : string) (cdn : option string)
    (getSignedUrl : string → string → Z → JsError + string)
    (w : World) (blog : Blog) :
  db_faults w = [] →
  visible_by_id (id blog) w = Some blog →
  visible_by_slug (slug blog) w = Some blog →
  (∀ key, extractS3Key cdn (Some (contentUrl blog)) = Some key →
          Js.truthy key = true → bucket w !! key = None) →
  (∃ r w' b',
     IdKeyed.getBlogContent S3_BUCKET cdn getSignedUrl (id blog) w = (inr r, w')
     ∧ code r = 500
     ∧ visible_by_id (id blog) w' = Some b'
     ∧ views b' = views blog + 1)
  ∧ (∃ r w' b',
       SlugKeyed.getBlogContent S3_BUCKET cdn getSignedUrl (slug blog) w
       = (inr r, w')
       ∧ code r = 500
       ∧ visible_by_id (id blog) w' = Some b'
       ∧ views b' = views blog + 1).
Proof.
  intros Hdb [Hid Hdel]%visible_by_id_find [Hslug _]%visible_by_slug_find Hobj.
  pose proof (update_run (id blog) views_plus_one w blog Hdb Hid
                ltac:(done) eq_refl) as Hupd.
  pose proof (counted_view_visible w blog Hid Hdel) as Hvis.
  set (w2 := with_db _ _ _ w) in Hupd, Hvis.
  split.
  - unfold IdKeyed.getBlogContent.
    erewrite try_catch_bind_inr by (by apply findUnique_id_run).
    rewrite Hid.
    rewrite bool_decide_eq_false_2 by (rewrite Hdel; naive_solver).
    erewrite try_catch_bind_inr by (eapply detached_inr; exact Hupd).
    cbv zeta.
    edestruct (unfetchable_run (extractS3Key cdn (Some (contentUrl blog))))
      as (r & w' & -> & Hcode & Hrows); [exact Hobj|].
    exists r, w', (apply_update (clock w) views_plus_one blog).
    split; [done|]. split; [done|]. split; [|done].
    unfold visible_by_id in *. by rewrite Hrows.
  - unfold SlugKeyed.getBlogContent.
    erewrite try_catch_bind_inr by (by apply findUnique_slug_run).
    rewrite Hslug.
    rewrite bool_decide_eq_false_2 by (rewrite Hdel; naive_solver).
    erewrite try_catch_bind_inr by (eapply detached_inr; exact Hupd).
    cbv zeta.
    edestruct (unfetchable_run (extractS3Key cdn (Some (contentUrl blog))))
      as (r & w' & -> & Hcode & Hrows); [exact Hobj|].
    exists r, w', (apply_update (clock w) views_plus_one blog).
    split; [done|]. split; [done|]. split; [|done].
    unfold visible_by_id in *. by rewrite Hrows.
Qed.

Lemma failed_content_read_counts_a_view_witness :
  (∃ r w' b',
     IdKeyed.getBlogContent "beyondmoksha.com" None sample_signer 1
       (with_s3 ∅ [] [] sample_world) = (inr r, w')
     ∧ code r = 500
     ∧ visible_by_id 1 w' = Some b'
     ∧ views b' = 0 + 1)
  ∧ (∃ r w' b',
       SlugKeyed.getBlogContent "beyondmoksha.com" None sample_signer "a-guide"
         (with_s3 ∅ [] [] sample_world) = (inr r, w')
       ∧ code r = 500
       ∧ visible_by_id 1 w' = Some b'
       ∧ views b' = 0 + 1).
Proof.
  apply (failed_content_read_counts_a_view "beyondmoksha.com" None
           sample_signer (with_s3 ∅ [] [] sample_world) sample_blog);
    [reflexivity..|].
  intros key _ _. apply lookup_empty.
Defined.

(** ** Feeds *)

Ltac item_cases :=
  repeat match goal with
         | |- context [if ?b then _ else _] => destruct b eqn:?; simpl
         | |- context [match ?x with inl _ => _ | inr _ => _ end] =>
             destruct x eqn:?; simpl
         end.

Lemma with_presigned_urls_by_slug_run S3_BUCKET cdn getSignedUrl b w :
  ∃ it w',
    SlugKeyed.with_presigned_urls S3_BUCKET cdn getSignedUrl b w = (inr it, w')
    ∧ item_blog it = b
    ∧ blogs w' = blogs w ∧ bucket w' = bucket w
    ∧ db_faults w' = db_faults w
    ∧ (∀ u, item_contentUrl it = Some u ∨ item_coverImageUrl it = Some u →
            ∃ key, getSignedUrl S3_BUCKET key 3600 = inr u).
Proof.
  unfold SlugKeyed.with_presigned_urls, generatePresignedUrl, try_catch, bind,
    ret, throw, logger.
  cbv zeta. simpl. item_cases.
  all: eexists _, _; split; [reflexivity|]; simpl; repeat split; try done.
  all: intros u [H|H]; simplify_eq; eauto.
Qed.

Lemma with_presigned_urls_by_id_run S3_BUCKET cdn getSignedUrl b w :
  ∃ it w',
    IdKeyed.with_presigned_urls S3_BUCKET cdn getSignedUrl b w = (inr it, w')
    ∧ item_blog it = b
    ∧ blogs w' = blogs w ∧ bucket w' = bucket w
    ∧ db_faults w' = db_faults w
    ∧ (∀ u, item_contentUrl it = Some u ∨ item_coverImageUrl it = Some u →
            ∃ key, getSignedUrl S3_BUCKET key 3600 = inr u).
Proof.
  unfold IdKeyed.with_presigned_urls, generatePresignedUrl, try_catch, bind,
    ret, throw, logger.
  cbv zeta. simpl. item_cases.
  all: eexists _, _; split; [reflexivity|]; simpl; repeat split; try done.
  all: intros u [H|H]; simplify_eq; eauto.
Qed.

Lemma map_async_items (f : Blog → M FeedItem) (P : FeedItem → Prop) l w :
  (∀ b w, ∃ it w', f b w = (inr it, w') ∧ item_blog it = b
                   ∧ blogs w' = blogs w ∧ bucket w' = bucket w
                   ∧ db_faults w' = db_faults w ∧ P it) →
  ∃ items w',
    map_async f l w = (inr items, w')
    ∧ item_blog <$> items = l
    ∧ blogs w' = blogs w ∧ bucket w' = bucket w
    ∧ db_faults w' = db_faults w
    ∧ Forall P items.
Proof.
  intros Hf. revert w. induction l as [|b l IH]; intros w; simpl.
  - exists [], w. by repeat split.
  - destruct (Hf b w) as (it & w1 & Hrun & Hit & Hb & Hk & Hd & HP).
    destruct (IH w1) as (items & w2 & Hrun2 & Hmap & Hb2 & Hk2 & Hd2 & HP2).
    exists (it :: items), w2. unfold bind. rewrite Hrun, Hrun2.
    split; [reflexivity|]. split; [by rewrite fmap_cons, Hit, Hmap|].
    repeat split; try congruence. by constructor.
Qed.

Lemma newer_first_total : Total prisma.newer_first.
Proof. intros a b. unfold prisma.newer_first. lia. Qed.

Lemma newer_first_trans : Transitive prisma.newer_first.
Proof. intros a b c. unfold prisma.newer_first. lia. Qed.

Lemma more_viewed_first_total : Total prisma.more_viewed_first.
Proof. intros a b. unfold prisma.more_viewed_first. lia. Qed.

Lemma more_viewed_first_trans : Transitive prisma.more_viewed_first.
Proof. intros a b c. unfold prisma.more_viewed_first. lia. Qed.

Lemma top_sorted (R : relation Blog) `{!RelDecision R} n l :
  Total R → Transitive R → StronglySorted R (take n (merge_sort R l)).
Proof.
  intros Ht Htr.
  eapply (StronglySorted_app_1_l R _ (drop n (merge_sort R l))).
  rewrite take_drop. apply Sorted_StronglySorted; [done|].
  by apply Sorted_merge_sort.
Qed.

Lemma top_length (R : relation Blog) `{!RelDecision R} n l :
  length (take n (merge_sort R l)) = (n `min` length l)%nat.
Proof. by rewrite length_take, merge_sort_Permutation. Qed.

Lemma top_elem (R : relation Blog) `{!RelDecision R} n f (l : list Blog) b :
  b ∈ take n (merge_sort R (List.filter f l)) → b ∈ l ∧ f b = true.
Proof.
  intros H%subseteq_take. rewrite merge_sort_Permutation in H.
  apply list_elem_of_In, filter_In in H as [H1 H2].
  split; [by apply list_elem_of_In|done].
Qed.

Lemma filter_published contains l :
  List.filter (prisma.satisfies contains [StatusIs "published"; DeletedAtNull]) l
  = List.filter published l.
Proof.
  apply List.filter_ext. intros b. unfold published. simpl.
  by rewrite andb_true_r.
Qed.

Lemma filter_not_deleted contains l :
  List.filter (prisma.satisfies contains [DeletedAtNull]) l
  = List.filter not_deleted l.
Proof.
  apply List.filter_ext. intros b. unfold not_deleted. simpl.
  by rewrite andb_true_r.
Qed.

(** The shape the four feeds share. *)
Lemma feed_run contains (f : Blog → M FeedItem) (signer : string → JsError + string)
    where_ (order : prisma.OrderBy) (shown : Blog → bool)
    (answer : Z → bool → option string → list FeedItem → M FeedResponse)
    d limit_ e1 e2 h w :
  (∀ c ok msg items,
     answer c ok msg items
     = ret {| feed_code := c; feed_success := ok; feed_message := msg;
              feed_data := items; feed_count := Z.of_nat (length items) |}) →
  (∀ b w, ∃ it w', f b w = (inr it, w') ∧ item_blog it = b
                   ∧ blogs w' = blogs w ∧ bucket w' = bucket w
                   ∧ db_faults w' = db_faults w
                   ∧ (∀ u, item_contentUrl it = Some u
                           ∨ item_coverImageUrl it = Some u →
                           ∃ key, signer key = inr u)) →
  (∀ l, List.filter (prisma.satisfies contains where_) l = List.filter shown l) →
  1 ≤ int_or limit_ d ≤ 50 → db_faults w = [] →
  ∃ r w',
    try_catch
      (let limit := int_or limit_ d in
       if (limit <? 1) || (50 <? limit)
       then answer 400 false (Some "Limit must be between 1 and 50") []
       else
         logger e1 ;;;
         rows <~ prisma.findMany_top contains where_ order limit ;;
         items <~ map_async f rows ;;
         logger e2 ;;;
         answer 200 true None items) h w
    = (inr r, w')
    ∧ feed_of match order with
              | prisma.CreatedAtDesc => prisma.newer_first
              | prisma.ViewsDesc => prisma.more_viewed_first
              end shown signer (int_or limit_ d) w r
    ∧ blogs w' = blogs w ∧ bucket w' = bucket w.
Proof.
  intros Hanswer Hf Hshown Hlim Hdb. cbv zeta.
  replace ((int_or limit_ d <? 1) || (50 <? int_or limit_ d)) with false
    by (symmetry; apply orb_false_iff; split; apply Z.ltb_ge; lia).
  erewrite try_catch_bind_inr by reflexivity.
  erewrite try_catch_bind_inr
    by (unfold prisma.findMany_top; rewrite call_run_quiet by exact Hdb;
        reflexivity).
  cbv zeta.
  match goal with |- context [map_async f ?l] => set (rows := l) end.
  destruct (map_async_items f _ rows
              (with_log (log w ++ [e1]) w) Hf)
    as (items & w2 & Hrun & Hmap & Hb & Hk & _ & HP).
  erewrite try_catch_bind_inr by exact Hrun.
  erewrite try_catch_bind_inr by reflexivity.
  rewrite Hanswer.
  erewrite try_catch_inr by reflexivity.
  eexists _, _. split; [reflexivity|]. split; [|by split].
  unfold feed_of. cbn [feed_code feed_count feed_data].
  assert (Hlen : length items = length rows) by (by rewrite <- Hmap, length_fmap).
  split; [done|]. split; [done|].
  subst rows. cbn [blogs with_log] in *. rewrite Hshown in *.
  split; [|split].
  - rewrite Hlen. destruct order; apply top_length.
  - rewrite Hmap. destruct order.
    + apply top_sorted; [apply newer_first_total|apply newer_first_trans].
    + apply top_sorted;
        [apply more_viewed_first_total|apply more_viewed_first_trans].
  - intros it Hit.
    assert (Hin : item_blog it ∈ item_blog <$> items)
      by (by apply list_elem_of_fmap_2).
    rewrite Hmap in Hin.
    assert (item_blog it ∈ blogs w ∧ shown (item_blog it) = true) as [H1 H2]
      by (destruct order; by eapply top_elem).
    split; [done|]. split; [done|].
    by apply (proj1 (Forall_forall _ _) HP).
Qed.

Lemma out_of_range_guard limit_ d :
  1 ≤ d ≤ 50 →
  (int_or limit_ d <? 1) || (50 <? int_or limit_ d) = limit_out_of_range limit_.
Proof.
  intros Hd. unfold int_or, limit_out_of_range.
  destruct limit_ as [z|].
  - destruct (z =? 0); simpl; [|done].
    apply orb_false_iff. split; apply Z.ltb_ge; lia.
  - apply orb_false_iff. split; apply Z.ltb_ge; lia.
Qed.

Lemma feed_guard contains (f : Blog → M FeedItem)
    where_ (order : prisma.OrderBy)
    (answer : Z → bool → option string → list FeedItem → M FeedResponse)
    d limit_ e1 e2 entry msg w :
  (∀ c ok msg items,
     answer c ok msg items
     = ret {| feed_code := c; feed_success := ok; feed_message := msg;
              feed_data := items; feed_count := Z.of_nat (length items) |}) →
  (∀ b w, ∃ it w', f b w = (inr it, w') ∧ item_blog it = b
                   ∧ blogs w' = blogs w ∧ bucket w' = bucket w
                   ∧ db_faults w' = db_faults w ∧ True) →
  1 ≤ d ≤ 50 →
  ∃ r w',
    try_catch
      (let limit := int_or limit_ d in
       if (limit <? 1) || (50 <? limit)
       then answer 400 false (Some "Limit must be between 1 and 50") []
       else
         logger e1 ;;;
         rows <~ prisma.findMany_top contains where_ order limit ;;
         items <~ map_async f rows ;;
         logger e2 ;;;
         answer 200 true None items)
      (λ error, logger (entry error) ;;; answer 500 false msg []) w
    = (inr r, w')
    ∧ (if limit_out_of_range limit_
       then r = {| feed_code := 400; feed_success := false;
                   feed_message := Some "Limit must be between 1 and 50";
                   feed_data := []; feed_count := 0 |}
            ∧ w' = w
       else feed_code r = 200 ∨ feed_code r = 500).
Proof.
  intros Hanswer Hf Hd. cbv zeta. rewrite (out_of_range_guard limit_ d Hd).
  destruct (limit_out_of_range limit_).
  { rewrite Hanswer. eexists _, _. split; [reflexivity|]. done. }
  erewrite try_catch_bind_inr by reflexivity.
  match goal with
  | |- context [try_catch (bind (prisma.findMany_top ?a ?b ?c ?d) _) _ ?w0] =>
      destruct (prisma.findMany_top a b c d w0) as [[e|rows] w1] eqn:E
  end.
  { erewrite try_catch_bind_inl by exact E. unfold bind, logger.
    rewrite Hanswer. eexists _, _. split; [reflexivity|]. by right. }
  erewrite try_catch_bind_inr by exact E.
  match goal with |- context [try_catch (bind (map_async f ?l) _) _ ?w0] =>
         destruct (map_async_items f (λ _, True) l w0 Hf)
           as (items & w2 & Hrun & _)
       end.
  erewrite try_catch_bind_inr by exact Hrun.
  erewrite try_catch_bind_inr by reflexivity.
  rewrite Hanswer.
  eexists _, _; split; [reflexivity|]; by left.
Qed.





(** X20.  The four feeds answer whatever the database and the signer do,
    and reject exactly the limits that are a number other than 0 outside
    1..50: for those the answer is 400 with no item, and nothing is read or
    logged; for every other limit, 0 and a missing limit included, the
    answer is 200 or 500. *)
Theorem feeds_reject_limits_out_of_range
    (S3_BUCKET : string) (cdn : option string)
    (getSignedUrl : string → string → Z → JsError + string)
    (contains : string → string → bool)
    (limit_ : option Z) :
  guards_limit limit_
    (IdKeyed.getLatestBlogs S3_BUCKET cdn getSignedUrl contains limit_)
  ∧ guards_limit limit_
      (IdKeyed.getPopularBlogs S3_BUCKET cdn getSignedUrl contains limit_)
  ∧ guards_limit limit_
      (SlugKeyed.getLatestBlogs S3_BUCKET cdn getSignedUrl contains limit_)
  ∧ guards_limit limit_
      (SlugKeyed.getPopularBlogs S3_BUCKET cdn getSignedUrl contains limit_).
Proof.
  assert (Hid : ∀ b w0, ∃ it w1,
             IdKeyed.with_presigned_urls S3_BUCKET cdn getSignedUrl b w0
             = (inr it, w1) ∧ item_blog it = b ∧ blogs w1 = blogs w0
             ∧ bucket w1 = bucket w0 ∧ db_faults w1 = db_faults w0 ∧ True).
  { intros b w0.
    destruct (with_presigned_urls_by_id_run S3_BUCKET cdn getSignedUrl b w0)
      as (it & w1 & ? & ? & ? & ? & ? & _). by exists it, w1. }
  assert (Hslug : ∀ b w0, ∃ it w1,
             SlugKeyed.with_presigned_urls S3_BUCKET cdn getSignedUrl b w0
             = (inr it, w1) ∧ item_blog it = b ∧ blogs w1 = blogs w0
             ∧ bucket w1 = bucket w0 ∧ db_faults w1 = db_faults w0 ∧ True).
  { intros b w0.
    destruct (with_presigned_urls_by_slug_run S3_BUCKET cdn getSignedUrl b w0)
      as (it & w1 & ? & ? & ? & ? & ? & _). by exists it, w1. }
  repeat split; intros w.
  - by apply (feed_guard contains _ [DeletedAtNull] prisma.CreatedAtDesc
                IdKeyed.feed_answer 5).
  - by apply (feed_guard contains _ [DeletedAtNull] prisma.ViewsDesc
                IdKeyed.feed_answer 5).
  - by apply (feed_guard contains _ [StatusIs "published"; DeletedAtNull]
                prisma.CreatedAtDesc SlugKeyed.feed_answer 10).
  - by apply (feed_guard contains _ [StatusIs "published"; DeletedAtNull]
                prisma.ViewsDesc SlugKeyed.feed_answer 10).
Qed.

(** ** Updates without files *)

Lemma keeps_store_updateBlog_id S3_BUCKET cdn extname sanitizeHTMLToBuffer
    JSON_parse req :
  no_file (IdKeyed.files req) = true →
  keeps_store
    (IdKeyed.updateBlog S3_BUCKET cdn extname sanitizeHTMLToBuffer JSON_parse
       req).
Proof.
  intros Hno. unfold IdKeyed.updateBlog, IdKeyed.not_found. cbv zeta.
  apply keeps_store_try_catch; [|auto with store].
  apply keeps_store_bind; [auto with store|]. intros [b|]; [|auto with store].
  apply keeps_store_if; [auto with store|].
  apply keeps_store_bind.
  { destruct (IdKeyed.update_tags req) as [[s|l]|]; auto 10 with store. }
  intros parsedTags.
  destruct (IdKeyed.files req) as [[[c|] [v|]]|]; try discriminate Hno;
    auto 10 with store.
Qed.

Lemma keeps_store_updateBlog_slug S3_BUCKET cdn extname sanitizeHTMLToBuffer
    JSON_parse req :
  no_file (SlugKeyed.files req) = true →
  keeps_store
    (SlugKeyed.updateBlog S3_BUCKET cdn extname sanitizeHTMLToBuffer JSON_parse
       req).
Proof.
  intros Hno. unfold SlugKeyed.updateBlog, SlugKeyed.not_found. cbv zeta.
  apply keeps_store_try_catch; [|auto with store].
  apply keeps_store_bind; [auto with store|]. intros [b|]; [|auto with store].
  apply keeps_store_if; [auto with store|].
  apply keeps_store_bind; [auto with store|].
  intros [taken|]; [auto with store|].
  apply keeps_store_bind.
  { destruct (SlugKeyed.update_tags req) as [[s|l]|]; auto 10 with store. }
  intros parsedTags.
  destruct (SlugKeyed.files req) as [[[c|] [v|]]|]; try discriminate Hno;
    auto 10 with store.
Qed.

Lemma keeps_rows_findUnique_id i : keeps_rows (prisma.findUnique_id i).
Proof.
  intros w. unfold prisma.findUnique_id, prisma.call.
  by destruct (head (db_faults w)) as [[e|]|].
Qed.

Lemma locators_after_keeps {A} i (c : M A) (k : A → M Response) :
  keeps_rows c → (∀ a, keeps_locators i (k a)) → keeps_locators i (bind c k).
Proof.
  intros Hc Hk w. unfold bind. specialize (Hc w).
  destruct (c w) as [[e|a] w1]; simpl in *; [done|].
  specialize (Hk a w1). by rewrite <- Hc.
Qed.

Lemma locators_after_ret {A} i (a : A) (k : A → M Response) :
  keeps_locators i (k a) → keeps_locators i (bind (ret a) k).
Proof. intros H w. exact (H w). Qed.

Lemma locators_respond i c ok msg d :
  c ≠ 200 → keeps_locators i (respond c ok msg d).
Proof. intros Hc w. simpl. by intros ?. Qed.

Lemma locators_if i (b : bool) (c1 c2 : M Response) :
  keeps_locators i c1 → keeps_locators i c2 →
  keeps_locators i (if b then c1 else c2).
Proof. by destruct b. Qed.

Lemma locators_update i d msg :
  upd_contentUrl d = None → upd_coverImageUrl d = None →
  keeps_locators i
    (b <~ prisma.update i d ;; respond 200 true msg (OneBlog b)).
Proof.
  intros Hc Hv w. unfold bind, prisma.update, prisma.call, respond, ret.
  destruct (head (db_faults w)) as [[e|]|]; simpl; [done|..];
    (destruct (find (prisma.has_id i) (blogs w)) as [b0|]; simpl; [|done];
     destruct (bool_decide (upd_tags d = Some None)); simpl; [done|];
     destruct (match upd_slug d with Some s => _ | None => false end);
     simpl; [done|];
     intros _; exists b0; eexists; split; [done|]; split; [done|];
     simpl; by rewrite Hc, Hv).
Qed.

Lemma locators_try_catch i (c : M Response) entry msg :
  keeps_locators i c →
  keeps_locators i
    (try_catch c (λ error, logger (entry error) ;;; respond 500 false msg NoData)).
Proof.
  intros Hc w. unfold try_catch. specialize (Hc w).
  destruct (c w) as [[e|r] w1]; simpl in *; [|done]. by intros ?.
Qed.

Lemma keeps_rows_tags (JSON_parse : string → JsError + option (list string))
    (t : option TagsField) :
  keeps_rows
    match t with
    | Some (TagsText s) =>
        if Js.truthy s
        then (v <~ lift (JSON_parse s) ;; ret (Some v))
        else ret None
    | Some (TagsArray l) => ret (Some (Some l))
    | None => ret None
    end.
Proof.
  destruct t as [[s|l]|]; [|apply keeps_rows_ret..].
  apply keeps_rows_if; [|apply keeps_rows_ret].
  apply keeps_rows_bind; [apply keeps_rows_lift|].
  intros v. apply keeps_rows_ret.
Qed.

Lemma locators_updateBlog_id S3_BUCKET cdn extname sanitizeHTMLToBuffer
    JSON_parse req :
  no_file (IdKeyed.files req) = true →
  keeps_locators (IdKeyed.params_id req)
    (IdKeyed.updateBlog S3_BUCKET cdn extname sanitizeHTMLToBuffer JSON_parse
       req).
Proof.
  intros Hno. unfold IdKeyed.updateBlog, IdKeyed.not_found. cbv zeta.
  apply locators_try_catch.
  apply locators_after_keeps; [apply keeps_rows_findUnique_id|].
  intros [b|]; [|by apply locators_respond].
  apply locators_if; [by apply locators_respond|].
  apply locators_after_keeps; [apply keeps_rows_tags|].
  intros parsedTags.
  destruct (IdKeyed.files req) as [[[c|] [v|]]|]; try discriminate Hno.
  all: do 2 apply locators_after_ret.
  all: by apply locators_update.
Qed.

Lemma locators_updateBlog_slug S3_BUCKET cdn extname sanitizeHTMLToBuffer
    JSON_parse req :
  no_file (SlugKeyed.files req) = true →
  keeps_locators (SlugKeyed.params_id req)
    (SlugKeyed.updateBlog S3_BUCKET cdn extname sanitizeHTMLToBuffer JSON_parse
       req).
Proof.
  intros Hno. unfold SlugKeyed.updateBlog, SlugKeyed.not_found. cbv zeta.
  apply locators_try_catch.
  apply locators_after_keeps; [apply keeps_rows_findUnique_id|].
  intros [b|]; [|by apply locators_respond].
  apply locators_if; [by apply locators_respond|].
  apply locators_after_keeps.
  { apply keeps_rows_if;
      [apply keeps_rows_findUnique_slug|apply keeps_rows_ret]. }
  intros [taken|]; [by apply locators_respond|].
  apply locators_after_keeps; [apply keeps_rows_tags|].
  intros parsedTags.
  destruct (SlugKeyed.files req) as [[[c|] [v|]]|]; try discriminate Hno.
  all: do 2 apply locators_after_ret.
  all: by apply locators_update.
Qed.

(** X21.  An update that carries no file, in either controller and whatever
    the database does: it answers, sends no command to the store and leaves
    the bucket as it is; and when it answers 200, the row it shows has the
    content locator and the cover locator of the row that the id found. *)
Theorem update_without_files_keeps_locators
    (S3_BUCKET : string) (cdn : option string) (extname : string → string)
    (sanitizeHTMLToBuffer : Buffer → JsError + Buffer)
    (JSON_parse : string → JsError + option (list string))
    (by_id : IdKeyed.UpdateRequest) (by_slug : SlugKeyed.UpdateRequest)
    (w : World) :
  no_file (IdKeyed.files by_id) = true →
  no_file (SlugKeyed.files by_slug) = true →
  (∃ r w',
     IdKeyed.updateBlog S3_BUCKET cdn extname sanitizeHTMLToBuffer JSON_parse
       by_id w = (inr r, w')
     ∧ bucket w' = bucket w ∧ s3_sent w' = s3_sent w
     ∧ (code r = 200 →
        ∃ b0 b, find (prisma.has_id (IdKeyed.params_id by_id)) (blogs w) = Some b0
                ∧ data r = OneBlog b
                ∧ contentUrl b = contentUrl b0
                ∧ coverImageUrl b = coverImageUrl b0))
  ∧ (∃ r w',
       SlugKeyed.updateBlog S3_BUCKET cdn extname sanitizeHTMLToBuffer
         JSON_parse by_slug w = (inr r, w')
       ∧ bucket w' = bucket w ∧ s3_sent w' = s3_sent w
       ∧ (code r = 200 →
          ∃ b0 b, find (prisma.has_id (SlugKeyed.params_id by_slug)) (blogs w)
                  = Some b0
                  ∧ data r = OneBlog b
                  ∧ contentUrl b = contentUrl b0
                  ∧ coverImageUrl b = coverImageUrl b0)).
Proof.
  intros Hid Hslug. split.
  - pose proof (keeps_store_updateBlog_id S3_BUCKET cdn extname
                  sanitizeHTMLToBuffer JSON_parse by_id Hid w) as (Hb & Hs & _).
    pose proof (locators_updateBlog_id S3_BUCKET cdn extname
                  sanitizeHTMLToBuffer JSON_parse by_id Hid w) as Hloc.
    assert (∃ r w',
              IdKeyed.updateBlog S3_BUCKET cdn extname sanitizeHTMLToBuffer
                JSON_parse by_id w = (inr r, w'))
      as (r & w' & Hrun) by apply answers_try_catch.
    rewrite Hrun in Hb, Hs, Hloc. by exists r, w'.
  - pose proof (keeps_store_updateBlog_slug S3_BUCKET cdn extname
                  sanitizeHTMLToBuffer JSON_parse by_slug Hslug w)
      as (Hb & Hs & _).
    pose proof (locators_updateBlog_slug S3_BUCKET cdn extname
                  sanitizeHTMLToBuffer JSON_parse by_slug Hslug w) as Hloc.
    assert (∃ r w',
              SlugKeyed.updateBlog S3_BUCKET cdn extname sanitizeHTMLToBuffer
                JSON_parse by_slug w = (inr r, w'))
      as (r & w' & Hrun) by apply answers_try_catch.
    rewrite Hrun in Hb, Hs, Hloc. by exists r, w'.
Qed.

Lemma update_without_files_keeps_locators_witness :
  (∃ r w',
     IdKeyed.updateBlog "beyondmoksha.com" None posix_extname
       identity_sanitizer no_json
       {| IdKeyed.params_id := 1;
          IdKeyed.update_title := Some "A longer guide";
          IdKeyed.update_tags := None;
          IdKeyed.update_readTime := None;
          IdKeyed.update_views := None;
          IdKeyed.update_likes := None;
          IdKeyed.files := None |} sample_world = (inr r, w')
     ∧ bucket w' = bucket sample_world ∧ s3_sent w' = s3_sent sample_world
     ∧ (code r = 200 →
        ∃ b0 b, find (prisma.has_id 1) (blogs sample_world) = Some b0
                ∧ data r = OneBlog b
                ∧ contentUrl b = contentUrl b0
                ∧ coverImageUrl b = coverImageUrl b0))
  ∧ (∃ r w',
       SlugKeyed.updateBlog "beyondmoksha.com" None posix_extname
         identity_sanitizer no_json
         {| SlugKeyed.params_id := 1;
            SlugKeyed.update_title := None;
            SlugKeyed.update_slug := Some "a-longer-guide";
            SlugKeyed.update_authorId := None;
            SlugKeyed.update_summary := None;
            SlugKeyed.update_tags := None;
            SlugKeyed.update_readTime := None;
            SlugKeyed.update_status := None;
            SlugKeyed.update_views := None;
            SlugKeyed.update_likes := None;
            SlugKeyed.files := Some {| content := None; cover := None |} |}
         sample_world = (inr r, w')
       ∧ bucket w' = bucket sample_world ∧ s3_sent w' = s3_sent sample_world
       ∧ (code r = 200 →
          ∃ b0 b, find (prisma.has_id 1) (blogs sample_world) = Some b0
                  ∧ data r = OneBlog b
                  ∧ contentUrl b = contentUrl b0
                  ∧ coverImageUrl b = coverImageUrl b0)).
Proof.
  apply (update_without_files_keeps_locators "beyondmoksha.com" None
           posix_extname identity_sanitizer no_json
           {| IdKeyed.params_id := 1;
              IdKeyed.update_title := Some "A longer guide";
              IdKeyed.update_tags := None;
              IdKeyed.update_readTime := None;
              IdKeyed.update_views := None;
              IdKeyed.update_likes := None;
              IdKeyed.files := None |}
           {| SlugKeyed.params_id := 1;
              SlugKeyed.update_title := None;
              SlugKeyed.update_slug := Some "a-longer-guide";
              SlugKeyed.update_authorId := None;
              SlugKeyed.update_summary := None;
              SlugKeyed.update_tags := None;
              SlugKeyed.update_readTime := None;
              SlugKeyed.update_status := None;
              SlugKeyed.update_views := None;
              SlugKeyed.update_likes := None;
              SlugKeyed.files := Some {| content := None; cover := None |} |}
           sample_world);
    reflexivity.
Defined.

(** ** The adapter on its own *)

(** X22.  Store, probe, delete, probe: with the transport answering, an
    upload returns the locator [s3://<bucket>/<key>], the key is then
    reported present, its deletion returns, the key is then reported absent,
    and the bucket is the one before the upload without the key. *)
Theorem adapter_round_trip
    (S3_BUCKET : string) (buf : Buffer) (key : string) (ct : option string)
    (w : World) :
  s3_faults w = [] →
  ∃ w1 w2 w3 w4,
    uploadFile S3_BUCKET buf key ct w
    = (inr ("s3://" +:+ S3_BUCKET +:+ "/" +:+ key), w1)
    ∧ fileExists key w1 = (inr true, w2)
    ∧ deleteFile key w2 = (inr (), w3)
    ∧ fileExists key w3 = (inr false, w4)
    ∧ bucket w1 = <[key := {| Body := buf; ContentType := ct |}]> (bucket w)
    ∧ bucket w4 = delete key (bucket w).
Proof.
  intros Hf. eexists _, _, _, _.
  split; [by apply uploadFile_run_ok|].
  split; [rewrite fileExists_run by done; cbn [bucket with_log with_s3];
          by rewrite lookup_insert_eq|].
  split; [reflexivity|].
  split; [rewrite fileExists_run by done;
          cbn [bucket with_log with_s3 s3_faults tail];
          by rewrite lookup_delete_eq|].
  split; [reflexivity|].
  cbn [bucket with_log with_s3 s3_faults tail]. apply delete_insert_eq.
Qed.

Lemma adapter_round_trip_witness :
  ∃ w1 w2 w3 w4,
    uploadFile "beyondmoksha.com" "<p>text</p>" "blogs/7/text/html" None
      empty_world
    = (inr "s3://beyondmoksha.com/blogs/7/text/html", w1)
    ∧ fileExists "blogs/7/text/html" w1 = (inr true, w2)
    ∧ deleteFile "blogs/7/text/html" w2 = (inr (), w3)
    ∧ fileExists "blogs/7/text/html" w3 = (inr false, w4)
    ∧ bucket w1
      = <["blogs/7/text/html" := {| Body := "<p>text</p>"; ContentType := None |}]>
          (bucket empty_world)
    ∧ bucket w4 = delete "blogs/7/text/html" (bucket empty_world).
Proof.
  apply (adapter_round_trip "beyondmoksha.com" "<p>text</p>"
           "blogs/7/text/html" None empty_world).
  reflexivity.
Defined.

(** X23.  When the transport rejects the command: an upload throws
    [Failed to upload file to S3: <message>] and a deletion throws
    [Failed to delete file from S3: <message>]; the probe returns [false]
    when the error is named [NotFound], whether or not the bucket holds the
    key, and throws the error as it is otherwise.  None of the three
    changes the bucket. *)
Theorem adapter_reports_transport_errors
    (S3_BUCKET : string) (buf : Buffer) (key : string) (ct : option string)
    (w : World) (e : JsError) (rest : list (option JsError)) :
  s3_faults w = Some e :: rest →
  (uploadFile S3_BUCKET buf key ct w).1
  = inl (Error ("Failed to upload file to S3: " +:+ err_message e))
  ∧ (deleteFile key w).1
    = inl (Error ("Failed to delete file from S3: " +:+ err_message e))
  ∧ (fileExists key w).1
    = (if String.eqb (err_name e) "NotFound" then inr false else inl e)
  ∧ bucket (uploadFile S3_BUCKET buf key ct w).2 = bucket w
  ∧ bucket (deleteFile key w).2 = bucket w
  ∧ bucket (fileExists key w).2 = bucket w.
Proof.
  intros Hf.
  unfold uploadFile, deleteFile, fileExists, try_catch, bind, send, logger,
    ret, throw.
  rewrite Hf. simpl.
  by destruct (String.eqb (err_name e) "NotFound").
Qed.

Lemma adapter_reports_transport_errors_witness :
  (uploadFile "beyondmoksha.com" "<p>text</p>" "blogs/1/text/html" None
     faulty_world).1
  = inl (Error ("Failed to upload file to S3: " +:+ "socket hang up"))
  ∧ (deleteFile "blogs/1/text/html" faulty_world).1
    = inl (Error ("Failed to delete file from S3: " +:+ "socket hang up"))
  ∧ (fileExists "blogs/1/text/html" faulty_world).1
    = (if String.eqb (err_name (Error "socket hang up")) "NotFound"
       then inr false else inl (Error "socket hang up"))
  ∧ bucket (uploadFile "beyondmoksha.com" "<p>text</p>" "blogs/1/text/html"
              None faulty_world).2 = bucket faulty_world
  ∧ bucket (deleteFile "blogs/1/text/html" faulty_world).2 = bucket faulty_world
  ∧ bucket (fileExists "blogs/1/text/html" faulty_world).2 = bucket faulty_world.
Proof.
  apply (adapter_reports_transport_errors "beyondmoksha.com" "<p>text</p>"
           "blogs/1/text/html" None faulty_world (Error "socket hang up")
           [Some (Error "socket hang up"); Some (Error "socket hang up")]).
  reflexivity.
Defined.
